(** * SecureVote: blind-signature credentials and the anonymous ballot ledger

    A shallow embedding of the Python sources

      - [backend/blind_signature.py]  (RSA blind signatures, transport helpers)
      - [backend/database.py]         (the SQLite voter registry)
      - [backend/voter_registry.py]   (token issuance)
      - [blockchain/blockchain.py]    (the ballot chain)
      - [backend/api.py]              (the two POST handlers)

    followed by the properties of the specification that can be stated about
    them.  Conventions of the embedding:

      - a Python [int] is a [Z]; [bytes] is a [list byte];
      - a Python [str] is a Rocq [string] whose characters are the code points
        below 256, which covers every string the sources build themselves;
      - a [float] timestamp is identified with the literal [json.dumps] writes
        for it (its [repr]), since the ledger only stores and serialises it;
      - the clock ([time.time()], [datetime('now')]) and the random source
        ([os.urandom], [RSA.generate]) are explicit arguments;
      - an exception is an [option] or an error constructor;
      - the ledger's [while] loop carries a fuel argument;
      - [Ledger] holds the votes [cast_vote] writes, whose members are
        strings; [LoadedChain] holds the votes of a chain file, whose
        candidate may be any JSON value; [Request] holds the JSON bodies
        the two handlers may receive. *)

From Stdlib Require Import ZArith List Ascii String Strings.Byte DecimalString Lia.
From Stdlib Require Import Zmod.ZmodInv.
From stdpp Require Import gmap strings list fin_maps.

#[local] Open Scope Z_scope.

(** ** Bytes and big-endian integers *)

Abbreviation bytes := (list byte).

Definition byte_to_Z (b : byte) : Z := Z.of_N (Byte.to_N b).

Definition byte_of_Z (z : Z) : byte :=
  match Byte.of_N (Z.to_N z) with
  | Some b => b
  | None => x00
  end.

(** [int.from_bytes(bs, "big")] *)
Definition int_from_bytes (bs : bytes) : Z :=
  fold_left (fun acc b => acc * 256 + byte_to_Z b) bs 0.

(** [x.to_bytes(len, "big")] for [0 <= x < 256^len] (Python raises
    [OverflowError] otherwise; every call site passes the minimal length). *)
Fixpoint int_to_bytes (len : nat) (x : Z) : bytes :=
  match len with
  | O => []
  | S len' => int_to_bytes len' (x / 256) ++ [byte_of_Z (x mod 256)]
  end.

(** [x.bit_length()] for [x >= 0] *)
Definition bit_length (x : Z) : Z :=
  if x =? 0 then 0 else Z.log2 x + 1.

(** [(x.bit_length() + 7) // 8] *)
Definition byte_length (x : Z) : nat := Z.to_nat ((bit_length x + 7) / 8).

Definition bytes_of_string (s : string) : bytes := list_byte_of_string s.

(** ** SHA-256 (FIPS 180-4), as [Crypto.Hash.SHA256] and [hashlib.sha256] compute it *)

Module Sha256.

Definition mask32 : Z := 0xFFFFFFFF.

Definition add32 (a b : Z) : Z := Z.land (a + b) mask32.

Definition rotr (n x : Z) : Z :=
  Z.lor (Z.shiftr x n) (Z.land (Z.shiftl x (32 - n)) mask32).

Definition Ch (x y z : Z) : Z :=
  Z.lxor (Z.land x y) (Z.land (Z.lxor x mask32) z).

Definition Maj (x y z : Z) : Z :=
  Z.lxor (Z.lxor (Z.land x y) (Z.land x z)) (Z.land y z).

Definition Sigma0 (x : Z) : Z := Z.lxor (Z.lxor (rotr 2 x) (rotr 13 x)) (rotr 22 x).
Definition Sigma1 (x : Z) : Z := Z.lxor (Z.lxor (rotr 6 x) (rotr 11 x)) (rotr 25 x).
Definition sigma0 (x : Z) : Z := Z.lxor (Z.lxor (rotr 7 x) (rotr 18 x)) (Z.shiftr x 3).
Definition sigma1 (x : Z) : Z := Z.lxor (Z.lxor (rotr 17 x) (rotr 19 x)) (Z.shiftr x 10).

(** The constants of the standard are the first 32 bits of the fractional
    parts of the cube roots (for [K]) and of the square roots (for [H0]) of
    the first primes. *)
Definition is_prime (p : Z) : bool :=
  forallb (fun k => negb (p mod Z.of_nat k =? 0)) (seq 2 (Z.to_nat p - 2)).

Definition first_primes (count : nat) : list Z :=
  firstn count (List.filter is_prime (map Z.of_nat (seq 2 400))).

(** The integer cube root, one bit at a time from bit [bits - 1] down. *)
Fixpoint cube_root (bits : nat) (x r : Z) : Z :=
  match bits with
  | O => r
  | S bits' =>
      let r' := r + 2 ^ Z.of_nat bits' in
      cube_root bits' x (if r' * r' * r' <=? x then r' else r)
  end.

Definition cbrt_fraction (p : Z) : Z := cube_root 40 (p * 2 ^ 96) 0 mod 2 ^ 32.

Definition sqrt_fraction (p : Z) : Z := Z.sqrt (p * 2 ^ 64) mod 2 ^ 32.

Definition K : list Z := Eval vm_compute in map cbrt_fraction (first_primes 64).

Definition H0 : list Z := Eval vm_compute in map sqrt_fraction (first_primes 8).

(** Padding: a [0x80] byte, zeros up to 56 modulo 64, the bit length on 8 bytes. *)
Definition pad (msg : bytes) : bytes :=
  let len := Z.of_nat (List.length msg) in
  let zeros := Z.to_nat ((55 - len) mod 64) in
  msg ++ [x80] ++ repeat x00 zeros ++ int_to_bytes 8 (len * 8).

(** The big-endian 32-bit words of a byte string (a trailing partial word is
    dropped; padded messages have none). *)
Fixpoint words (fuel : nat) (bs : bytes) : list Z :=
  match fuel, bs with
  | S fuel', b0 :: b1 :: b2 :: b3 :: rest =>
      int_from_bytes [b0; b1; b2; b3] :: words fuel' rest
  | _, _ => []
  end.

(** Split a list of words into the 16-word blocks. *)
Fixpoint blocks (fuel : nat) (ws : list Z) : list (list Z) :=
  match fuel, ws with
  | S fuel', _ :: _ => firstn 16 ws :: blocks fuel' (skipn 16 ws)
  | _, _ => []
  end.

(** The message schedule beyond the first 16 words; [win] holds the last 16
    words, oldest first. *)
Fixpoint expand (n : nat) (win : list Z) : list Z :=
  match n with
  | O => []
  | S n' =>
      let w := add32 (add32 (sigma1 (nth 14 win 0)) (nth 9 win 0))
                     (add32 (sigma0 (nth 1 win 0)) (nth 0 win 0)) in
      w :: expand n' (tl win ++ [w])
  end.

Definition schedule (block : list Z) : list Z := block ++ expand 48 block.

Record regs := Regs { ra : Z; rb : Z; rc : Z; rd : Z; re : Z; rf : Z; rg : Z; rh : Z }.

Definition round (s : regs) (kw : Z * Z) : regs :=
  let '(k, w) := kw in
  let t1 := add32 (add32 (add32 (rh s) (Sigma1 (re s))) (add32 (Ch (re s) (rf s) (rg s)) k)) w in
  let t2 := add32 (Sigma0 (ra s)) (Maj (ra s) (rb s) (rc s)) in
  Regs (add32 t1 t2) (ra s) (rb s) (rc s) (add32 (rd s) t1) (re s) (rf s) (rg s).

Definition regs_of (h : list Z) : regs :=
  Regs (nth 0 h 0) (nth 1 h 0) (nth 2 h 0) (nth 3 h 0)
       (nth 4 h 0) (nth 5 h 0) (nth 6 h 0) (nth 7 h 0).

Definition compress (h : list Z) (block : list Z) : list Z :=
  let s := fold_left round (combine K (schedule block)) (regs_of h) in
  [ add32 (nth 0 h 0) (ra s); add32 (nth 1 h 0) (rb s);
    add32 (nth 2 h 0) (rc s); add32 (nth 3 h 0) (rd s);
    add32 (nth 4 h 0) (re s); add32 (nth 5 h 0) (rf s);
    add32 (nth 6 h 0) (rg s); add32 (nth 7 h 0) (rh s) ].

(** [SHA256.new(msg).digest()] *)
Definition digest (msg : bytes) : bytes :=
  let padded := pad msg in
  let ws := words (List.length padded) padded in
  let h := fold_left compress (blocks (List.length ws) ws) H0 in
  flat_map (int_to_bytes 4) h.

Definition hex_digit (z : Z) : ascii :=
  nth (Z.to_nat z) (list_ascii_of_string "0123456789abcdef") "0"%char.

(** [bs.hex()] *)
Definition hex (bs : bytes) : string :=
  string_of_list_ascii
    (flat_map (fun b => [hex_digit (byte_to_Z b / 16); hex_digit (byte_to_Z b mod 16)]) bs).

(** [SHA256.new(msg).hexdigest()] *)
Definition hexdigest (msg : bytes) : string := hex (digest msg).

End Sha256.

(** ** Python string predicates on the code points below 256 *)

Module PyStr.

Definition code (c : ascii) : Z := Z.of_N (N_of_ascii c).

Definition in_range (lo hi : Z) (c : ascii) : bool :=
  (lo <=? code c) && (code c <=? hi).

(** [c.isspace()]: the characters [str.strip()] removes. *)
Definition isspace (c : ascii) : bool :=
  in_range 9 13 c || in_range 28 32 c || (code c =? 133) || (code c =? 160).

(** The class [[A-Za-z0-9]]. *)
Definition is_ascii_alnum (c : ascii) : bool :=
  in_range 48 57 c || in_range 65 90 c || in_range 97 122 c.

(** [c.isalnum()]: Unicode letters and numeric characters; below 256 these
    are the ASCII ones and the Latin-1 letters, superscript digits and
    vulgar fractions. *)
Definition isalnum (c : ascii) : bool :=
  is_ascii_alnum c
  || (code c =? 170) || (code c =? 178) || (code c =? 179) || (code c =? 181)
  || (code c =? 185) || (code c =? 186) || in_range 188 190 c
  || in_range 192 214 c || in_range 216 246 c || in_range 248 255 c.

Fixpoint lstrip (s : string) : string :=
  match s with
  | String c rest => if isspace c then lstrip rest else s
  | EmptyString => EmptyString
  end.

Fixpoint rstrip (s : string) : string :=
  match s with
  | String c rest =>
      match rstrip rest with
      | EmptyString => if isspace c then EmptyString else String c EmptyString
      | rest' => String c rest'
      end
  | EmptyString => EmptyString
  end.

(** [s.strip()] *)
Definition strip (s : string) : string := rstrip (lstrip s).

(** [all(p(c) for c in s)] *)
Fixpoint all (p : ascii -> bool) (s : string) : bool :=
  match s with
  | String c rest => p c && all p rest
  | EmptyString => true
  end.

(** [s[:n]] for [n >= 0] *)
Fixpoint prefix (n : nat) (s : string) : string :=
  match n, s with
  | S n', String c rest => String c (prefix n' rest)
  | _, _ => EmptyString
  end.

(** [s.startswith(p)] *)
Fixpoint startswith (p s : string) : bool :=
  match p, s with
  | EmptyString, _ => true
  | String a p', String b s' => Ascii.eqb a b && startswith p' s'
  | String _ _, EmptyString => false
  end.

(** [c * n] for a one-character string [c] *)
Fixpoint replicate (n : nat) (c : ascii) : string :=
  match n with
  | O => EmptyString
  | S n' => String c (replicate n' c)
  end.

(** [str(i)] for an [int] *)
Definition of_int (i : Z) : string := NilZero.string_of_int (Z.to_int i).

End PyStr.

(** ** Transport codecs of the Python standard library *)

Module Codec.

Definition hexval (c : ascii) : option Z :=
  let k := PyStr.code c in
  if PyStr.in_range 48 57 c then Some (k - 48)
  else if PyStr.in_range 97 102 c then Some (k - 87)
  else if PyStr.in_range 65 70 c then Some (k - 55)
  else None.

Definition is_ascii_space (c : ascii) : bool :=
  PyStr.in_range 9 13 c || (PyStr.code c =? 32).

(** [bytes.fromhex(s)]: two hexadecimal digits per byte, ASCII whitespace
    between bytes is skipped; [None] is [ValueError]. *)
Fixpoint fromhex (s : string) : option bytes :=
  match s with
  | EmptyString => Some []
  | String c rest =>
      if is_ascii_space c then fromhex rest
      else
        match rest with
        | String c' rest' =>
            match hexval c, hexval c', fromhex rest' with
            | Some hi, Some lo, Some bs => Some (byte_of_Z (16 * hi + lo) :: bs)
            | _, _, _ => None
            end
        | EmptyString => None
        end
  end.

Definition b64_alphabet : list ascii :=
  list_ascii_of_string "ABCDEFGHIJKLMNOPQRSTUVWXYZabcdefghijklmnopqrstuvwxyz0123456789+/".

Definition b64_char (z : Z) : ascii := nth (Z.to_nat z) b64_alphabet "A"%char.

(** The value of a character of the base64 alphabet. *)
Definition b64_val (c : ascii) : option Z :=
  let k := PyStr.code c in
  if PyStr.in_range 65 90 c then Some (k - 65)
  else if PyStr.in_range 97 122 c then Some (k - 71)
  else if PyStr.in_range 48 57 c then Some (k + 4)
  else if k =? 43 then Some 62
  else if k =? 47 then Some 63
  else None.

(** [base64.b64encode(bs).decode()] *)
Fixpoint b64encode (bs : bytes) : string :=
  match bs with
  | [] => EmptyString
  | [b0] =>
      let x := byte_to_Z b0 in
      String (b64_char (x / 4)) (String (b64_char (x mod 4 * 16)) "==")
  | [b0; b1] =>
      let x := byte_to_Z b0 in
      let y := byte_to_Z b1 in
      String (b64_char (x / 4))
        (String (b64_char (x mod 4 * 16 + y / 16))
           (String (b64_char (y mod 16 * 4)) "="))
  | b0 :: b1 :: b2 :: rest =>
      let x := byte_to_Z b0 in
      let y := byte_to_Z b1 in
      let z := byte_to_Z b2 in
      String (b64_char (x / 4))
        (String (b64_char (x mod 4 * 16 + y / 16))
           (String (b64_char (y mod 16 * 4 + z / 64))
              (String (b64_char (z mod 64)) (b64encode rest))))
  end.

(** The decoding loop of [binascii.a2b_base64] in its default, lenient
    mode: characters outside the alphabet are skipped, a complete pad
    sequence ends the input, and a dangling quantum is an error.
    [quad] is the position inside the current quantum, [left] the bits
    carried over, [pads] the pad characters seen since the last digit. *)
Fixpoint a2b_base64 (s : string) (quad left pads : Z) : option bytes :=
  match s with
  | EmptyString => if quad =? 0 then Some [] else None
  | String c rest =>
      if PyStr.code c =? 61 then
        if 2 <=? quad then
          if 4 <=? quad + (pads + 1) then Some []
          else a2b_base64 rest quad left (pads + 1)
        else a2b_base64 rest quad left pads
      else
        match b64_val c with
        | None => a2b_base64 rest quad left pads
        | Some v =>
            if quad =? 0 then a2b_base64 rest 1 v 0
            else if quad =? 1 then
              option_map (cons (byte_of_Z (left * 4 + v / 16)))
                         (a2b_base64 rest 2 (v mod 16) 0)
            else if quad =? 2 then
              option_map (cons (byte_of_Z (left * 16 + v / 4)))
                         (a2b_base64 rest 3 (v mod 4) 0)
            else
              option_map (cons (byte_of_Z (left * 64 + v)))
                         (a2b_base64 rest 0 0 0)
        end
  end.

(** [base64.b64decode(s)] on a [str]: the string must be ASCII, then it is
    decoded leniently; [None] is the exception the callers catch. *)
Definition b64decode (s : string) : option bytes :=
  if PyStr.all (fun c => PyStr.code c <? 128) s then a2b_base64 s 0 0 0 else None.

End Codec.

(** ** backend/blind_signature.py *)

Module BlindSignature.

(** [KEY_SIZE = 2048] *)
Definition KEY_SIZE : Z := 2048.

(** An [RSA.RsaKey] with its private part, and one without.  The PEM text
    that the sources pass around is identified with the key it encodes. *)
Record PrivateKey := mkPrivateKey
  { priv_n : Z; priv_e : Z; priv_d : Z; priv_p : Z; priv_q : Z }.

Record PublicKey := mkPublicKey { pub_n : Z; pub_e : Z }.

(** [key.publickey()] *)
Definition publickey (k : PrivateKey) : PublicKey :=
  mkPublicKey (priv_n k) (priv_e k).

(** What [RSA.generate] returns and [RSA.import_key] accepts: the modulus is
    the product of two distinct primes and [d] inverts [e] modulo
    [lcm(p-1, q-1)]. *)
Definition wf_private_key (k : PrivateKey) : Prop :=
  Z.prime (priv_p k) /\ Z.prime (priv_q k) /\ priv_p k <> priv_q k /\
  priv_n k = priv_p k * priv_q k /\
  0 < priv_e k /\ 0 < priv_d k /\
  (priv_e k * priv_d k) mod Z.lcm (priv_p k - 1) (priv_q k - 1) = 1.

(** The pair [generate_keypair] returns. *)
Definition rsa_keypair (priv : PrivateKey) (pub : PublicKey) : Prop :=
  wf_private_key priv /\ pub = publickey priv.

(** [pow(b, x, n)] for an exponent [x >= 0] and a modulus [n > 0], which is
    what the exponents and the modulus of an RSA key are. *)
Definition pow_mod (b x n : Z) : Z := (b ^ x) mod n.

(** [pow(r, -1, n)]: [None] is the [ValueError] Python raises when [r] is
    not invertible modulo [n]. *)
Definition mod_inverse (r n : Z) : option Z :=
  if Z.gcd r n =? 1 then Some (Z.invmod r n) else None.

(** [int.from_bytes(SHA256.new(token).digest(), "big") % n] *)
Definition hash_to_int (token : bytes) (n : Z) : Z :=
  int_from_bytes (Sha256.digest token) mod n.

(** The [while True] loop of [blind_token]; [draws] are the successive
    results of [os.urandom(KEY_SIZE // 8)], and running out of them stands
    for a loop that has not ended yet. *)
Fixpoint draw_blinding_factor (n : Z) (draws : list bytes) : option Z :=
  match draws with
  | [] => None
  | d :: rest =>
      let r := int_from_bytes d mod n in
      if (1 <? r) && negb (pow_mod r 1 n =? 0) then Some r
      else draw_blinding_factor n rest
  end.

Definition blind_token (token : bytes) (pub : PublicKey) (draws : list bytes)
  : option (bytes * Z) :=
  let n := pub_n pub in
  let e := pub_e pub in
  let m := hash_to_int token n in
  match draw_blinding_factor n draws with
  | None => None
  | Some r =>
      let r_e := pow_mod r e n in
      let blinded := (m * r_e) mod n in
      Some (int_to_bytes (byte_length blinded) blinded, r)
  end.

Definition unblind_signature (blind_sig_int blinding_factor : Z) (pub : PublicKey)
  : option Z :=
  let n := pub_n pub in
  match mod_inverse blinding_factor n with
  | None => None
  | Some r_inv => Some ((blind_sig_int * r_inv) mod n)
  end.

Definition verify_signature (token : bytes) (signature_int : Z) (pub : PublicKey) : bool :=
  let n := pub_n pub in
  let e := pub_e pub in
  let m := hash_to_int token n in
  let recovered := pow_mod signature_int e n in
  recovered =? m.

Definition blind_sign (blinded_token_bytes : bytes) (priv : PrivateKey) : Z :=
  let n := priv_n priv in
  let d := priv_d priv in
  let blinded_int := int_from_bytes blinded_token_bytes in
  pow_mod blinded_int d n.

Definition token_to_hex (token : bytes) : string := Sha256.hex token.

Definition hex_to_token (hex_str : string) : option bytes := Codec.fromhex hex_str.

(** [int_to_b64(n)] for [n >= 0], which is all its callers pass; on a
    negative [n] the source raises [OverflowError] in [int.to_bytes]. *)
Definition int_to_b64 (n : Z) : string :=
  Codec.b64encode (int_to_bytes (byte_length n) n).

Definition b64_to_int (b64_str : string) : option Z :=
  option_map int_from_bytes (Codec.b64decode b64_str).

Definition token_hash (token : bytes) : string := Sha256.hexdigest token.

(** The composition of the correctness law: blind, sign the blinded value,
    unblind, verify.  [None] when a step does not return. *)
Definition blind_protocol (token : bytes) (priv : PrivateKey) (pub : PublicKey)
    (draws : list bytes) : option bool :=
  match blind_token token pub draws with
  | None => None
  | Some (blinded, r) =>
      match unblind_signature (blind_sign blinded priv) r pub with
      | None => None
      | Some sig => Some (verify_signature token sig pub)
      end
  end.

End BlindSignature.

(** ** backend/database.py *)

Module Database.
Import BlindSignature.

(** A row of [voters]; [token_issued] is the SQLite INTEGER column. *)
Record VoterRow := mkVoterRow
  { registered_at : string; token_issued : Z; token_issued_at : option string }.

(** The single row of [issuer_keys]. *)
Record KeysRow := mkKeysRow
  { private_key : PrivateKey; public_key : PublicKey; created_at : string }.

(** The three tables.  [eligible_voters.name] is never written and is left
    out; [voter_id] is the primary key of both voter tables. *)
Record Db := mkDb
  { voters : gmap string VoterRow;
    issuer_keys : option KeysRow;
    eligible_voters : gset string }.

(** The database once [init_db] has created its tables. *)
Definition empty_db : Db := mkDb ∅ None ∅.

(** [CREATE TABLE IF NOT EXISTS]: existing tables and rows are kept. *)
Definition init_db (db : Db) : Db := db.

(** [INSERT OR IGNORE INTO eligible_voters] for each id *)
Definition seed_eligible_voters (voter_ids : list string) (db : Db) : Db :=
  mkDb (voters db) (issuer_keys db)
       (foldl (fun s vid => s ∪ {[vid]}) (eligible_voters db) voter_ids).

Definition is_eligible (voter_id : string) (db : Db) : bool :=
  bool_decide (voter_id ∈ eligible_voters db).

Definition has_token_issued (voter_id : string) (db : Db) : bool :=
  match voters db !! voter_id with
  | None => false
  | Some row => negb (token_issued row =? 0)
  end.

(** [INSERT ... VALUES (?, 1, now) ON CONFLICT(voter_id) DO UPDATE SET
    token_issued=1, token_issued_at=now WHERE token_issued=0] *)
Definition register_voter (voter_id : string) (now : string) (db : Db) : Db :=
  match voters db !! voter_id with
  | None =>
      mkDb (<[voter_id := mkVoterRow now 1 (Some now)]> (voters db))
           (issuer_keys db) (eligible_voters db)
  | Some row =>
      if token_issued row =? 0 then
        mkDb (<[voter_id := mkVoterRow (registered_at row) 1 (Some now)]> (voters db))
             (issuer_keys db) (eligible_voters db)
      else db
  end.

Record VoterStatus := mkVoterStatus
  { st_voter_id : string;
    st_eligible : bool;
    st_registered : bool;
    st_token_issued : bool;
    st_registered_at : option string;
    st_token_issued_at : option string }.

Definition get_voter_status (voter_id : string) (db : Db) : VoterStatus :=
  match voters db !! voter_id with
  | None => mkVoterStatus voter_id (is_eligible voter_id db) false false None None
  | Some row =>
      mkVoterStatus voter_id true true (negb (token_issued row =? 0))
                    (Some (registered_at row)) (token_issued_at row)
  end.

(** The upsert on the row [id = 1]: both the insert and the update write
    the two keys and the current time. *)
Definition store_issuer_keys (priv : PrivateKey) (pub : PublicKey) (now : string)
    (db : Db) : Db :=
  mkDb (voters db) (Some (mkKeysRow priv pub now)) (eligible_voters db).

Definition get_issuer_keys (db : Db) : option (PrivateKey * PublicKey) :=
  match issuer_keys db with
  | None => None
  | Some row => Some (private_key row, public_key row)
  end.

End Database.

(** ** backend/voter_registry.py *)

Module VoterRegistry.
Import BlindSignature Database.

(** [generate_keypair()], from the key [RSA.generate] drew. *)
Definition generate_keypair (fresh : PrivateKey) : PrivateKey * PublicKey :=
  (fresh, publickey fresh).

(** [bootstrap(demo_voter_ids)]; [None] and [[]] both skip the seeding. *)
Definition bootstrap (demo_voter_ids : list string) (fresh : PrivateKey)
    (now : string) (db : Db) : Db * PublicKey :=
  let db := init_db db in
  let '(db, public_key) :=
    match get_issuer_keys db with
    | None =>
        let '(private_key, public_key) := generate_keypair fresh in
        (store_issuer_keys private_key public_key now db, public_key)
    | Some (_, public_key) => (db, public_key)
    end in
  let db := match demo_voter_ids with
            | [] => db
            | _ :: _ => seed_eligible_voters demo_voter_ids db
            end in
  (db, public_key).

(** [get_public_key()]; [None] is the [RuntimeError]. *)
Definition get_public_key (db : Db) : option PublicKey :=
  match get_issuer_keys db with
  | None => None
  | Some (_, public_key) => Some public_key
  end.

(** The [error] strings of [issue_blind_token], in the order of its checks. *)
Inductive issue_error :=
| NotEligible          (* "Voter ID not found in eligible voters list" *)
| AlreadyIssued        (* "Token already issued to this voter" *)
| IssuerNotInitialized (* "Issuer not initialized" *)
| MalformedInput.      (* "Invalid base64 encoding for blinded token" *)

(** The returned dict: [{"success": True, "blind_sig_b64": ...}] or
    [{"success": False, "error": ...}]. *)
Inductive issue_result :=
| IssueOk (blind_sig_b64 : string)
| IssueErr (error : issue_error).

Definition success (r : issue_result) : bool :=
  match r with IssueOk _ => true | IssueErr _ => false end.

Definition issue_blind_token (voter_id blinded_token_b64 : string) (now : string)
    (db : Db) : Db * issue_result :=
  if negb (is_eligible voter_id db) then (db, IssueErr NotEligible)
  else if has_token_issued voter_id db then (db, IssueErr AlreadyIssued)
  else
    match get_issuer_keys db with
    | None => (db, IssueErr IssuerNotInitialized)
    | Some (private_key, _) =>
        match Codec.b64decode blinded_token_b64 with
        | None => (db, IssueErr MalformedInput)
        | Some blinded_bytes =>
            let blind_sig_int := blind_sign blinded_bytes private_key in
            let blind_sig_b64 := int_to_b64 blind_sig_int in
            let db := register_voter voter_id now db in
            (db, IssueOk blind_sig_b64)
        end
    end.

Definition voter_status (voter_id : string) (db : Db) : VoterStatus :=
  get_voter_status voter_id db.

(** The operations that act on the registry store: the four entry points of
    this module, and the mutating functions of [database.py] underneath. *)
Inductive op :=
| OpBootstrap (demo_voter_ids : list string) (fresh : PrivateKey) (now : string)
| OpGetPublicKey
| OpIssue (voter_id blinded_token_b64 : string) (now : string)
| OpStatus (voter_id : string)
| OpInitDb
| OpSeed (voter_ids : list string)
| OpRegister (voter_id : string) (now : string)
| OpStoreKeys (priv : PrivateKey) (pub : PublicKey) (now : string).

Definition run_op (o : op) (db : Db) : Db :=
  match o with
  | OpBootstrap ids fresh now => fst (bootstrap ids fresh now db)
  | OpGetPublicKey => db
  | OpIssue vid b now => fst (issue_blind_token vid b now db)
  | OpStatus _ => db
  | OpInitDb => init_db db
  | OpSeed ids => seed_eligible_voters ids db
  | OpRegister vid now => register_voter vid now db
  | OpStoreKeys priv pub now => store_issuer_keys priv pub now db
  end.

Definition run_ops (ops : list op) (db : Db) : Db :=
  foldl (fun db o => run_op o db) db ops.

(** The entry points of [voter_registry.py], which is all the API calls. *)
Definition registry_level (o : op) : bool :=
  match o with
  | OpBootstrap _ _ _ | OpGetPublicKey | OpIssue _ _ _ | OpStatus _ => true
  | _ => false
  end.

(** [o] is a call of [issue_blind_token] for [voter_id]. *)
Definition issues_for (voter_id : string) (o : op) : bool :=
  match o with
  | OpIssue vid _ _ => String.eqb vid voter_id
  | _ => false
  end.

End VoterRegistry.

(** ** blockchain/blockchain.py *)

Module Ledger.

Definition CANDIDATES : list string := ["Candidate A"; "Candidate B"; "Candidate C"]%string.

(** [Blockchain.DIFFICULTY] *)
Definition DIFFICULTY : nat := 2.

(** A vote record, with the four keys [cast_vote] writes and the strings
    it writes under them.  What else a chain file can hold under
    "candidate" is in [LoadedChain]. *)
Record Vote := mkVote
  { token_hash : string; candidate : string; vote_timestamp : string; signature : string }.

(** A [Block] object. *)
Record Block := mkBlock
  { index : Z; timestamp : string; votes : list Vote;
    previous_hash : string; nonce : Z; hash : string }.

(** The dictionary [to_dict] returns and [from_dict] reads. *)
Record BlockDict := mkBlockDict
  { d_index : Z; d_timestamp : string; d_votes : list Vote;
    d_previous_hash : string; d_nonce : Z; d_hash : string }.

(** *** [json.dumps(..., sort_keys=True)] *)

Definition dquote : string := String (ascii_of_nat 34) "".
Definition backslash : string := String (ascii_of_nat 92) "".

(** [\u00XX] *)
Definition hex4 (k : Z) : string :=
  backslash ++ "u00" ++
  String (Sha256.hex_digit (k / 16)) (String (Sha256.hex_digit (k mod 16)) "").

(** One character of a string literal, as [ensure_ascii] escapes it. *)
Definition json_escape_char (c : ascii) : string :=
  let k := PyStr.code c in
  if k =? 34 then backslash ++ dquote
  else if k =? 92 then backslash ++ backslash
  else if k =? 10 then backslash ++ "n"
  else if k =? 13 then backslash ++ "r"
  else if k =? 9 then backslash ++ "t"
  else if k =? 8 then backslash ++ "b"
  else if k =? 12 then backslash ++ "f"
  else if PyStr.in_range 32 126 c then String c ""
  else hex4 k.

Fixpoint json_escape (s : string) : string :=
  match s with
  | EmptyString => ""
  | String c rest => json_escape_char c ++ json_escape rest
  end.

Definition json_string (s : string) : string := dquote ++ json_escape s ++ dquote.

(** A key of an object, with the default [": "] separator. *)
Definition json_key (name : string) : string := json_string name ++ ": ".

Definition json_vote (v : Vote) : string :=
  "{" ++ json_key "candidate" ++ json_string (candidate v) ++
  ", " ++ json_key "signature" ++ json_string (signature v) ++
  ", " ++ json_key "timestamp" ++ vote_timestamp v ++
  ", " ++ json_key "token_hash" ++ json_string (token_hash v) ++ "}".

Fixpoint json_join (items : list string) : string :=
  match items with
  | [] => ""
  | [x] => x
  | x :: rest => x ++ ", " ++ json_join rest
  end.

Definition json_block (index : Z) (timestamp : string) (votes : list Vote)
    (previous_hash : string) (nonce : Z) : string :=
  "{" ++ json_key "index" ++ PyStr.of_int index ++
  ", " ++ json_key "nonce" ++ PyStr.of_int nonce ++
  ", " ++ json_key "previous_hash" ++ json_string previous_hash ++
  ", " ++ json_key "timestamp" ++ timestamp ++
  ", " ++ json_key "votes" ++ "[" ++ json_join (map json_vote votes) ++ "]}".

(** *** [Block] *)

(** [Block._compute_hash], from the five hashed fields. *)
Definition compute_hash_of (index : Z) (timestamp : string) (votes : list Vote)
    (previous_hash : string) (nonce : Z) : string :=
  let content := json_block index timestamp votes previous_hash nonce in
  Sha256.hexdigest (bytes_of_string content).

Definition compute_hash (b : Block) : string :=
  compute_hash_of (index b) (timestamp b) (votes b) (previous_hash b) (nonce b).

(** [Block(index, timestamp, votes, previous_hash, nonce)] *)
Definition new_block (index : Z) (timestamp : string) (votes : list Vote)
    (previous_hash : string) (nonce : Z) : Block :=
  mkBlock index timestamp votes previous_hash nonce
          (compute_hash_of index timestamp votes previous_hash nonce).

Definition to_dict (b : Block) : BlockDict :=
  mkBlockDict (index b) (timestamp b) (votes b) (previous_hash b) (nonce b) (hash b).

(** [Block.from_dict]: the constructor's hash is replaced by the stored one. *)
Definition from_dict (data : BlockDict) : Block :=
  let b := new_block (d_index data) (d_timestamp data) (d_votes data)
                     (d_previous_hash data) (d_nonce data) in
  mkBlock (index b) (timestamp b) (votes b) (previous_hash b) (nonce b) (d_hash data).

(** *** [Blockchain] *)

(** What [CHAIN_FILE] holds: nothing, something [json.load] or [from_dict]
    fails on, or the document [_save] writes. *)
Inductive ChainFile :=
| FileAbsent
| FileUnreadable
| FileDoc (file_chain : list BlockDict) (file_spent_tokens : gset string).

(** The fields of a [Blockchain] object, together with its chain file. *)
Record Blockchain := mkBlockchain
  { chain : list Block;
    pending_votes : list Vote;
    spent_tokens : gset string;
    chain_file : ChainFile }.

(** [self._save()] *)
Definition save (bc : Blockchain) : Blockchain :=
  mkBlockchain (chain bc) (pending_votes bc) (spent_tokens bc)
               (FileDoc (map to_dict (chain bc)) (spent_tokens bc)).

(** The body of the loop of [_is_valid] at index [i]: [true] when neither
    [return False] is taken.  The loop only visits [1 <= i < len], where
    both lookups succeed. *)
Definition block_ok (chain : list Block) (i : nat) : bool :=
  match chain !! i, chain !! (i - 1)%nat with
  | Some current, Some previous =>
      if negb (String.eqb (hash current) (compute_hash current)) then false
      else if negb (String.eqb (previous_hash current) (hash previous)) then false
      else true
  | _, _ => true
  end.

(** [_is_valid]: [for i in range(1, len(self.chain))], leaving at the
    first failure. *)
Definition is_valid_chain (chain : list Block) : bool :=
  forallb (block_ok chain) (seq 1 (List.length chain - 1)).

Definition is_valid (bc : Blockchain) : bool := is_valid_chain (chain bc).

(** ["0" * 64] *)
Definition zero_hash : string := PyStr.replicate 64 "0".

(** The genesis branch of [_load_or_init]. *)
Definition init_genesis (now : string) (spent : gset string) (file : ChainFile)
  : Blockchain :=
  let genesis := new_block 0 now [] zero_hash 0 in
  save (mkBlockchain [genesis] [] spent file).

(** [Blockchain()]: [__init__] followed by [_load_or_init].  A chain that
    loads but does not validate raises inside the [try], after
    [self.spent_tokens] has been assigned. *)
Definition load_or_init (file : ChainFile) (now : string) : Blockchain :=
  match file with
  | FileDoc data_chain data_spent =>
      let loaded := mkBlockchain (map from_dict data_chain) [] data_spent file in
      if negb (is_valid loaded) then init_genesis now data_spent file
      else loaded
  | FileUnreadable => init_genesis now ∅ file
  | FileAbsent => init_genesis now ∅ file
  end.

(** The proof-of-work rule: [block.hash.startswith("0" * DIFFICULTY)]. *)
Definition has_pow (b : Block) : bool :=
  PyStr.startswith (PyStr.replicate DIFFICULTY "0") (hash b).

(** [_proof_of_work]: each unit of fuel pays for one turn of the loop. *)
Fixpoint proof_of_work (fuel : nat) (block : Block) : option Block :=
  if has_pow block then Some block
  else
    match fuel with
    | O => None
    | S fuel' =>
        let nonce' := nonce block + 1 in
        proof_of_work fuel'
          (mkBlock (index block) (timestamp block) (votes block) (previous_hash block)
                   nonce'
                   (compute_hash_of (index block) (timestamp block) (votes block)
                                    (previous_hash block) nonce'))
    end.

(** The two [error] strings of [cast_vote]. *)
Inductive vote_error :=
| InvalidChoice   (* "Invalid candidate. Choose from: [...]" *)
| DoubleVote.     (* "Token already used — double-voting prevented" *)

(** What a call of [cast_vote] produces: one of its two dicts, or the
    [IndexError] of [self.chain[-1]] on an empty chain. *)
Inductive cast_result :=
| Accepted (tx_hash : string) (block_index : Z)
| Rejected (error : vote_error)
| RaisedIndexError.

(** [cast_vote(token_hash, candidate, signature_hex)]; [t_vote] and
    [t_block] are its two readings of [time.time()].  [None] when the fuel
    does not suffice for the mining loop. *)
Definition cast_vote (fuel : nat) (token_hash candidate signature_hex : string)
    (t_vote t_block : string) (bc : Blockchain) : option (Blockchain * cast_result) :=
  if negb (bool_decide (candidate ∈ CANDIDATES)) then Some (bc, Rejected InvalidChoice)
  else if bool_decide (token_hash ∈ spent_tokens bc) then Some (bc, Rejected DoubleVote)
  else
    let spent := spent_tokens bc ∪ {[token_hash]} in
    let vote_record := mkVote token_hash candidate t_vote signature_hex in
    let pending := pending_votes bc ++ [vote_record] in
    match last (chain bc) with
    | None => Some (mkBlockchain (chain bc) pending spent (chain_file bc), RaisedIndexError)
    | Some tip =>
        let block := new_block (Z.of_nat (List.length (chain bc))) t_block
                               [vote_record] (hash tip) 0 in
        match proof_of_work fuel block with
        | None => None
        | Some block =>
            let bc' := save (mkBlockchain (chain bc ++ [block]) [] spent (chain_file bc)) in
            Some (bc', Accepted (hash block) (index block))
        end
    end.

Definition is_token_spent (token_hash : string) (bc : Blockchain) : bool :=
  bool_decide (token_hash ∈ spent_tokens bc).

(** [{c: 0 for c in CANDIDATES}] *)
Definition zero_tallies : gmap string Z :=
  foldl (fun t c => <[c := 0]> t) ∅ CANDIDATES.

(** The body of the inner loop of [get_tallies]. *)
Definition count_vote (tallies : gmap string Z) (vote : Vote) : gmap string Z :=
  match tallies !! candidate vote with
  | Some k => <[candidate vote := k + 1]> tallies
  | None => tallies
  end.

Definition get_tallies (bc : Blockchain) : gmap string Z :=
  foldl (fun tallies block => foldl count_vote tallies (votes block))
        zero_tallies (skipn 1 (chain bc)).

Definition get_chain (bc : Blockchain) : list BlockDict := map to_dict (chain bc).

(** [get_block(index)]; [None] is Python's [None]. *)
Definition get_block (i : Z) (bc : Blockchain) : option BlockDict :=
  if (0 <=? i) && (i <? Z.of_nat (List.length (chain bc))) then
    option_map to_dict (chain bc !! Z.to_nat i)
  else None.

Record Stats := mkStats
  { block_count : Z; total_votes : Z; stats_spent_tokens : Z; candidates : list string }.

Definition get_stats (bc : Blockchain) : Stats :=
  let total_votes :=
    foldl (fun acc b => acc + Z.of_nat (List.length (votes b))) 0 (skipn 1 (chain bc)) in
  mkStats (Z.of_nat (List.length (chain bc))) total_votes
          (Z.of_nat (size (spent_tokens bc))) CANDIDATES.

Record VerifyReport := mkVerifyReport
  { valid : bool; report_block_count : Z; message : string }.

Definition verify_chain (bc : Blockchain) : VerifyReport :=
  let valid := is_valid bc in
  mkVerifyReport valid (Z.of_nat (List.length (chain bc)))
    (if valid then "Chain integrity verified" else "Chain integrity FAILED").

End Ledger.

(** ** backend/api.py: the two POST handlers *)

Module Api.
Import BlindSignature Database VoterRegistry Ledger.

(** [not s] for a string *)
Definition is_empty (s : string) : bool :=
  match s with EmptyString => true | String _ _ => false end.

(** The JSON body of a response of [/api/register]. *)
Inductive register_body :=
| RegisterMissingField     (* "voter_id and blinded_token_b64 are required" *)
| RegisterInvalidFormat    (* "Invalid voter_id format" *)
| RegisterResult (result : issue_result).

(** [c.isalnum() or c == "_"] *)
Definition voter_id_char (c : ascii) : bool :=
  PyStr.isalnum c || Ascii.eqb c "_".

(** [api_register]; the arguments are [str(data.get(...))] for the two
    fields, an absent field being the empty string.  Returns the body and
    the status code.  The step from the request body to these two strings
    is [Request.api_register_request]. *)
Definition api_register (voter_id blinded_token_b64 : string) (now : string)
    (db : Db) : Db * (register_body * Z) :=
  let voter_id := PyStr.strip voter_id in
  let blinded_token_b64 := PyStr.strip blinded_token_b64 in
  if is_empty voter_id || is_empty blinded_token_b64 then
    (db, (RegisterMissingField, 400))
  else if negb (PyStr.all voter_id_char voter_id) then
    (db, (RegisterInvalidFormat, 400))
  else
    let '(db, result) := issue_blind_token voter_id blinded_token_b64 now db in
    let status_code := if success result then 200 else 400 in
    (db, (RegisterResult result, status_code)).

(** The JSON body of a response of [/api/vote]. *)
Inductive vote_body :=
| VoteMissingField        (* "token_hex, signature_b64, and candidate are required" *)
| VoteInvalidCandidate    (* "Invalid candidate. Choose from: [...]" *)
| VoteMalformedCredential (* "Malformed credential: ..." *)
| VoteInvalidCredential   (* "Invalid token signature — credential rejected" *)
| VoteResult (result : cast_result)
| VoteServerError.        (* the uncaught exception of the ledger *)

(** The [try] block of [api_vote]: any of the three calls may raise. *)
Definition parse_credential (token_hex sig_b64 : string) (db : Db)
  : option (bytes * Z * PublicKey) :=
  match hex_to_token token_hex with
  | None => None
  | Some token_bytes =>
      match b64_to_int sig_b64 with
      | None => None
      | Some sig_int =>
          match get_public_key db with
          | None => None
          | Some pk => Some (token_bytes, sig_int, pk)
          end
      end
  end.

(** [api_vote], from the three strings [str(data.get(...))] on; [bc] is the
    singleton [get_blockchain()] returns.  [None] when the fuel does not
    suffice for the ledger's mining loop.  The step from the request body
    to the three strings is [Request.api_vote_request]. *)
Definition api_vote (fuel : nat) (token_hex signature_b64 candidate : string)
    (t_vote t_block : string) (db : Db) (bc : Blockchain)
  : option (Blockchain * (vote_body * Z)) :=
  let token_hex := PyStr.strip token_hex in
  let sig_b64 := PyStr.strip signature_b64 in
  let candidate := PyStr.strip candidate in
  if is_empty token_hex || is_empty sig_b64 || is_empty candidate then
    Some (bc, (VoteMissingField, 400))
  else if negb (bool_decide (candidate ∈ CANDIDATES)) then
    Some (bc, (VoteInvalidCandidate, 400))
  else
    match parse_credential token_hex sig_b64 db with
    | None => Some (bc, (VoteMalformedCredential, 400))
    | Some (token_bytes, sig_int, pk) =>
        if negb (verify_signature token_bytes sig_int pk) then
          Some (bc, (VoteInvalidCredential, 403))
        else
          let th := BlindSignature.token_hash token_bytes in
          match cast_vote fuel th candidate (PyStr.prefix 64 sig_b64) t_vote t_block bc with
          | None => None
          | Some (bc, RaisedIndexError) => Some (bc, (VoteServerError, 500))
          | Some (bc, result) =>
              let status_code :=
                match result with Accepted _ _ => 200 | _ => 400 end in
              Some (bc, (VoteResult result, status_code))
          end
    end.

End Api.

(** ** Concrete data used by the examples below *)

Module Examples.
Import BlindSignature Database VoterRegistry Ledger.

(** A small RSA key: [n = 61 * 53], [e = 17], [d = 413]. *)
Definition demo_priv : PrivateKey := mkPrivateKey 3233 17 413 61 53.
Definition demo_pub : PublicKey := publickey demo_priv.

Definition demo_token : bytes := bytes_of_string "ballot-token-0001".

(** A reading of [os.urandom(KEY_SIZE // 8)], given as the integer it
    encodes. *)
Definition urandom (x : Z) : bytes := int_to_bytes (Z.to_nat (KEY_SIZE / 8)) x.

(** The first draw gives [r = 1] and is rejected, the second gives 1000. *)
Definition draws_coprime : list bytes := [urandom 1; urandom 1000].

(** A draw that is a multiple of the prime factor 61. *)
Definition draws_factor : list bytes := [urandom 61].

Definition clock0 : string := "2024-01-01 00:00:00".
Definition clock1 : string := "2024-01-01 00:00:01".

(** The registry of the test-suite: keys, and three eligible voters. *)
Definition registry0 : Db :=
  fst (bootstrap ["VOTER_001"; "VOTER_002"; "VOTER_003"]%string demo_priv clock0 empty_db).

(** A registry seeded with an id outside the class [[A-Za-z0-9_]]. *)
Definition registry_dash : Db :=
  fst (bootstrap ["V-1"]%string demo_priv clock0 empty_db).

(** The base64 text of the blinded value 1234. *)
Definition blinded_b64 : string := int_to_b64 1234.

(** A ledger started without a chain file. *)
Definition genesis_time : string := "1234567890.0".
Definition ledger0 : Blockchain := load_or_init FileAbsent genesis_time.

Definition vote_time : string := "1700000000.5".
Definition block_time : string := "1700000001.95".
Definition block_time' : string := "1700000003.05".

(** A signature that does not verify for [demo_token]. *)
Definition forged_sig : Z := 5.

(** A chain file whose block 1 is consistent but was never mined and
    carries a vote for somebody who is not a candidate. *)
Definition foreign_vote : Vote := mkVote "t9" "Mallory" vote_time "s".

Definition unmined_block : Block :=
  new_block 1 block_time [foreign_vote] (hash (new_block 0 genesis_time [] zero_hash 0)) 0.

Definition foreign_file : ChainFile :=
  FileDoc [to_dict (new_block 0 genesis_time [] zero_hash 0); to_dict unmined_block] {["t9"%string]}.

Definition ledger_foreign : Blockchain := load_or_init foreign_file genesis_time.

(** The ledger after one accepted ballot for the token hash "t1". *)
Definition ledger1 : Blockchain :=
  from_option fst ledger0
    (cast_vote 2 "t1" "Candidate A" "s" vote_time block_time ledger0).

(** The ledger after [cast_vote] is handed the hash of [demo_token] and
    an excerpt of the forged signature. *)
Definition ledger_forged : Blockchain :=
  from_option fst ledger0
    (cast_vote 2 (BlindSignature.token_hash demo_token) "Candidate A"
       (PyStr.prefix 64 (int_to_b64 forged_sig)) vote_time block_time' ledger0).

End Examples.

(** ** The quantities the specification speaks of *)

Module LedgerSpec.
Import Ledger.

(** The vote records in blocks 1 to the end of the chain. *)
Definition vote_records (bc : Blockchain) : list Vote :=
  flat_map votes (skipn 1 (chain bc)).

(** How many of the records choose [c]. *)
Definition votes_for (c : string) (records : list Vote) : Z :=
  Z.of_nat (List.length (List.filter (fun v => String.eqb (candidate v) c) records)).

(** How many of the records choose somebody outside [CANDIDATES]. *)
Definition foreign_votes (records : list Vote) : Z :=
  Z.of_nat (List.length
    (List.filter (fun v => negb (bool_decide (candidate v ∈ CANDIDATES))) records)).

(** [sum(tallies.values())] *)
Definition tallies_sum (tallies : gmap string Z) : Z :=
  map_fold (fun _ k acc => acc + k) 0 tallies.

(** Block [i] of the chain passes both comparisons of [verify_chain]. *)
Definition linked (chain : list Block) (i : nat) : Prop :=
  forall current previous,
    chain !! i = Some current -> chain !! (i - 1)%nat = Some previous ->
    hash current = compute_hash current /\ previous_hash current = hash previous.

(** The block the mining loop looks at when the nonce is [x]. *)
Definition at_nonce (b : Block) (x : Z) : Block :=
  new_block (index b) (timestamp b) (votes b) (previous_hash b) x.

End LedgerSpec.

(** ** Further code of the sources *)

(** *** backend/blind_signature.py: credentials on the wire *)

Module Transport.
Import BlindSignature.

(** [serialize_credential(token, signature_int)]: a dict with two keys. *)
Definition serialize_credential (token : bytes) (signature_int : Z) : gmap string string :=
  <["token"%string := token_to_hex token]>
    (<["signature"%string := int_to_b64 signature_int]> ∅).

(** [deserialize_credential(data)]; [None] is the [KeyError] of a missing
    key or the [ValueError] of a field that does not decode. *)
Definition deserialize_credential (data : gmap string string) : option (bytes * Z) :=
  match data !! "token"%string with
  | None => None
  | Some token_hex =>
      match hex_to_token token_hex with
      | None => None
      | Some token =>
          match data !! "signature"%string with
          | None => None
          | Some sig_b64 =>
              match b64_to_int sig_b64 with
              | None => None
              | Some sig => Some (token, sig)
              end
          end
      end
  end.

(** The characters of [bytes.hex()] and [hexdigest()]. *)
Definition is_lower_hex (c : ascii) : bool :=
  PyStr.in_range 48 57 c || PyStr.in_range 97 102 c.

End Transport.

(** *** blockchain/blockchain.py: the states a ledger runs through *)

Module LedgerRuns.
Import Ledger LedgerSpec.

(** The ledgers reached from [start] by calls of [cast_vote] that return or
    raise; a call that is still mining is not a step. *)
Inductive reaches (start : Blockchain) : Blockchain -> Prop :=
| reaches_start : reaches start start
| reaches_cast (bc : Blockchain) (fuel : nat)
    (token_hash candidate signature_hex t_vote t_block : string)
    (bc' : Blockchain) (result : cast_result) :
    reaches start bc ->
    cast_vote fuel token_hash candidate signature_hex t_vote t_block bc
      = Some (bc', result) ->
    reaches start bc'.

(** Memory and chain file agree, the chain has a first block and passes
    [_is_valid], and no vote is pending. *)
Definition settled (bc : Blockchain) : Prop :=
  chain bc <> [] /\
  is_valid bc = true /\
  pending_votes bc = [] /\
  chain_file bc = FileDoc (map to_dict (chain bc)) (spent_tokens bc).

(** The token hashes of the vote records, in chain order. *)
Definition recorded_tokens (bc : Blockchain) : list string :=
  map token_hash (vote_records bc).

(** The shape of a chain that grew from a genesis block: dense indices, an
    empty genesis block, and from block 1 on one vote for a listed candidate
    under a mined hash. *)
Definition grown_from_genesis (bc : Blockchain) : Prop :=
  (forall i b, chain bc !! i = Some b -> index b = Z.of_nat i) /\
  (exists g, chain bc !! 0%nat = Some g /\ votes g = [] /\
             previous_hash g = zero_hash) /\
  (forall i b, (1 <= i)%nat -> chain bc !! i = Some b ->
     has_pow b = true /\
     exists v, votes b = [v] /\ candidate v ∈ CANDIDATES).

End LedgerRuns.

(** *** A ballot cast through the handler *)

Module Ballots.
Import BlindSignature Ledger Api Examples.

(** The signature of [demo_token] under [demo_priv]:
    [pow(hash_to_int(token, n), d, n)]. *)
Definition genuine_sig : Z := 2027.

Definition ballot_time : string := "1700000032.55".

(** The answer of [/api/vote] to the credential of [demo_token]. *)
Definition ballot_response : option (Blockchain * (vote_body * Z)) :=
  api_vote 2 (token_to_hex demo_token) (int_to_b64 genuine_sig) "Candidate A"
    vote_time ballot_time registry0 ledger0.

Definition ledger_ballot : Blockchain := from_option fst ledger0 ballot_response.

Definition ballot_body : vote_body :=
  from_option (fun r => fst (snd r)) VoteMissingField ballot_response.

End Ballots.

(** *** blockchain/blockchain.py: votes as [json.load] delivers them *)

Module LoadedChain.
Import Ledger.

(** The "candidate" member of a vote read from the chain file.
    [cast_vote] only ever writes a string there, but [json.load] takes any
    JSON value and [from_dict] passes the votes on unchanged.  A value
    that is not a string is given by the text [json.dumps] writes for it. *)
Inductive json_candidate :=
| CandString (s : string)
| CandScalar (dumped : string)     (* a number, [true], [false] or [null]: hashable *)
| CandContainer (dumped : string)  (* an array or an object: a list or dict, unhashable *)
| CandAbsent.                      (* no such member: [vote.get] gives [None] *)

(** A vote dict of a loaded block. *)
Record LoadedVote := mkLoadedVote
  { l_token_hash : string; l_candidate : json_candidate;
    l_vote_timestamp : string; l_signature : string }.

(** A block of the document, after [Block.from_dict]. *)
Record LoadedBlock := mkLoadedBlock
  { l_index : Z; l_timestamp : string; l_votes : list LoadedVote;
    l_previous_hash : string; l_nonce : Z; l_hash : string }.

(** [json.dumps(vote, sort_keys=True)] *)
Definition json_loaded_vote (v : LoadedVote) : string :=
  let others :=
    (json_key "signature" ++ json_string (l_signature v) ++
     ", " ++ json_key "timestamp" ++ l_vote_timestamp v ++
     ", " ++ json_key "token_hash" ++ json_string (l_token_hash v) ++ "}")%string in
  match l_candidate v with
  | CandString s => "{" ++ json_key "candidate" ++ json_string s ++ ", " ++ others
  | CandScalar dumped => "{" ++ json_key "candidate" ++ dumped ++ ", " ++ others
  | CandContainer dumped => "{" ++ json_key "candidate" ++ dumped ++ ", " ++ others
  | CandAbsent => "{" ++ others
  end.

(** [Block._compute_hash] of a loaded block. *)
Definition loaded_compute_hash (b : LoadedBlock) : string :=
  let content :=
    ("{" ++ json_key "index" ++ PyStr.of_int (l_index b) ++
     ", " ++ json_key "nonce" ++ PyStr.of_int (l_nonce b) ++
     ", " ++ json_key "previous_hash" ++ json_string (l_previous_hash b) ++
     ", " ++ json_key "timestamp" ++ l_timestamp b ++
     ", " ++ json_key "votes" ++ "[" ++
     json_join (map json_loaded_vote (l_votes b)) ++ "]}")%string in
  Sha256.hexdigest (bytes_of_string content).

(** The body of the loop of [_is_valid] at index [i]. *)
Definition loaded_block_ok (chain : list LoadedBlock) (i : nat) : bool :=
  match chain !! i, chain !! (i - 1)%nat with
  | Some current, Some previous =>
      if negb (String.eqb (l_hash current) (loaded_compute_hash current)) then false
      else if negb (String.eqb (l_previous_hash current) (l_hash previous)) then false
      else true
  | _, _ => true
  end.

(** [_is_valid] *)
Definition loaded_is_valid (chain : list LoadedBlock) : bool :=
  forallb (loaded_block_ok chain) (seq 1 (List.length chain - 1)).

(** The chain [_load_or_init] leaves in [self.chain] for a document with
    the blocks [data]: the loaded one when it is valid, a fresh genesis
    block otherwise. *)
Definition loaded_chain (data : list LoadedBlock) (now : string) : list LoadedBlock :=
  if negb (loaded_is_valid data) then
    [mkLoadedBlock 0 now [] zero_hash 0 (compute_hash_of 0 now [] zero_hash 0)]
  else data.

(** The body of the inner loop of [get_tallies]:
    [candidate = vote.get("candidate")], then [if candidate in tallies].
    [None] is the [TypeError] of hashing a list or a dict. *)
Definition count_loaded_vote (tallies : gmap string Z) (vote : LoadedVote)
  : option (gmap string Z) :=
  match l_candidate vote with
  | CandString c =>
      match tallies !! c with
      | Some k => Some (<[c := k + 1]> tallies)
      | None => Some tallies
      end
  | CandScalar _ => Some tallies
  | CandAbsent => Some tallies
  | CandContainer _ => None
  end.

Fixpoint count_loaded_votes (tallies : gmap string Z) (votes : list LoadedVote)
  : option (gmap string Z) :=
  match votes with
  | [] => Some tallies
  | vote :: rest =>
      match count_loaded_vote tallies vote with
      | Some tallies' => count_loaded_votes tallies' rest
      | None => None
      end
  end.

Fixpoint count_loaded_blocks (tallies : gmap string Z) (blocks : list LoadedBlock)
  : option (gmap string Z) :=
  match blocks with
  | [] => Some tallies
  | block :: rest =>
      match count_loaded_votes tallies (l_votes block) with
      | Some tallies' => count_loaded_blocks tallies' rest
      | None => None
      end
  end.

(** [get_tallies] on a loaded chain; [None] is the [TypeError]. *)
Definition loaded_get_tallies (chain : list LoadedBlock) : option (gmap string Z) :=
  count_loaded_blocks zero_tallies (skipn 1 chain).

(** [get_stats()["total_votes"]] on a loaded chain. *)
Definition loaded_total_votes (chain : list LoadedBlock) : Z :=
  foldl (fun acc b => acc + Z.of_nat (List.length (l_votes b))) 0 (skipn 1 chain).

(** The votes and blocks of [Ledger] are the loaded ones whose candidates
    are strings. *)
Definition of_vote (v : Vote) : LoadedVote :=
  mkLoadedVote (token_hash v) (CandString (candidate v)) (vote_timestamp v) (signature v).

Definition of_block (b : Block) : LoadedBlock :=
  mkLoadedBlock (index b) (timestamp b) (map of_vote (votes b)) (previous_hash b)
                (nonce b) (hash b).

(** The vote records in blocks 1 to the end of a loaded chain. *)
Definition loaded_records (chain : list LoadedBlock) : list LoadedVote :=
  flat_map l_votes (skipn 1 chain).

(** [candidate in tallies] can be evaluated. *)
Definition hashable (c : json_candidate) : bool :=
  match c with CandContainer _ => false | _ => true end.

(** The candidate is the string [c]. *)
Definition chooses (c : string) (v : LoadedVote) : bool :=
  match l_candidate v with CandString s => String.eqb s c | _ => false end.

(** The candidate is one of [CANDIDATES]. *)
Definition listed (v : LoadedVote) : bool :=
  match l_candidate v with
  | CandString s => bool_decide (s ∈ CANDIDATES)
  | _ => false
  end.

Definition loaded_votes_for (c : string) (records : list LoadedVote) : Z :=
  Z.of_nat (List.length (List.filter (chooses c) records)).

Definition loaded_foreign_votes (records : list LoadedVote) : Z :=
  Z.of_nat (List.length (List.filter (fun v => negb (listed v)) records)).

End LoadedChain.

Module LoadedExamples.
Import Ledger LoadedChain Examples.

(** A vote whose candidate is the empty JSON array. *)
Definition array_vote : LoadedVote :=
  mkLoadedVote "t9" (CandContainer "[]") vote_time "s".

(** A chain file holding that vote in a block whose hash is the hash of
    its fields. *)
Definition array_block : LoadedBlock :=
  let g := new_block 0 genesis_time [] zero_hash 0 in
  let b := mkLoadedBlock 1 block_time [array_vote] (hash g) 0 EmptyString in
  mkLoadedBlock 1 block_time [array_vote] (hash g) 0 (loaded_compute_hash b).

Definition array_file : list LoadedBlock :=
  [of_block (new_block 0 genesis_time [] zero_hash 0); array_block].

(** A vote whose candidate is [null], in such a block. *)
Definition null_vote : LoadedVote :=
  mkLoadedVote "t8" (CandScalar "null") vote_time "s".

Definition null_file : list LoadedBlock :=
  let g := new_block 0 genesis_time [] zero_hash 0 in
  let b := mkLoadedBlock 1 block_time [null_vote; of_vote foreign_vote] (hash g) 0
             EmptyString in
  [of_block g;
   mkLoadedBlock 1 block_time [null_vote; of_vote foreign_vote] (hash g) 0
     (loaded_compute_hash b)].

End LoadedExamples.

(** *** backend/api.py: the request bodies *)

Module Request.
Import Database VoterRegistry Ledger Api.

(** A member of the JSON object of a request.  The handlers pass every
    member through [str()]; for a value that is not a string the text
    [str()] gives is carried along. *)
Inductive json_member :=
| MemberString (s : string)
| MemberOther (str_text : string).

(** What [request.get_json(silent=True)] returns. *)
Inductive json_body :=
| BodyObject (members : gmap string json_member)  (* a JSON object *)
| BodyFalsy    (* [None] (no or malformed JSON), [null], [false], [0], [""] or [[]] *)
| BodyTruthy.  (* a non-empty array or string, a non-zero number or [true] *)

(** [data = request.get_json(silent=True) or {}], as far as [data.get] can
    be called on it: [None] stands for a value without [get], on which the
    first [data.get] raises [AttributeError]. *)
Definition request_data (body : json_body) : option (gmap string json_member) :=
  match body with
  | BodyObject members => Some members
  | BodyFalsy => Some ∅
  | BodyTruthy => None
  end.

(** [str(data.get(key, ""))] *)
Definition str_field (data : gmap string json_member) (key : string) : string :=
  match data !! key with
  | Some (MemberString s) => s
  | Some (MemberOther str_text) => str_text
  | None => EmptyString
  end.

(** [api_register] from the request body on.  No handler catches the
    [AttributeError], so Flask answers 500, here with the body [None]. *)
Definition api_register_request (body : json_body) (now : string) (db : Db)
  : Db * (option register_body * Z) :=
  match request_data body with
  | None => (db, (None, 500))
  | Some data =>
      let '(db, (reply, status_code)) :=
        api_register (str_field data "voter_id") (str_field data "blinded_token_b64")
                     now db in
      (db, (Some reply, status_code))
  end.

(** [api_vote] from the request body on. *)
Definition api_vote_request (fuel : nat) (body : json_body) (t_vote t_block : string)
    (db : Db) (bc : Blockchain) : option (Blockchain * (vote_body * Z)) :=
  match request_data body with
  | None => Some (bc, (VoteServerError, 500))
  | Some data =>
      api_vote fuel (str_field data "token_hex") (str_field data "signature_b64")
               (str_field data "candidate") t_vote t_block db bc
  end.

End Request.

(** * Properties *)

(** ** SHA-256 test vectors *)

Example sha256_abc :
  Sha256.hexdigest (bytes_of_string "abc")
  = "ba7816bf8f01cfea414140de5dae2223b00361a396177a9cb410ff61f20015ad"%string.
Proof. vm_compute. reflexivity. Qed.

Example sha256_empty :
  Sha256.hexdigest []
  = "e3b0c44298fc1c149afbf4c8996fb92427ae41e4649b934ca495991b7852b855"%string.
Proof. vm_compute. reflexivity. Qed.

Example sha256_two_blocks :
  Sha256.hexdigest
    (bytes_of_string "abcdbcdecdefdefgefghfghighijhijkijkljklmklmnlmnomnopnopq")
  = "248d6a61d20638b8e5c026930c3e6039a33ce45964ff2167f6ecedd419db06c1"%string.
Proof. vm_compute. reflexivity. Qed.

(** ** Big-endian integers *)

Lemma byte_to_Z_range (b : byte) : 0 <= byte_to_Z b < 256.
Proof.
  unfold byte_to_Z. pose proof (Byte.to_N_bounded b). lia.
Qed.

Lemma byte_to_of_Z (z : Z) : 0 <= z < 256 -> byte_to_Z (byte_of_Z z) = z.
Proof.
  intros Hz. unfold byte_to_Z, byte_of_Z.
  destruct (Byte.of_N (Z.to_N z)) as [b|] eqn:E.
  - apply Byte.to_of_N in E. rewrite E. lia.
  - apply Byte.of_N_None_iff in E. lia.
Qed.

Lemma int_from_bytes_snoc (bs : bytes) (b : byte) :
  int_from_bytes (bs ++ [b]) = int_from_bytes bs * 256 + byte_to_Z b.
Proof.
  unfold int_from_bytes. rewrite fold_left_app. reflexivity.
Qed.

Lemma int_from_bytes_nonneg (bs : bytes) : 0 <= int_from_bytes bs.
Proof.
  induction bs as [|b bs IH] using rev_ind.
  - reflexivity.
  - rewrite int_from_bytes_snoc. pose proof (byte_to_Z_range b). lia.
Qed.

(** [int.from_bytes(x.to_bytes(len, "big"), "big") == x] *)
Lemma int_from_to_bytes (len : nat) : forall x,
  0 <= x < 256 ^ Z.of_nat len -> int_from_bytes (int_to_bytes len x) = x.
Proof.
  induction len as [|len IH]; intros x Hx.
  - simpl in *. change (int_from_bytes []) with 0. lia.
  - cbn [int_to_bytes]. rewrite int_from_bytes_snoc.
    rewrite Nat2Z.inj_succ, Z.pow_succ_r in Hx by lia.
    rewrite IH.
    + rewrite byte_to_of_Z by (apply Z.mod_pos_bound; lia).
      pose proof (Z.div_mod x 256). lia.
    + split.
      * apply Z.div_pos; lia.
      * apply Z.div_lt_upper_bound; lia.
Qed.

Lemma byte_length_bound (x : Z) : 0 <= x -> x < 256 ^ Z.of_nat (byte_length x).
Proof.
  intros Hx. unfold byte_length, bit_length.
  destruct (Z.eqb_spec x 0) as [->|Hne].
  - reflexivity.
  - assert (Hpos : 0 < x) by lia.
    pose proof (Z.log2_nonneg x) as Hl.
    destruct (Z.log2_spec x Hpos) as [_ Hup].
    set (k := (Z.log2 x + 1 + 7) / 8).
    assert (Hk : Z.log2 x + 1 <= 8 * k).
    { unfold k. pose proof (Z.div_mod (Z.log2 x + 1 + 7) 8).
      pose proof (Z.mod_pos_bound (Z.log2 x + 1 + 7) 8). lia. }
    assert (Hk0 : 0 <= k) by (unfold k; apply Z.div_pos; lia).
    rewrite Z2Nat.id by exact Hk0.
    replace 256 with (2 ^ 8) by reflexivity.
    rewrite <- Z.pow_mul_r by lia.
    eapply Z.lt_le_trans; [|apply Z.pow_le_mono_r with (b := Z.succ (Z.log2 x)); lia].
    exact Hup.
Qed.

(** The minimal big-endian encoding is read back unchanged. *)
Lemma int_bytes_roundtrip (x : Z) :
  0 <= x -> int_from_bytes (int_to_bytes (byte_length x) x) = x.
Proof.
  intros Hx. apply int_from_to_bytes. split; [exact Hx|]. now apply byte_length_bound.
Qed.

(** ** RSA arithmetic *)

Section RSA.
Import BlindSignature.

(** Fermat's little theorem, raised to an exponent [1 + k (p - 1)]. *)
Lemma pow_fermat_exponent (p m k : Z) :
  Z.prime p -> 0 <= k -> (m ^ (1 + k * (p - 1))) mod p = m mod p.
Proof.
  intros Hp Hk. pose proof (Z.prime_ge_2 p Hp) as Hp2.
  destruct (Z.eq_dec (m mod p) 0) as [Hz|Hnz].
  - rewrite <- Z.mod_pow_l, Hz.
    rewrite Z.pow_0_l by nia. reflexivity.
  - rewrite Z.pow_add_r, Z.pow_1_r by nia.
    rewrite Z.mul_comm with (n := k), Z.pow_mul_r by lia.
    rewrite <- Z.mul_mod_idemp_r by lia.
    rewrite <- Z.mod_pow_l.
    rewrite (Z.fermat_nz p m Hp Hnz).
    rewrite Z.pow_1_l by lia.
    rewrite Z.mul_mod_idemp_r by lia.
    now rewrite Z.mul_1_r.
Qed.

(** An exponent that is 1 modulo [p - 1] leaves every residue modulo the
    prime [p] fixed. *)
Lemma pow_exponent_mod_prime (p m x : Z) :
  Z.prime p -> 0 < x -> (p - 1 | x - 1) -> (m ^ x) mod p = m mod p.
Proof.
  intros Hp Hx [k Hk]. pose proof (Z.prime_ge_2 p Hp) as Hp2.
  replace x with (1 + k * (p - 1)) by lia.
  apply pow_fermat_exponent; [exact Hp|]. nia.
Qed.

Lemma distinct_primes_coprime (p q : Z) :
  Z.prime p -> Z.prime q -> p <> q -> Z.gcd p q = 1.
Proof.
  intros Hp Hq Hne. apply Z.coprime_prime_l; [exact Hp|].
  intros Hd. apply (Z.divide_prime_prime p q Hp Hq) in Hd. contradiction.
Qed.

(** A private exponent that inverts [e] modulo [(p - 1) (q - 1)], as in the
    data model of the specification, also inverts it modulo the least common
    multiple that [wf_private_key] asks for. *)
Lemma wf_private_key_totient (k : PrivateKey) :
  Z.prime (priv_p k) -> Z.prime (priv_q k) -> priv_p k <> priv_q k ->
  priv_n k = priv_p k * priv_q k ->
  0 < priv_e k -> 0 < priv_d k ->
  (priv_e k * priv_d k) mod ((priv_p k - 1) * (priv_q k - 1)) = 1 ->
  wf_private_key k.
Proof.
  intros Hp Hq Hne Hn He Hd Hphi.
  refine (conj Hp (conj Hq (conj Hne (conj Hn (conj He (conj Hd _)))))).
  pose proof (Z.prime_ge_2 _ Hp) as Hp2. pose proof (Z.prime_ge_2 _ Hq) as Hq2.
  set (L := Z.lcm (priv_p k - 1) (priv_q k - 1)).
  assert (HL0 : 0 <= L) by apply Z.lcm_nonneg.
  assert (HLp : (priv_p k - 1 | L)) by apply Z.divide_lcm_l.
  assert (HLq : (priv_q k - 1 | L)) by apply Z.divide_lcm_r.
  assert (HL1 : 1 < L).
  { destruct (Z.eq_dec L 0) as [H0|H0].
    - apply Z.lcm_eq_0 in H0. lia.
    - destruct (Z.eq_dec L 1) as [H1|H1]; [|lia].
      rewrite H1 in HLp, HLq.
      apply Z.divide_1_r_nonneg in HLp; [|lia].
      apply Z.divide_1_r_nonneg in HLq; [|lia]. lia. }
  assert (Hdiv : (L | (priv_p k - 1) * (priv_q k - 1))).
  { apply Z.lcm_least; [apply Z.divide_factor_l|apply Z.divide_factor_r]. }
  rewrite <- (Z.mod_mod_divide _ _ _ Hdiv), Hphi.
  apply Z.mod_small. lia.
Qed.

Variable key : PrivateKey.
Hypothesis Hkey : wf_private_key key.

Let n := priv_n key.
Let e := priv_e key.
Let d := priv_d key.

Lemma modulus_gt_1 : 1 < n.
Proof.
  destruct Hkey as (Hp & Hq & _ & Hn & _). subst n. rewrite Hn.
  pose proof (Z.prime_ge_2 _ Hp). pose proof (Z.prime_ge_2 _ Hq). nia.
Qed.

Lemma exponent_pos : 0 < e * d.
Proof. destruct Hkey as (_ & _ & _ & _ & He & Hd & _). subst e d. nia. Qed.

Lemma exponent_mod_factor (p : Z) :
  (p - 1 | Z.lcm (priv_p key - 1) (priv_q key - 1)) -> (p - 1 | e * d - 1).
Proof.
  intros Hdiv. destruct Hkey as (_ & _ & _ & _ & _ & _ & Hed).
  fold e d in Hed.
  set (L := Z.lcm (priv_p key - 1) (priv_q key - 1)) in *.
  pose proof (Z.div_mod (e * d) L) as Hdm.
  destruct (Z.eq_dec L 0) as [HL|HL].
  - rewrite HL in Hed. rewrite Z.mod_0_r in Hed.
    rewrite HL in Hdiv. rewrite Hed. replace (1 - 1) with 0 by lia.
    apply Z.divide_0_r.
  - specialize (Hdm HL). rewrite Hed in Hdm.
    replace (e * d - 1) with (L * (e * d / L)) by lia.
    now apply Z.divide_mul_l.
Qed.

(** Decryption undoes encryption on every residue, invertible or not. *)
Lemma rsa_correct (m : Z) : (m ^ (e * d)) mod n = m mod n.
Proof.
  pose proof exponent_pos as Hed.
  pose proof modulus_gt_1 as Hn1.
  destruct Hkey as (Hp & Hq & Hne & Hn & _).
  assert (Hmp : (m ^ (e * d)) mod priv_p key = m mod priv_p key).
  { apply pow_exponent_mod_prime; [exact Hp|exact Hed|].
    apply exponent_mod_factor, Z.divide_lcm_l. }
  assert (Hmq : (m ^ (e * d)) mod priv_q key = m mod priv_q key).
  { apply pow_exponent_mod_prime; [exact Hq|exact Hed|].
    apply exponent_mod_factor, Z.divide_lcm_r. }
  pose proof (Z.prime_ge_2 _ Hp). pose proof (Z.prime_ge_2 _ Hq).
  apply Z.cong_iff_0 in Hmp. apply Z.cong_iff_0 in Hmq.
  apply Z.mod_divide in Hmp; [|lia]. apply Z.mod_divide in Hmq; [|lia].
  apply Z.cong_iff_0. apply Z.mod_divide; [lia|].
  subst n. rewrite Hn.
  destruct Hmp as [t Ht]. rewrite Ht in Hmq |- *.
  rewrite Z.mul_comm in Hmq. apply Z.gauss in Hmq.
  - destruct Hmq as [s Hs]. exists s. rewrite Hs. ring.
  - rewrite Z.gcd_comm. now apply distinct_primes_coprime.
Qed.

End RSA.

(** ** The blind-signature protocol *)

Section BlindProtocol.
Import BlindSignature.

(** Trial division, to recognise the primes of the examples. *)
Lemma prime_by_trial (p : Z) :
  1 < p ->
  forallb (fun k => negb (p mod Z.of_nat k =? 0)) (seq 2 (Z.to_nat p - 2)) = true ->
  Z.prime p.
Proof.
  intros Hp Hall. split; [exact Hp|].
  intros k Hk Hdiv.
  rewrite forallb_forall in Hall.
  specialize (Hall (Z.to_nat k)).
  rewrite Z2Nat.id in Hall by lia.
  assert (Hin : In (Z.to_nat k) (seq 2 (Z.to_nat p - 2))) by (apply in_seq; lia).
  specialize (Hall Hin).
  apply Z.mod_divide in Hdiv; [|lia].
  rewrite Hdiv in Hall. discriminate.
Qed.

(** The loop of [blind_token] ends at the first draw above 1, and what it
    returns lies strictly between 1 and [n]. *)
Lemma draw_blinding_factor_total (n : Z) (draws : list bytes) :
  1 < n ->
  (exists d, In d draws /\ 1 < int_from_bytes d mod n) ->
  exists r, draw_blinding_factor n draws = Some r /\ 1 < r < n.
Proof.
  intros Hn. induction draws as [|d0 rest IH]; intros (d & Hin & Hd).
  - destruct Hin.
  - cbn [draw_blinding_factor].
    set (r0 := int_from_bytes d0 mod n).
    assert (Hr0 : 0 <= r0 < n) by (apply Z.mod_pos_bound; lia).
    destruct (Z.ltb_spec 1 r0) as [Hlt|Hge].
    + unfold pow_mod. rewrite Z.pow_1_r. rewrite Z.mod_small by lia.
      destruct (Z.eqb_spec r0 0) as [H0|H0]; [lia|].
      cbn. exists r0. split; [reflexivity|lia].
    + cbn [andb]. apply IH. destruct Hin as [->|Hin].
      * fold r0 in Hd. lia.
      * exists d. split; assumption.
Qed.

Variables (priv : PrivateKey) (pub : PublicKey).
Hypothesis Hpair : rsa_keypair priv pub.

Let n := pub_n pub.
Let e := pub_e pub.
Let d := priv_d priv.

Lemma pub_is_publickey : pub_n pub = priv_n priv /\ pub_e pub = priv_e priv.
Proof. destruct Hpair as [_ ->]. split; reflexivity. Qed.

Lemma pub_modulus_gt_1 : 1 < n.
Proof.
  destruct Hpair as [Hwf _]. destruct pub_is_publickey as [Hn _].
  subst n. rewrite Hn. now apply modulus_gt_1.
Qed.

(** Raising the unblinded signature to [e] gives back the hashed token. *)
Lemma unblinded_power (m r : Z) :
  0 <= m < n -> Z.gcd r n = 1 ->
  let blinded := (m * pow_mod r e n) mod n in
  let blind_sig := pow_mod blinded d n in
  pow_mod ((blind_sig * Z.invmod r n) mod n) e n = m.
Proof.
  intros Hm Hr blinded blind_sig.
  pose proof pub_modulus_gt_1 as Hn1.
  destruct Hpair as [Hwf _]. destruct pub_is_publickey as [Hn He].
  assert (Hrsa : forall x, (x ^ (e * d)) mod n = x mod n).
  { intros x. subst n e d. rewrite Hn, He. now apply rsa_correct. }
  assert (He0 : 0 < e).
  { subst e. rewrite He. destruct Hwf as (_ & _ & _ & _ & H & _). exact H. }
  assert (Hd0 : 0 < d).
  { subst d. destruct Hwf as (_ & _ & _ & _ & _ & H & _). exact H. }
  assert (Hinv : (Z.invmod r n * r) mod n = 1) by (apply Z.invmod_coprime; [lia|exact Hr]).
  unfold pow_mod in *. subst blind_sig.
  rewrite Z.mod_pow_l, Z.pow_mul_l.
  rewrite <- Z.mul_mod_idemp_l by lia.
  rewrite Z.mod_pow_l, <- Z.pow_mul_r by lia.
  rewrite (Z.mul_comm d e), Hrsa.
  rewrite Z.mul_mod_idemp_l by lia.
  subst blinded.
  rewrite Z.mul_mod_idemp_l by lia.
  rewrite <- Z.mul_assoc, <- Z.mul_mod_idemp_r by lia.
  rewrite Z.mul_mod_idemp_l by lia.
  rewrite <- Z.pow_mul_l, <- Z.mod_pow_l.
  rewrite (Z.mul_comm r), Hinv, Z.pow_1_l by lia.
  rewrite Z.mul_mod_idemp_r by lia.
  rewrite Z.mul_1_r. apply Z.mod_small. exact Hm.
Qed.

(** Blind, sign, unblind, verify, for a blinding factor coprime to [n]. *)
Lemma protocol_verifies (token : bytes) (r : Z) :
  Z.gcd r n = 1 ->
  let blinded := (hash_to_int token n * pow_mod r e n) mod n in
  exists sig,
    unblind_signature (blind_sign (int_to_bytes (byte_length blinded) blinded) priv) r pub
      = Some sig /\
    verify_signature token sig pub = true.
Proof.
  intros Hr blinded.
  pose proof pub_modulus_gt_1 as Hn1.
  destruct pub_is_publickey as [Hn He].
  assert (Hb : 0 <= blinded < n) by (apply Z.mod_pos_bound; lia).
  assert (Hm : 0 <= hash_to_int token n < n) by (apply Z.mod_pos_bound; lia).
  unfold unblind_signature, mod_inverse, blind_sign. fold n.
  rewrite int_bytes_roundtrip by lia.
  rewrite Hr. cbn [Z.eqb Pos.eqb].
  eexists. split; [reflexivity|].
  unfold verify_signature. fold n e.
  apply Z.eqb_eq.
  rewrite <- Hn. fold n. fold d.
  now apply unblinded_power.
Qed.

End BlindProtocol.

Lemma demo_keypair :
  BlindSignature.rsa_keypair Examples.demo_priv Examples.demo_pub.
Proof.
  split; [|reflexivity].
  repeat split; try (cbn; lia); try reflexivity.
  - apply prime_by_trial; [cbn; lia|vm_compute; reflexivity].
  - apply prime_by_trial; [cbn; lia|vm_compute; reflexivity].
Qed.

(** C1 (as amended).  For every RSA keypair, every token and every sequence
    of random draws that contains a value above 1 modulo [n], [blind_token]
    returns a blinded message and a blinding factor [r] with [1 < r < n];
    whenever that [r] is coprime to [n], unblinding the issuer's signature of
    the blinded message yields a signature that [verify_signature] accepts. *)
Theorem blind_signature_law
    (priv : BlindSignature.PrivateKey) (pub : BlindSignature.PublicKey)
    (token : bytes) (draws : list bytes) :
  BlindSignature.rsa_keypair priv pub ->
  (exists d, In d draws /\ 1 < int_from_bytes d mod BlindSignature.pub_n pub) ->
  exists blinded r,
    BlindSignature.blind_token token pub draws = Some (blinded, r) /\
    1 < r < BlindSignature.pub_n pub /\
    (Z.gcd r (BlindSignature.pub_n pub) = 1 ->
     BlindSignature.blind_protocol token priv pub draws = Some true).
Proof.
  intros Hpair Hdraw.
  pose proof (pub_modulus_gt_1 priv pub Hpair) as Hn1.
  destruct (draw_blinding_factor_total _ draws Hn1 Hdraw) as (r & Hr & Hrange).
  unfold BlindSignature.blind_protocol, BlindSignature.blind_token.
  rewrite Hr.
  eexists _, r. split; [reflexivity|]. split; [exact Hrange|].
  intros Hco.
  destruct (protocol_verifies priv pub Hpair token r Hco) as (sig & Hun & Hver).
  cbv zeta in Hun. rewrite Hun, Hver. reflexivity.
Qed.

Lemma blind_signature_law_witness :
  exists blinded r,
    BlindSignature.blind_token Examples.demo_token Examples.demo_pub Examples.draws_coprime
      = Some (blinded, r) /\
    1 < r < BlindSignature.pub_n Examples.demo_pub /\
    (Z.gcd r (BlindSignature.pub_n Examples.demo_pub) = 1 ->
     BlindSignature.blind_protocol Examples.demo_token Examples.demo_priv Examples.demo_pub
       Examples.draws_coprime = Some true).
Proof.
  apply (blind_signature_law Examples.demo_priv Examples.demo_pub
           Examples.demo_token Examples.draws_coprime).
  - exact demo_keypair.
  - exists (Examples.urandom 1000). split.
    + right. left. reflexivity.
    + vm_compute. reflexivity.
Defined.

(** C1 (as stated) fails: with the key [n = 61 * 53] and a random draw equal
    to the factor 61, [blind_token] accepts the draw, [unblind_signature]
    has no inverse of 61 to compute and raises, and the composition returns
    nothing. *)
Lemma blind_protocol_factor_draw :
  BlindSignature.rsa_keypair Examples.demo_priv Examples.demo_pub /\
  (exists blinded,
     BlindSignature.blind_token Examples.demo_token Examples.demo_pub Examples.draws_factor
       = Some (blinded, 61) /\
     BlindSignature.unblind_signature
       (BlindSignature.blind_sign blinded Examples.demo_priv) 61 Examples.demo_pub = None) /\
  BlindSignature.blind_protocol Examples.demo_token Examples.demo_priv Examples.demo_pub
    Examples.draws_factor = None.
Proof.
  split; [exact demo_keypair|].
  split; [eexists; split|]; vm_compute; reflexivity.
Qed.

(** ** The voter registry *)

Section Registry.
Import BlindSignature Database VoterRegistry.

Lemma seed_eligible_voters_spec (ids : list string) (db : Db) :
  voters (seed_eligible_voters ids db) = voters db /\
  issuer_keys (seed_eligible_voters ids db) = issuer_keys db /\
  eligible_voters db ⊆ eligible_voters (seed_eligible_voters ids db).
Proof.
  unfold seed_eligible_voters. cbn. repeat split.
  generalize (eligible_voters db) as s.
  induction ids as [|i ids IH]; intros s; cbn.
  - reflexivity.
  - etransitivity; [|apply IH]. set_solver.
Qed.

Lemma register_voter_issued (vid now : string) (db : Db) :
  has_token_issued vid (register_voter vid now db) = true.
Proof.
  unfold register_voter, has_token_issued.
  destruct (voters db !! vid) as [row|] eqn:E.
  - destruct (Z.eqb_spec (token_issued row) 0) as [H0|H0].
    + cbn. now rewrite lookup_insert_eq.
    + rewrite E. now apply negb_true_iff, Z.eqb_neq.
  - cbn. now rewrite lookup_insert_eq.
Qed.

Lemma register_voter_other (vid v now : string) (db : Db) :
  v <> vid -> voters (register_voter vid now db) !! v = voters db !! v.
Proof.
  intros Hne. unfold register_voter.
  destruct (voters db !! vid) as [row|]; [destruct (token_issued row =? 0)|];
    cbn; try reflexivity; now rewrite lookup_insert_ne.
Qed.

Lemma register_voter_frame (vid now : string) (db : Db) :
  issuer_keys (register_voter vid now db) = issuer_keys db /\
  eligible_voters (register_voter vid now db) = eligible_voters db.
Proof.
  unfold register_voter.
  destruct (voters db !! vid) as [row|]; [destruct (token_issued row =? 0)|];
    split; reflexivity.
Qed.

(** [register_voter] never clears a flag that is set. *)
Lemma register_voter_monotone (vid v now : string) (db : Db) :
  has_token_issued v db = true -> has_token_issued v (register_voter vid now db) = true.
Proof.
  intros H. destruct (decide (v = vid)) as [->|Hne].
  - apply register_voter_issued.
  - unfold has_token_issued in *. now rewrite register_voter_other.
Qed.

(** What [issue_blind_token] does to the store: nothing, or one
    [register_voter]. *)
Lemma issue_blind_token_store (vid b now : string) (db : Db) :
  fst (issue_blind_token vid b now db) = db \/
  fst (issue_blind_token vid b now db) = register_voter vid now db.
Proof.
  unfold issue_blind_token.
  destruct (is_eligible vid db); cbn; [|now left].
  destruct (has_token_issued vid db); cbn; [now left|].
  destruct (get_issuer_keys db) as [[priv pub]|]; [|now left].
  destruct (Codec.b64decode b); [now right|now left].
Qed.

Lemma bootstrap_store (ids : list string) (fresh : PrivateKey) (now : string) (db : Db) :
  voters (fst (bootstrap ids fresh now db)) = voters db /\
  is_Some (issuer_keys (fst (bootstrap ids fresh now db))) /\
  eligible_voters db ⊆ eligible_voters (fst (bootstrap ids fresh now db)).
Proof.
  unfold bootstrap, init_db, get_issuer_keys, generate_keypair, store_issuer_keys.
  destruct (issuer_keys db) as [row|] eqn:E; destruct ids as [|i ids];
    cbn -[seed_eligible_voters].
  - rewrite E. eauto.
  - destruct (seed_eligible_voters_spec (i :: ids) db) as (-> & -> & Hsub).
    rewrite E. eauto.
  - eauto.
  - match goal with
    | |- context [seed_eligible_voters ?l ?d] =>
        destruct (seed_eligible_voters_spec l d) as (-> & -> & Hsub)
    end.
    cbn. eauto.
Qed.

(** No operation on the store turns a set [token_issued] flag off. *)
Lemma token_issued_monotone (o : op) (v : string) (db : Db) :
  has_token_issued v db = true -> has_token_issued v (run_op o db) = true.
Proof.
  intros H. destruct o as [ids fresh now| |vid b now|vid| |ids|vid now|priv pub now];
    cbn [run_op]; try exact H.
  - unfold has_token_issued in *.
    now rewrite (proj1 (bootstrap_store ids fresh now db)).
  - destruct (issue_blind_token_store vid b now db) as [->| ->];
      [exact H|now apply register_voter_monotone].
  - now apply register_voter_monotone.
Qed.

(** The eligible set only grows. *)
Lemma eligible_monotone (o : op) (v : string) (db : Db) :
  is_eligible v db = true -> is_eligible v (run_op o db) = true.
Proof.
  unfold is_eligible. rewrite !bool_decide_eq_true. intros H.
  destruct o as [ids fresh now| |vid b now|vid| |ids|vid now|priv pub now];
    cbn [run_op]; try exact H.
  - now apply (proj2 (proj2 (bootstrap_store ids fresh now db))).
  - destruct (issue_blind_token_store vid b now db) as [->| ->]; [exact H|].
    now rewrite (proj2 (register_voter_frame vid now db)).
  - now apply (proj2 (proj2 (seed_eligible_voters_spec ids db))).
  - now rewrite (proj2 (register_voter_frame vid now db)).
Qed.

Lemma run_ops_snoc (ops : list op) (o : op) (db : Db) :
  run_ops (ops ++ [o]) db = run_op o (run_ops ops db).
Proof. unfold run_ops. now rewrite foldl_snoc. Qed.

Lemma run_ops_monotone (ops : list op) (v : string) (db : Db) :
  is_eligible v db = true -> has_token_issued v db = true ->
  is_eligible v (run_ops ops db) = true /\ has_token_issued v (run_ops ops db) = true.
Proof.
  intros He Hi. induction ops as [|o ops IH] using rev_ind.
  - split; assumption.
  - rewrite run_ops_snoc. destruct IH as [IH1 IH2].
    split; [now apply eligible_monotone|now apply token_issued_monotone].
Qed.

(** Through the entry points of the registry module, voters become
    eligible only once the issuer keys are stored. *)
Lemma keys_before_voters (ops : list op) :
  forallb registry_level ops = true ->
  eligible_voters (run_ops ops empty_db) = ∅ \/
  is_Some (issuer_keys (run_ops ops empty_db)).
Proof.
  induction ops as [|o ops IH] using rev_ind; intros Hall.
  - now left.
  - rewrite forallb_app in Hall. apply andb_true_iff in Hall as [Hops Ho].
    cbn in Ho. rewrite andb_true_r in Ho.
    rewrite run_ops_snoc. specialize (IH Hops).
    destruct o as [ids fresh now| |vid b now|vid| |ids|vid now|priv pub now];
      cbn [run_op]; try exact IH; try discriminate Ho.
    + right. apply bootstrap_store.
    + destruct (issue_blind_token_store vid b now
                  (run_ops ops empty_db)) as [->| ->]; [exact IH|].
      destruct (register_voter_frame vid now (run_ops ops empty_db)) as [-> ->].
      exact IH.
Qed.

(** Without an earlier [issue_blind_token] call for [vid], it has no row. *)
Lemma no_row_before_first_call (vid : string) (ops : list op) :
  forallb registry_level ops = true ->
  forallb (fun o => negb (issues_for vid o)) ops = true ->
  voters (run_ops ops empty_db) !! vid = None.
Proof.
  induction ops as [|o ops IH] using rev_ind; intros Hall Hfirst.
  - apply lookup_empty.
  - rewrite forallb_app in Hall, Hfirst.
    apply andb_true_iff in Hall as [Hops Ho].
    apply andb_true_iff in Hfirst as [Hf Hfo].
    cbn in Ho, Hfo. rewrite andb_true_r in Ho, Hfo.
    rewrite run_ops_snoc. specialize (IH Hops Hf).
    destruct o as [ids fresh now| |vid' b now|vid'| |ids|vid' now|priv pub now];
      cbn [run_op]; try exact IH; try discriminate Ho.
    + now rewrite (proj1 (bootstrap_store ids fresh now _)).
    + cbn in Hfo. apply negb_true_iff, String.eqb_neq in Hfo.
      destruct (issue_blind_token_store vid' b now
                  (run_ops ops empty_db)) as [->| ->]; [exact IH|].
      rewrite register_voter_other by congruence. exact IH.
Qed.

End Registry.

(** C5 (as amended).  Token issuance is one-shot per voter once the issuer
    keys are stored.  In every store that holds issuer keys, for every
    eligible voter to whom no token has been issued and every blinded input
    that base64-decodes, [issue_blind_token] succeeds and records the
    voter; after any further operations on the store, those of
    [database.py] included, every later call for that voter returns
    [AlreadyIssued] and changes nothing; and no operation ever turns a set
    [token_issued] flag off. *)
Theorem issuance_one_shot
    (db : Database.Db) (voter_id blinded_b64 now : string) :
  is_Some (Database.get_issuer_keys db) ->
  Database.is_eligible voter_id db = true ->
  Database.has_token_issued voter_id db = false ->
  is_Some (Codec.b64decode blinded_b64) ->
  let db1 := Database.register_voter voter_id now db in
  (exists sig,
     VoterRegistry.issue_blind_token voter_id blinded_b64 now db
       = (db1, VoterRegistry.IssueOk sig)) /\
  (forall (later : list VoterRegistry.op) (blinded_b64' now' : string),
     let db2 := VoterRegistry.run_ops later db1 in
     Database.has_token_issued voter_id db2 = true /\
     VoterRegistry.issue_blind_token voter_id blinded_b64' now' db2
       = (db2, VoterRegistry.IssueErr VoterRegistry.AlreadyIssued)) /\
  (forall (o : VoterRegistry.op) (v : string) (s : Database.Db),
     Database.has_token_issued v s = true ->
     Database.has_token_issued v (VoterRegistry.run_op o s) = true).
Proof.
  intros [[priv pub] Hkeys] Helig Hfresh [blinded Hdec] db1.
  split; [|split].
  - unfold VoterRegistry.issue_blind_token.
    rewrite Helig, Hfresh, Hkeys, Hdec. cbn [negb]. eexists. reflexivity.
  - intros later b' now' db2.
    assert (He1 : Database.is_eligible voter_id db1 = true).
    { unfold Database.is_eligible, db1.
      now rewrite (proj2 (register_voter_frame voter_id now db)). }
    destruct (run_ops_monotone later voter_id db1 He1
                (register_voter_issued voter_id now db)) as [He2 Hi2].
    split; [exact Hi2|].
    subst db2. unfold VoterRegistry.issue_blind_token.
    now rewrite He2, Hi2.
  - intros o v s. apply token_issued_monotone.
Qed.

Lemma issuance_one_shot_witness :
  (exists sig,
     VoterRegistry.issue_blind_token "V2" Examples.blinded_b64 Examples.clock1
       (Database.seed_eligible_voters ["V2"%string] Examples.registry0)
       = (Database.register_voter "V2" Examples.clock1
            (Database.seed_eligible_voters ["V2"%string] Examples.registry0),
          VoterRegistry.IssueOk sig)) /\
  (forall (later : list VoterRegistry.op) (blinded_b64' now' : string),
     Database.has_token_issued "V2"
       (VoterRegistry.run_ops later
          (Database.register_voter "V2" Examples.clock1
             (Database.seed_eligible_voters ["V2"%string] Examples.registry0))) = true /\
     VoterRegistry.issue_blind_token "V2" blinded_b64' now'
       (VoterRegistry.run_ops later
          (Database.register_voter "V2" Examples.clock1
             (Database.seed_eligible_voters ["V2"%string] Examples.registry0)))
       = (VoterRegistry.run_ops later
            (Database.register_voter "V2" Examples.clock1
               (Database.seed_eligible_voters ["V2"%string] Examples.registry0)),
          VoterRegistry.IssueErr VoterRegistry.AlreadyIssued)) /\
  (forall (o : VoterRegistry.op) (v : string) (s : Database.Db),
     Database.has_token_issued v s = true ->
     Database.has_token_issued v (VoterRegistry.run_op o s) = true).
Proof.
  apply (issuance_one_shot
           (Database.seed_eligible_voters ["V2"%string] Examples.registry0)
           "V2" Examples.blinded_b64 Examples.clock1).
  - vm_compute. eexists. reflexivity.
  - vm_compute. reflexivity.
  - vm_compute. reflexivity.
  - vm_compute. eexists. reflexivity.
Defined.

(** C5 (as stated) fails: a voter seeded with [seed_eligible_voters] into a
    store that was never bootstrapped is eligible and has no token, the
    blinded input decodes, and the first [issue_blind_token] call still
    fails, with "Issuer not initialized", and records nothing. *)
Lemma seeded_voter_without_issuer_keys :
  Database.is_eligible "V2"
    (Database.seed_eligible_voters ["V2"%string] Database.empty_db) = true /\
  Database.has_token_issued "V2"
    (Database.seed_eligible_voters ["V2"%string] Database.empty_db) = false /\
  is_Some (Codec.b64decode Examples.blinded_b64) /\
  VoterRegistry.issue_blind_token "V2" Examples.blinded_b64 Examples.clock1
    (Database.seed_eligible_voters ["V2"%string] Database.empty_db)
  = (Database.seed_eligible_voters ["V2"%string] Database.empty_db,
     VoterRegistry.IssueErr VoterRegistry.IssuerNotInitialized).
Proof.
  repeat apply conj; try (vm_compute; reflexivity).
  vm_compute. eexists. reflexivity.
Qed.

(** When the store is only reached through the entry points of
    [voter_registry.py], the conditions of the first call hold by
    themselves: an eligible voter there implies stored keys, and a voter no
    [issue_blind_token] call was made for has no token. *)
Lemma first_call_through_registry (history : list VoterRegistry.op) (voter_id : string) :
  forallb VoterRegistry.registry_level history = true ->
  forallb (fun o => negb (VoterRegistry.issues_for voter_id o)) history = true ->
  Database.is_eligible voter_id (VoterRegistry.run_ops history Database.empty_db) = true ->
  is_Some (Database.get_issuer_keys (VoterRegistry.run_ops history Database.empty_db)) /\
  Database.has_token_issued voter_id (VoterRegistry.run_ops history Database.empty_db) = false.
Proof.
  intros Hlevel Hfirst Helig. split.
  - destruct (keys_before_voters history Hlevel) as [Hempty|[row Hk]].
    + unfold Database.is_eligible in Helig. apply bool_decide_eq_true in Helig.
      rewrite Hempty in Helig. now apply not_elem_of_empty in Helig.
    + unfold Database.get_issuer_keys. rewrite Hk. eauto.
  - unfold Database.has_token_issued.
    now rewrite (no_row_before_first_call voter_id history Hlevel Hfirst).
Qed.

(** ** The character class of voter ids *)

Lemma all_false_char (p : ascii -> bool) (s : string) (c : ascii) :
  In c (list_ascii_of_string s) -> p c = false -> PyStr.all p s = false.
Proof.
  induction s as [|a s IH]; cbn; intros Hin Hc.
  - destruct Hin.
  - destruct Hin as [->|Hin].
    + now rewrite Hc.
    + rewrite (IH Hin Hc). apply andb_false_r.
Qed.

(** Below 128, [str.isalnum] is the class [[A-Za-z0-9]]. *)
Lemma isalnum_ascii (c : ascii) :
  PyStr.code c < 128 -> PyStr.isalnum c = PyStr.is_ascii_alnum c.
Proof.
  intros Hc. unfold PyStr.isalnum, PyStr.in_range.
  repeat match goal with
         | |- context [?a =? ?b] => destruct (Z.eqb_spec a b); [lia|]
         | |- context [?a <=? ?b] =>
             lazymatch a with
             | PyStr.code _ => fail
             | _ => destruct (Z.leb_spec a b); [lia|]
             end
         end.
  cbn. now rewrite !orb_false_r.
Qed.

(** C8 (as amended).  The character check is the API handler's:
    [api_register] answers 400 and leaves the store as it is, whatever the
    registry holds, whatever the blinded input is, and without calling
    [issue_blind_token], for every request whose [voter_id], once stripped,
    contains a character that is neither alphanumeric nor an underscore.
    The error is "Invalid voter_id format", unless the blinded input is
    blank, in which case the missing-field error comes first. *)
Theorem api_register_rejects_bad_voter_id
    (voter_id blinded_b64 now : string) (db : Database.Db) (c : ascii) :
  In c (list_ascii_of_string (PyStr.strip voter_id)) ->
  PyStr.isalnum c = false ->
  c <> "_"%char ->
  Api.api_register voter_id blinded_b64 now db
  = (db, (if Api.is_empty (PyStr.strip blinded_b64)
          then Api.RegisterMissingField else Api.RegisterInvalidFormat, 400)).
Proof.
  intros Hin Halnum Hus. unfold Api.api_register.
  destruct (PyStr.strip voter_id) as [|a rest] eqn:Ev; [destruct Hin|].
  destruct (PyStr.strip blinded_b64) as [|a' rest']; [reflexivity|].
  cbn [Api.is_empty orb].
  rewrite (all_false_char Api.voter_id_char (String a rest) c Hin); [reflexivity|].
  unfold Api.voter_id_char. rewrite Halnum.
  now apply Ascii.eqb_neq.
Qed.

Lemma api_register_rejects_bad_voter_id_witness :
  Api.api_register "VOTER-001" Examples.blinded_b64 Examples.clock1 Examples.registry0
    = (Examples.registry0,
       (if Api.is_empty (PyStr.strip Examples.blinded_b64)
        then Api.RegisterMissingField else Api.RegisterInvalidFormat, 400)).
Proof.
  apply (api_register_rejects_bad_voter_id "VOTER-001" Examples.blinded_b64
           Examples.clock1 Examples.registry0 "-"%char).
  - vm_compute. do 5 right. left. reflexivity.
  - vm_compute. reflexivity.
  - discriminate.
Defined.

(** C8 (as stated) fails: [issue_blind_token] has no character check, so a
    voter seeded as "V-1" is issued a token; and the handler strips the id
    before checking it, so " VOTER_001" with its leading blank is accepted
    and served as "VOTER_001". *)
Lemma issue_token_accepts_foreign_characters :
  VoterRegistry.success
    (snd (VoterRegistry.issue_blind_token "V-1" Examples.blinded_b64 Examples.clock1
            Examples.registry_dash)) = true /\
  (let '(db, (body, status)) :=
     Api.api_register " VOTER_001" Examples.blinded_b64 Examples.clock1 Examples.registry0 in
   status = 200 /\
   (exists sig, body = Api.RegisterResult (VoterRegistry.IssueOk sig)) /\
   Database.has_token_issued "VOTER_001" db = true).
Proof.
  split; [vm_compute; reflexivity|].
  vm_compute. split; [reflexivity|]. split; [eexists|]; reflexivity.
Qed.

(** ** The ledger: casting a vote *)

Section Ledger.
Import Ledger LedgerSpec.

Lemma at_nonce_self (b : Block) :
  hash b = compute_hash b -> at_nonce b (nonce b) = b.
Proof.
  destruct b as [i t v p x h]. unfold at_nonce, new_block, compute_hash. cbn.
  now intros ->.
Qed.

(** A block that leaves [_proof_of_work] satisfies the rule; only its nonce
    and hash were touched, and the hash is the one of its fields. *)
Lemma proof_of_work_sound (fuel : nat) : forall b b',
  hash b = compute_hash b ->
  proof_of_work fuel b = Some b' ->
  has_pow b' = true /\ hash b' = compute_hash b' /\
  index b' = index b /\ timestamp b' = timestamp b /\ votes b' = votes b /\
  previous_hash b' = previous_hash b.
Proof.
  induction fuel as [|fuel IH]; intros b b' Hh Hrun; cbn [proof_of_work] in Hrun;
    destruct (has_pow b) eqn:Hp.
  - injection Hrun as <-. repeat split; assumption.
  - discriminate.
  - injection Hrun as <-. repeat split; assumption.
  - apply IH in Hrun; [|reflexivity]. exact Hrun.
Qed.

(** The loop ends as soon as some nonce ahead gives a hash with the prefix. *)
Lemma proof_of_work_total (k : nat) : forall fuel b,
  (k <= fuel)%nat ->
  hash b = compute_hash b ->
  has_pow (at_nonce b (nonce b + Z.of_nat k)) = true ->
  exists b', proof_of_work fuel b = Some b'.
Proof.
  induction k as [|k IH]; intros fuel b Hfuel Hh Hk.
  - rewrite Z.add_0_r, at_nonce_self in Hk by exact Hh.
    destruct fuel; cbn [proof_of_work]; rewrite Hk; eauto.
  - destruct fuel as [|fuel]; [lia|].
    cbn [proof_of_work]. destruct (has_pow b); [eauto|].
    apply IH; [lia|reflexivity|].
    cbn [nonce]. unfold at_nonce in *. cbn [index timestamp votes previous_hash].
    replace (nonce b + 1 + Z.of_nat k) with (nonce b + Z.of_nat (S k)) by lia.
    exact Hk.
Qed.

End Ledger.

Section CastVote.
Import Ledger LedgerSpec.

Variables (fuel : nat) (token_hash candidate signature_hex t_vote t_block : string).
Variable bc : Blockchain.

Let vote_record : Vote := mkVote token_hash candidate t_vote signature_hex.

(** The two rejections return the ledger as it was. *)
Lemma cast_vote_rejected (bc' : Blockchain) (err : vote_error) :
  cast_vote fuel token_hash candidate signature_hex t_vote t_block bc
    = Some (bc', Rejected err) ->
  bc' = bc.
Proof.
  unfold cast_vote.
  destruct (bool_decide (candidate ∈ CANDIDATES)); cbn [negb];
    [|intros [= <- _]; reflexivity].
  destruct (bool_decide (token_hash ∈ spent_tokens bc));
    [intros [= <- _]; reflexivity|].
  destruct (last (chain bc)); [|discriminate].
  destruct (proof_of_work _ _); discriminate.
Qed.

(** An accepted vote appends exactly one block, and that block is mined. *)
Lemma cast_vote_accepted (bc' : Blockchain) (tx : string) (i : Z) :
  cast_vote fuel token_hash candidate signature_hex t_vote t_block bc
    = Some (bc', Accepted tx i) ->
  exists tip b,
    last (chain bc) = Some tip /\
    chain bc' = chain bc ++ [b] /\
    spent_tokens bc' = spent_tokens bc ∪ {[token_hash]} /\
    chain_file bc' = FileDoc (map to_dict (chain bc')) (spent_tokens bc') /\
    has_pow b = true /\ hash b = compute_hash b /\
    index b = Z.of_nat (List.length (chain bc)) /\
    votes b = [vote_record] /\ previous_hash b = hash tip /\
    tx = hash b /\ i = index b.
Proof.
  unfold cast_vote.
  destruct (bool_decide (candidate ∈ CANDIDATES)); cbn [negb]; [|discriminate].
  destruct (bool_decide (token_hash ∈ spent_tokens bc)); [discriminate|].
  destruct (last (chain bc)) as [tip|]; [|discriminate].
  destruct (proof_of_work _ _) as [b|] eqn:Hpow; [|discriminate].
  intros [= <- <- <-].
  apply proof_of_work_sound in Hpow; [|reflexivity].
  destruct Hpow as (Hp & Hh & Hi & _ & Hv & Hprev).
  exists tip, b. unfold save. cbn [chain spent_tokens chain_file].
  repeat split; assumption.
Qed.

(** With a fresh token, a listed candidate and a nonce within reach of the
    fuel, the call returns an acceptance. *)
Lemma cast_vote_total (tip : Block) (k : nat) :
  candidate ∈ CANDIDATES ->
  token_hash ∉ spent_tokens bc ->
  last (chain bc) = Some tip ->
  has_pow (new_block (Z.of_nat (List.length (chain bc))) t_block [vote_record]
                     (hash tip) (Z.of_nat k)) = true ->
  (k <= fuel)%nat ->
  exists bc' tx i,
    cast_vote fuel token_hash candidate signature_hex t_vote t_block bc
      = Some (bc', Accepted tx i).
Proof.
  intros Hc Hfresh Htip Hk Hfuel. unfold cast_vote.
  rewrite (bool_decide_eq_true_2 _ Hc), (bool_decide_eq_false_2 _ Hfresh), Htip.
  cbn [negb].
  destruct (proof_of_work_total k fuel
              (new_block (Z.of_nat (List.length (chain bc))) t_block
                         [vote_record] (hash tip) 0) Hfuel eq_refl) as [b Hb].
  - exact Hk.
  - fold vote_record. rewrite Hb. eauto.
Qed.

End CastVote.

(** C2 (as amended).  Once [nf] is in the spent-set, every later [cast_vote]
    with the token hash [nf] fails and returns the ledger unchanged (same
    chain, same spent-set, same tallies): with [DoubleVote] when the choice
    is a candidate, and with [InvalidChoice] when it is not, because the
    choice is checked first. *)
Theorem cast_vote_spent_token
    (fuel : nat) (nf candidate signature_hex t_vote t_block : string)
    (bc : Ledger.Blockchain) :
  Ledger.is_token_spent nf bc = true ->
  exists bc' err,
    Ledger.cast_vote fuel nf candidate signature_hex t_vote t_block bc
      = Some (bc', Ledger.Rejected err) /\
    bc' = bc /\
    Ledger.chain bc' = Ledger.chain bc /\
    Ledger.spent_tokens bc' = Ledger.spent_tokens bc /\
    Ledger.get_tallies bc' = Ledger.get_tallies bc /\
    (candidate ∈ Ledger.CANDIDATES -> err = Ledger.DoubleVote) /\
    (candidate ∉ Ledger.CANDIDATES -> err = Ledger.InvalidChoice).
Proof.
  unfold Ledger.is_token_spent, Ledger.cast_vote. intros Hspent.
  destruct (decide (candidate ∈ Ledger.CANDIDATES)) as [Hc|Hc].
  - rewrite (bool_decide_eq_true_2 _ Hc), Hspent. cbn [negb].
    exists bc, Ledger.DoubleVote. repeat split; try reflexivity. contradiction.
  - rewrite (bool_decide_eq_false_2 _ Hc). cbn [negb].
    exists bc, Ledger.InvalidChoice. repeat split; try reflexivity. contradiction.
Qed.

Lemma cast_vote_spent_token_witness :
  exists bc' err,
    Ledger.cast_vote 0 "t1" "Candidate B" "s" Examples.vote_time Examples.block_time
      Examples.ledger1 = Some (bc', Ledger.Rejected err) /\
    bc' = Examples.ledger1 /\
    Ledger.chain bc' = Ledger.chain Examples.ledger1 /\
    Ledger.spent_tokens bc' = Ledger.spent_tokens Examples.ledger1 /\
    Ledger.get_tallies bc' = Ledger.get_tallies Examples.ledger1 /\
    ("Candidate B"%string ∈ Ledger.CANDIDATES -> err = Ledger.DoubleVote) /\
    ("Candidate B"%string ∉ Ledger.CANDIDATES -> err = Ledger.InvalidChoice).
Proof.
  apply (cast_vote_spent_token 0 "t1" "Candidate B" "s" Examples.vote_time
           Examples.block_time Examples.ledger1).
  vm_compute. reflexivity.
Defined.

(** C2 (as stated) fails: after the ballot for "t1" is accepted, a second
    [cast_vote] with the same token hash and a choice outside [CANDIDATES]
    is refused with [InvalidChoice], not with [DoubleVote]. *)
Lemma double_vote_invalid_choice :
  Ledger.cast_vote 2 "t1" "Candidate A" "s" Examples.vote_time Examples.block_time
    Examples.ledger0
    = Some (Examples.ledger1,
            Ledger.Accepted "007a23275c50c59eba9f7a836c7ac7fbefdfb75a730cdcc7a4130cf537423d3a" 1) /\
  Ledger.is_token_spent "t1" Examples.ledger1 = true /\
  Ledger.cast_vote 2 "t1" "NotACandidate" "s" Examples.vote_time Examples.block_time
    Examples.ledger1
    = Some (Examples.ledger1, Ledger.Rejected Ledger.InvalidChoice).
Proof.
  repeat apply conj; vm_compute; reflexivity.
Qed.

(** C3 (as amended).  The credential is verified by the API handler, before
    the ledger is called: when the token and signature of a request decode
    but [verify_signature] is false, [api_vote] leaves the ledger untouched
    and never answers 200; for a request with all fields present and a
    listed candidate the answer is 403 [InvalidCredential]. *)
Theorem api_vote_rejects_invalid_credential
    (fuel : nat) (token_hex signature_b64 candidate t_vote t_block : string)
    (db : Database.Db) (bc : Ledger.Blockchain)
    (token : bytes) (sig : Z) (pk : BlindSignature.PublicKey) :
  BlindSignature.hex_to_token (PyStr.strip token_hex) = Some token ->
  BlindSignature.b64_to_int (PyStr.strip signature_b64) = Some sig ->
  VoterRegistry.get_public_key db = Some pk ->
  BlindSignature.verify_signature token sig pk = false ->
  exists body status,
    Api.api_vote fuel token_hex signature_b64 candidate t_vote t_block db bc
      = Some (bc, (body, status)) /\
    status <> 200 /\
    (PyStr.strip token_hex <> EmptyString ->
     PyStr.strip signature_b64 <> EmptyString ->
     PyStr.strip candidate ∈ Ledger.CANDIDATES ->
     body = Api.VoteInvalidCredential /\ status = 403).
Proof.
  intros Htok Hsig Hpk Hver. unfold Api.api_vote, Api.parse_credential.
  rewrite Htok, Hsig, Hpk, Hver. cbn [negb].
  destruct (PyStr.strip token_hex) as [|a1 r1];
    [eexists _, _; split; [reflexivity|]; split; [discriminate|congruence]|].
  destruct (PyStr.strip signature_b64) as [|a2 r2];
    [eexists _, _; split; [reflexivity|]; split; [discriminate|congruence]|].
  destruct (PyStr.strip candidate) as [|a3 r3] eqn:Ec;
    [eexists _, _; split; [reflexivity|]; split; [discriminate|]; intros _ _ Hin;
     exfalso; revert Hin; apply (proj1 (bool_decide_eq_false _)); reflexivity|].
  cbn [Api.is_empty orb].
  destruct (bool_decide (String a3 r3 ∈ Ledger.CANDIDATES)) eqn:Hc; cbn [negb].
  - eexists _, _. split; [reflexivity|]. split; [discriminate|]. auto.
  - eexists _, _. split; [reflexivity|]. split; [discriminate|].
    intros _ _ Hin. apply bool_decide_eq_false in Hc. contradiction.
Qed.

Lemma api_vote_rejects_invalid_credential_witness :
  exists body status,
    Api.api_vote 2 (BlindSignature.token_to_hex Examples.demo_token)
      (BlindSignature.int_to_b64 Examples.forged_sig) "Candidate A"
      Examples.vote_time Examples.block_time' Examples.registry0 Examples.ledger0
      = Some (Examples.ledger0, (body, status)) /\
    status <> 200 /\
    (PyStr.strip (BlindSignature.token_to_hex Examples.demo_token) <> EmptyString ->
     PyStr.strip (BlindSignature.int_to_b64 Examples.forged_sig) <> EmptyString ->
     PyStr.strip "Candidate A" ∈ Ledger.CANDIDATES ->
     body = Api.VoteInvalidCredential /\ status = 403).
Proof.
  apply (api_vote_rejects_invalid_credential 2
           (BlindSignature.token_to_hex Examples.demo_token)
           (BlindSignature.int_to_b64 Examples.forged_sig) "Candidate A"
           Examples.vote_time Examples.block_time' Examples.registry0 Examples.ledger0
           Examples.demo_token Examples.forged_sig Examples.demo_pub).
  - vm_compute. reflexivity.
  - vm_compute. reflexivity.
  - vm_compute. reflexivity.
  - vm_compute. reflexivity.
Defined.

(** C3 (as stated) fails: [cast_vote] never sees the token or the key.  Given
    the hash of a token whose signature does not verify, it accepts the
    ballot, appends a block and spends the token. *)
Lemma cast_vote_accepts_unverified :
  BlindSignature.verify_signature Examples.demo_token Examples.forged_sig Examples.demo_pub
    = false /\
  Ledger.cast_vote 2 (BlindSignature.token_hash Examples.demo_token) "Candidate A"
    (PyStr.prefix 64 (BlindSignature.int_to_b64 Examples.forged_sig))
    Examples.vote_time Examples.block_time' Examples.ledger0
    = Some (Examples.ledger_forged,
            Ledger.Accepted "009bd9e70b6aa20346ae861a086d5369c8ec19f6496699abb69962f14f411929" 1) /\
  List.length (Ledger.chain Examples.ledger0) = 1%nat /\
  List.length (Ledger.chain Examples.ledger_forged) = 2%nat /\
  Ledger.is_token_spent (BlindSignature.token_hash Examples.demo_token) Examples.ledger0
    = false /\
  Ledger.is_token_spent (BlindSignature.token_hash Examples.demo_token) Examples.ledger_forged
    = true.
Proof.
  repeat apply conj; vm_compute; reflexivity.
Qed.

(** C4 (as amended).  Every block that [cast_vote] appends satisfies the
    proof-of-work rule: an accepted vote extends the chain by one block whose
    hash is the hash of its fields and begins with [DIFFICULTY] zeros, and
    [cast_vote] does return such a block whenever some nonce within the fuel
    gives one.  The genesis block is only constructed, with nonce 0, and a
    chain read from the chain file is kept whenever its links are
    consistent, whatever the prefixes of its hashes. *)
Theorem cast_vote_appends_mined_block
    (fuel : nat) (token_hash candidate signature_hex t_vote t_block : string)
    (bc : Ledger.Blockchain) :
  (forall bc' tx i,
     Ledger.cast_vote fuel token_hash candidate signature_hex t_vote t_block bc
       = Some (bc', Ledger.Accepted tx i) ->
     exists b,
       Ledger.chain bc' = Ledger.chain bc ++ [b] /\
       Ledger.has_pow b = true /\
       Ledger.hash b = Ledger.compute_hash b /\
       tx = Ledger.hash b) /\
  (forall tip k,
     candidate ∈ Ledger.CANDIDATES ->
     Ledger.is_token_spent token_hash bc = false ->
     last (Ledger.chain bc) = Some tip ->
     Ledger.has_pow
       (Ledger.new_block (Z.of_nat (List.length (Ledger.chain bc))) t_block
          [Ledger.mkVote token_hash candidate t_vote signature_hex]
          (Ledger.hash tip) (Z.of_nat k)) = true ->
     (k <= fuel)%nat ->
     exists bc' tx i,
       Ledger.cast_vote fuel token_hash candidate signature_hex t_vote t_block bc
         = Some (bc', Ledger.Accepted tx i)) /\
  (forall now,
     Ledger.chain (Ledger.load_or_init Ledger.FileAbsent now)
       = [Ledger.new_block 0 now [] Ledger.zero_hash 0]) /\
  (forall data spent now,
     Ledger.is_valid_chain (map Ledger.from_dict data) = true ->
     Ledger.chain (Ledger.load_or_init (Ledger.FileDoc data spent) now)
       = map Ledger.from_dict data).
Proof.
  split; [|split; [|split]].
  - intros bc' tx i Hcast.
    destruct (cast_vote_accepted _ _ _ _ _ _ _ _ _ _ Hcast)
      as (tip & b & _ & Hchain & _ & _ & Hpow & Hhash & _ & _ & _ & Htx & _).
    exists b. repeat split; assumption.
  - intros tip k Hc Hfresh Htip Hk Hfuel.
    apply (cast_vote_total fuel token_hash candidate signature_hex t_vote t_block bc tip k);
      try assumption.
    unfold Ledger.is_token_spent in Hfresh. now apply bool_decide_eq_false in Hfresh.
  - reflexivity.
  - intros data spent now Hvalid. unfold Ledger.load_or_init, Ledger.is_valid.
    cbn [Ledger.chain]. now rewrite Hvalid.
Qed.

Lemma cast_vote_appends_mined_block_witness :
  exists bc' tx i b,
    Ledger.cast_vote 2 "t1" "Candidate A" "s" Examples.vote_time Examples.block_time
      Examples.ledger0 = Some (bc', Ledger.Accepted tx i) /\
    Ledger.chain bc' = Ledger.chain Examples.ledger0 ++ [b] /\
    Ledger.has_pow b = true /\
    Ledger.hash b = Ledger.compute_hash b /\
    tx = Ledger.hash b.
Proof.
  pose proof (cast_vote_appends_mined_block 2 "t1" "Candidate A" "s"
                Examples.vote_time Examples.block_time Examples.ledger0)
    as (Hmined & Hruns & _ & _).
  destruct (Hruns (Ledger.new_block 0 Examples.genesis_time [] Ledger.zero_hash 0) 2%nat)
    as (bc' & tx & i & Hcast).
  - apply (proj1 (bool_decide_eq_true _)). reflexivity.
  - vm_compute. reflexivity.
  - reflexivity.
  - vm_compute. reflexivity.
  - apply le_n.
  - destruct (Hmined bc' tx i Hcast) as (b & Hb).
    exists bc', tx, i, b. split; [exact Hcast|exact Hb].
Defined.

(** C4 (as stated) fails: the genesis block of a ledger started without a
    chain file has nonce 0 and a hash that does not begin with "00"; and a
    chain file whose block 1 was never mined is loaded as it is. *)
Lemma genesis_not_mined :
  (exists g,
     Ledger.chain Examples.ledger0 = [g] /\
     Ledger.index g = 0 /\ Ledger.nonce g = 0 /\
     Ledger.hash g = "dd4032362f660cc03107ff1bd75c5609fc50d54411a0316567f7c14c384556ca"%string /\
     Ledger.has_pow g = false) /\
  (exists g b,
     Ledger.chain Examples.ledger_foreign = [g; b] /\
     Ledger.index b = 1 /\
     Ledger.hash b = "f8946ccf50c56566f740ad5ba52ced916d3eba3b2d267e68d439554147745170"%string /\
     Ledger.has_pow b = false).
Proof.
  split.
  - eexists. split; [vm_compute; reflexivity|].
    repeat apply conj; reflexivity.
  - eexists _, _. split; [vm_compute; reflexivity|].
    repeat apply conj; reflexivity.
Qed.

(** ** The ledger: verification, lookup and tallies *)

Section Audit.
Import Ledger LedgerSpec.

Lemma block_ok_linked (chain : list Block) (i : nat) :
  (1 <= i < List.length chain)%nat ->
  block_ok chain i = true <-> linked chain i.
Proof.
  intros Hi. unfold block_ok, linked.
  destruct (lookup_lt_is_Some_2 chain i) as [cur Hcur]; [lia|].
  destruct (lookup_lt_is_Some_2 chain (i - 1)) as [prev Hprev]; [lia|].
  rewrite Hcur, Hprev. split.
  - intros Hok current previous [= <-] [= <-].
    destruct (String.eqb_spec (hash cur) (compute_hash cur)); [|discriminate].
    destruct (String.eqb_spec (previous_hash cur) (hash prev)); [|discriminate].
    split; assumption.
  - intros Hl. destruct (Hl cur prev eq_refl eq_refl) as [-> ->].
    now rewrite !String.eqb_refl.
Qed.

Lemma is_valid_chain_linked (chain : list Block) :
  is_valid_chain chain = true <->
  forall i, (1 <= i < List.length chain)%nat -> linked chain i.
Proof.
  unfold is_valid_chain. rewrite forallb_forall. split.
  - intros Hall i Hi. apply block_ok_linked; [exact Hi|].
    apply Hall, in_seq. lia.
  - intros Hall i Hin. apply in_seq in Hin.
    apply block_ok_linked; [lia|]. apply Hall. lia.
Qed.

(** *** Tallies *)

Lemma votes_for_app (c : string) (l1 l2 : list Vote) :
  votes_for c (l1 ++ l2) = votes_for c l1 + votes_for c l2.
Proof.
  unfold votes_for. rewrite List.filter_app, List.length_app. lia.
Qed.

Lemma votes_for_cons (c : string) (v : Vote) (l : list Vote) :
  votes_for c (v :: l) =
  (if String.eqb (candidate v) c then 1 else 0) + votes_for c l.
Proof.
  unfold votes_for. cbn [List.filter].
  destruct (String.eqb (candidate v) c); cbn [List.length]; lia.
Qed.

Lemma count_vote_lookup (t : gmap string Z) (v : Vote) (c : string) :
  count_vote t v !! c =
  (fun k => k + (if String.eqb (candidate v) c then 1 else 0)) <$> (t !! c).
Proof.
  unfold count_vote.
  destruct (String.eqb_spec (candidate v) c) as [->|Hne].
  - destruct (t !! c) as [k|] eqn:E; cbn.
    + now rewrite lookup_insert_eq.
    + now rewrite E.
  - destruct (t !! candidate v) as [k|] eqn:E.
    + rewrite lookup_insert_ne by exact Hne.
      destruct (t !! c); cbn; [f_equal; lia|reflexivity].
    + destruct (t !! c); cbn; [f_equal; lia|reflexivity].
Qed.

Lemma count_votes_lookup (vs : list Vote) : forall (t : gmap string Z) (c : string),
  foldl count_vote t vs !! c = (fun k => k + votes_for c vs) <$> (t !! c).
Proof.
  induction vs as [|v vs IH]; intros t c; cbn [foldl].
  - destruct (t !! c); cbn; [f_equal; unfold votes_for; cbn; lia|reflexivity].
  - rewrite IH, count_vote_lookup, votes_for_cons.
    destruct (t !! c); cbn; [f_equal; lia|reflexivity].
Qed.

Lemma count_blocks_lookup (blocks : list Block) : forall (t : gmap string Z) (c : string),
  foldl (fun tallies block => foldl count_vote tallies (votes block)) t blocks !! c
  = (fun k => k + votes_for c (flat_map votes blocks)) <$> (t !! c).
Proof.
  induction blocks as [|b blocks IH]; intros t c; cbn [foldl flat_map].
  - destruct (t !! c); cbn; [f_equal; unfold votes_for; cbn; lia|reflexivity].
  - rewrite IH, count_votes_lookup, votes_for_app.
    destruct (t !! c); cbn; [f_equal; lia|reflexivity].
Qed.

Lemma zero_tallies_lookup (c : string) :
  zero_tallies !! c = if bool_decide (c ∈ CANDIDATES) then Some 0 else None.
Proof.
  unfold zero_tallies, CANDIDATES. cbn [foldl].
  destruct (decide (c = "Candidate C"%string)) as [->|HC];
    [rewrite lookup_insert_eq; reflexivity|rewrite lookup_insert_ne by congruence].
  destruct (decide (c = "Candidate B"%string)) as [->|HB];
    [rewrite lookup_insert_eq; reflexivity|rewrite lookup_insert_ne by congruence].
  destruct (decide (c = "Candidate A"%string)) as [->|HA];
    [rewrite lookup_insert_eq; reflexivity|rewrite lookup_insert_ne by congruence].
  rewrite lookup_empty, bool_decide_eq_false_2; [reflexivity|].
  rewrite !elem_of_cons, elem_of_nil. tauto.
Qed.

(** The entry of [get_tallies] at any key. *)
Lemma get_tallies_lookup (bc : Blockchain) (c : string) :
  get_tallies bc !! c =
  if bool_decide (c ∈ CANDIDATES) then Some (votes_for c (vote_records bc)) else None.
Proof.
  unfold get_tallies, vote_records.
  rewrite count_blocks_lookup, zero_tallies_lookup.
  destruct (bool_decide (c ∈ CANDIDATES)); reflexivity.
Qed.

End Audit.

Section TallySum.
Import Ledger LedgerSpec.

Lemma tallies_sum_insert (c : string) (k : Z) (t : gmap string Z) :
  t !! c = None -> tallies_sum (<[c := k]> t) = tallies_sum t + k.
Proof.
  intros Hnone. unfold tallies_sum.
  rewrite map_fold_insert_L; [reflexivity| |exact Hnone].
  intros. lia.
Qed.

(** The tallies are the three counters, and nothing else. *)
Lemma get_tallies_map (bc : Blockchain) :
  get_tallies bc =
  <["Candidate A"%string := votes_for "Candidate A" (vote_records bc)]>
    (<["Candidate B"%string := votes_for "Candidate B" (vote_records bc)]>
       (<["Candidate C"%string := votes_for "Candidate C" (vote_records bc)]> ∅)).
Proof.
  apply map_eq. intros c. rewrite get_tallies_lookup.
  destruct (decide (c = "Candidate A"%string)) as [->|HA];
    [rewrite lookup_insert_eq; reflexivity|rewrite lookup_insert_ne by congruence].
  destruct (decide (c = "Candidate B"%string)) as [->|HB];
    [rewrite lookup_insert_eq; reflexivity|rewrite lookup_insert_ne by congruence].
  destruct (decide (c = "Candidate C"%string)) as [->|HC];
    [rewrite lookup_insert_eq; reflexivity|rewrite lookup_insert_ne by congruence].
  rewrite lookup_empty, bool_decide_eq_false_2; [reflexivity|].
  unfold CANDIDATES. rewrite !elem_of_cons, elem_of_nil. tauto.
Qed.

Lemma tallies_sum_get_tallies (bc : Blockchain) :
  tallies_sum (get_tallies bc) =
  votes_for "Candidate A" (vote_records bc) + votes_for "Candidate B" (vote_records bc)
  + votes_for "Candidate C" (vote_records bc).
Proof.
  rewrite get_tallies_map.
  rewrite !tallies_sum_insert.
  - unfold tallies_sum. rewrite map_fold_empty. lia.
  - apply lookup_empty.
  - rewrite lookup_insert_ne by discriminate. apply lookup_empty.
  - rewrite !lookup_insert_ne by discriminate. apply lookup_empty.
Qed.

(** Every record is counted for one candidate, or is foreign. *)
Lemma records_partition (records : list Vote) :
  Z.of_nat (List.length records) =
  votes_for "Candidate A" records + votes_for "Candidate B" records
  + votes_for "Candidate C" records + foreign_votes records.
Proof.
  induction records as [|v records IH].
  - reflexivity.
  - rewrite !votes_for_cons. unfold foreign_votes in *. cbn [List.filter].
    destruct (decide (candidate v ∈ CANDIDATES)) as [Hin|Hout].
    + rewrite (bool_decide_eq_true_2 _ Hin). cbn [negb].
      unfold CANDIDATES in Hin. rewrite !elem_of_cons, elem_of_nil in Hin.
      destruct Hin as [E|[E|[E|[]]]]; rewrite E; cbn; lia.
    + rewrite (bool_decide_eq_false_2 _ Hout). cbn [negb List.length].
      unfold CANDIDATES in Hout. rewrite !elem_of_cons, elem_of_nil in Hout.
      destruct (String.eqb_spec (candidate v) "Candidate A"); [tauto|].
      destruct (String.eqb_spec (candidate v) "Candidate B"); [tauto|].
      destruct (String.eqb_spec (candidate v) "Candidate C"); [tauto|].
      lia.
Qed.

Lemma total_votes_length (blocks : list Block) : forall acc,
  foldl (fun acc b => acc + Z.of_nat (List.length (votes b))) acc blocks
  = acc + Z.of_nat (List.length (flat_map votes blocks)).
Proof.
  induction blocks as [|b blocks IH]; intros acc; cbn [foldl flat_map].
  - cbn. lia.
  - rewrite IH, List.length_app. lia.
Qed.

Lemma foreign_votes_pos (records : list Vote) (v : Vote) :
  In v records -> candidate v ∉ CANDIDATES -> 0 < foreign_votes records.
Proof.
  intros Hin Hout. unfold foreign_votes.
  assert (Hf : In v (List.filter
                       (fun v => negb (bool_decide (candidate v ∈ CANDIDATES))) records)).
  { apply List.filter_In. split; [exact Hin|].
    now rewrite bool_decide_eq_false_2. }
  destruct (List.filter _ records); [destruct Hf|]. cbn [List.length]. lia.
Qed.

End TallySum.



(** C9.  [get_block] is defined for every integer: inside [0, len) it is the
    dictionary of the block at that position, and for every other index,
    negative ones included, it is [None]. *)
Theorem get_block_total (i : Z) (bc : Ledger.Blockchain) :
  (0 <= i < Z.of_nat (List.length (Ledger.chain bc)) ->
   exists b,
     Ledger.chain bc !! Z.to_nat i = Some b /\
     Ledger.get_block i bc = Some (Ledger.to_dict b)) /\
  (~ 0 <= i < Z.of_nat (List.length (Ledger.chain bc)) ->
   Ledger.get_block i bc = None).
Proof.
  unfold Ledger.get_block. split.
  - intros Hi.
    destruct (lookup_lt_is_Some_2 (Ledger.chain bc) (Z.to_nat i)) as [b Hb]; [lia|].
    exists b. split; [exact Hb|].
    rewrite (proj2 (Z.leb_le _ _)), (proj2 (Z.ltb_lt _ _)) by lia.
    cbn [andb]. now rewrite Hb.
  - intros Hi.
    destruct (Z.leb_spec 0 i); [|reflexivity].
    destruct (Z.ltb_spec i (Z.of_nat (List.length (Ledger.chain bc)))); [lia|reflexivity].
Qed.

Lemma get_block_total_witness :
  (exists b,
     Ledger.chain Examples.ledger1 !! Z.to_nat 1 = Some b /\
     Ledger.get_block 1 Examples.ledger1 = Some (Ledger.to_dict b)) /\
  Ledger.get_block (-1) Examples.ledger1 = None /\
  Ledger.get_block 2 Examples.ledger1 = None.
Proof.
  split; [|split].
  - apply (proj1 (get_block_total 1 Examples.ledger1)). vm_compute.
    split; [discriminate|reflexivity].
  - apply (proj2 (get_block_total (-1) Examples.ledger1)). intros [H _]. apply H. reflexivity.
  - apply (proj2 (get_block_total 2 Examples.ledger1)). vm_compute. intros [_ H]. discriminate H.
Defined.

(** *** Loaded chains *)

Section Loaded.
Import Ledger LedgerSpec LoadedChain.

Lemma json_loaded_vote_of_vote (v : Vote) : json_loaded_vote (of_vote v) = json_vote v.
Proof. reflexivity. Qed.

Lemma loaded_compute_hash_of_block (b : Block) :
  loaded_compute_hash (of_block b) = compute_hash b.
Proof.
  unfold loaded_compute_hash, compute_hash, compute_hash_of, json_block, of_block.
  cbn [l_index l_nonce l_previous_hash l_timestamp l_votes].
  rewrite map_map. reflexivity.
Qed.

Lemma loaded_block_ok_of_block (chain : list Block) (i : nat) :
  loaded_block_ok (map of_block chain) i = block_ok chain i.
Proof.
  unfold loaded_block_ok, block_ok. rewrite !list_lookup_fmap.
  destruct (chain !! i) as [cur|]; [|reflexivity].
  destruct (chain !! (i - 1)%nat) as [prev|]; [|reflexivity].
  cbn [fmap option_fmap option_map]. now rewrite loaded_compute_hash_of_block.
Qed.

(** On chains whose candidates are strings the two models agree. *)
Lemma loaded_is_valid_of_block (chain : list Block) :
  loaded_is_valid (map of_block chain) = is_valid_chain chain.
Proof.
  unfold loaded_is_valid, is_valid_chain. rewrite length_map.
  induction (seq 1 (List.length chain - 1)) as [|i l IH]; cbn [forallb]; [reflexivity|].
  now rewrite loaded_block_ok_of_block, IH.
Qed.

Lemma count_loaded_votes_of_vote (vs : list Vote) : forall t,
  count_loaded_votes t (map of_vote vs) = Some (foldl count_vote t vs).
Proof.
  induction vs as [|v vs IH]; intros t; cbn [map count_loaded_votes foldl].
  - reflexivity.
  - unfold count_loaded_vote at 1, count_vote at 2. cbn [of_vote l_candidate].
    destruct (t !! candidate v); apply IH.
Qed.

Lemma count_loaded_blocks_of_block (blocks : list Block) : forall t,
  count_loaded_blocks t (map of_block blocks)
  = Some (foldl (fun tallies block => foldl count_vote tallies (votes block)) t blocks).
Proof.
  induction blocks as [|b blocks IH]; intros t; cbn [map count_loaded_blocks foldl].
  - reflexivity.
  - cbn [of_block l_votes]. rewrite count_loaded_votes_of_vote. apply IH.
Qed.

Lemma loaded_get_tallies_of_block (bc : Blockchain) :
  loaded_get_tallies (map of_block (chain bc)) = Some (get_tallies bc).
Proof.
  unfold loaded_get_tallies, get_tallies.
  rewrite skipn_map. apply count_loaded_blocks_of_block.
Qed.

Lemma loaded_votes_for_app (c : string) (l1 l2 : list LoadedVote) :
  loaded_votes_for c (l1 ++ l2) = loaded_votes_for c l1 + loaded_votes_for c l2.
Proof.
  unfold loaded_votes_for. rewrite List.filter_app, List.length_app. lia.
Qed.

Lemma loaded_votes_for_cons (c : string) (v : LoadedVote) (l : list LoadedVote) :
  loaded_votes_for c (v :: l) = (if chooses c v then 1 else 0) + loaded_votes_for c l.
Proof.
  unfold loaded_votes_for. cbn [List.filter].
  destruct (chooses c v); cbn [List.length]; lia.
Qed.

Lemma count_loaded_vote_lookup (t t' : gmap string Z) (v : LoadedVote) (c : string) :
  count_loaded_vote t v = Some t' ->
  t' !! c = (fun k => k + (if chooses c v then 1 else 0)) <$> (t !! c).
Proof.
  unfold count_loaded_vote, chooses.
  assert (Hsame : t !! c = (fun k => k + 0) <$> (t !! c)).
  { destruct (t !! c); cbn; [f_equal; lia|reflexivity]. }
  destruct (l_candidate v) as [s|d|d|]; try discriminate;
    try (intros [= <-]; exact Hsame).
  intros Hcount.
  pose proof (count_vote_lookup t (mkVote EmptyString s EmptyString EmptyString) c) as Hl.
  unfold count_vote in Hl. cbn [candidate] in Hl.
  destruct (t !! s); injection Hcount as <-; exact Hl.
Qed.

Lemma count_loaded_votes_lookup (vs : list LoadedVote) : forall (t t' : gmap string Z) c,
  count_loaded_votes t vs = Some t' ->
  t' !! c = (fun k => k + loaded_votes_for c vs) <$> (t !! c).
Proof.
  induction vs as [|v vs IH]; intros t t' c; cbn [count_loaded_votes].
  - intros [= <-]. destruct (t !! c); cbn; [f_equal; unfold loaded_votes_for; cbn; lia|reflexivity].
  - destruct (count_loaded_vote t v) as [t1|] eqn:Hv; [|discriminate].
    intros Hrest. rewrite (IH _ _ c Hrest), (count_loaded_vote_lookup _ _ _ c Hv).
    rewrite loaded_votes_for_cons.
    destruct (t !! c); cbn; [f_equal; lia|reflexivity].
Qed.

Lemma count_loaded_blocks_lookup (blocks : list LoadedBlock) :
  forall (t t' : gmap string Z) c,
  count_loaded_blocks t blocks = Some t' ->
  t' !! c = (fun k => k + loaded_votes_for c (flat_map l_votes blocks)) <$> (t !! c).
Proof.
  induction blocks as [|b blocks IH]; intros t t' c; cbn [count_loaded_blocks flat_map].
  - intros [= <-]. destruct (t !! c); cbn; [f_equal; unfold loaded_votes_for; cbn; lia|reflexivity].
  - destruct (count_loaded_votes t (l_votes b)) as [t1|] eqn:Hb; [|discriminate].
    intros Hrest. rewrite (IH _ _ c Hrest), (count_loaded_votes_lookup _ _ _ c Hb).
    rewrite loaded_votes_for_app.
    destruct (t !! c); cbn; [f_equal; lia|reflexivity].
Qed.

(** The loop only stops at a candidate that cannot be hashed. *)
Lemma count_loaded_votes_total (vs : list LoadedVote) : forall t,
  Forall (fun v => hashable (l_candidate v) = true) vs ->
  is_Some (count_loaded_votes t vs).
Proof.
  induction vs as [|v vs IH]; intros t Hall; cbn [count_loaded_votes]; [eauto|].
  apply Forall_cons in Hall as [Hv Hall].
  unfold count_loaded_vote. destruct (l_candidate v); try discriminate Hv;
    try (destruct (t !! _)); now apply IH.
Qed.

Lemma count_loaded_blocks_total (blocks : list LoadedBlock) : forall t,
  Forall (fun v => hashable (l_candidate v) = true) (flat_map l_votes blocks) ->
  is_Some (count_loaded_blocks t blocks).
Proof.
  induction blocks as [|b blocks IH]; intros t Hall; cbn [count_loaded_blocks]; [eauto|].
  cbn [flat_map] in Hall. apply Forall_app in Hall as [Hb Hall].
  destruct (count_loaded_votes_total (l_votes b) t Hb) as [t1 ->]. now apply IH.
Qed.

Lemma count_loaded_votes_unhashable (vs : list LoadedVote) : forall t,
  Exists (fun v => hashable (l_candidate v) = false) vs ->
  count_loaded_votes t vs = None.
Proof.
  induction vs as [|v vs IH]; intros t Hex; [inversion Hex|].
  cbn [count_loaded_votes]. apply Exists_cons in Hex as [Hv|Hex].
  - unfold count_loaded_vote. destruct (l_candidate v); try discriminate Hv. reflexivity.
  - destruct (count_loaded_vote t v); [now apply IH|reflexivity].
Qed.

Lemma count_loaded_blocks_unhashable (blocks : list LoadedBlock) : forall t,
  Exists (fun v => hashable (l_candidate v) = false) (flat_map l_votes blocks) ->
  count_loaded_blocks t blocks = None.
Proof.
  induction blocks as [|b blocks IH]; intros t Hex; [inversion Hex|].
  cbn [count_loaded_blocks]. cbn [flat_map] in Hex. apply Exists_app in Hex as [Hb|Hex].
  - now rewrite count_loaded_votes_unhashable.
  - destruct (count_loaded_votes t (l_votes b)); [now apply IH|reflexivity].
Qed.

Lemma tallies_from_counts (t : gmap string Z) (f : string -> Z) :
  (forall c, t !! c = if bool_decide (c ∈ CANDIDATES) then Some (f c) else None) ->
  tallies_sum t = f "Candidate A"%string + f "Candidate B"%string + f "Candidate C"%string.
Proof.
  intros Ht.
  assert (Hmap : t = <["Candidate A"%string := f "Candidate A"%string]>
                       (<["Candidate B"%string := f "Candidate B"%string]>
                          (<["Candidate C"%string := f "Candidate C"%string]> ∅))).
  { apply map_eq. intros c. rewrite Ht.
    destruct (decide (c = "Candidate A"%string)) as [->|HA];
      [rewrite lookup_insert_eq; reflexivity|rewrite lookup_insert_ne by congruence].
    destruct (decide (c = "Candidate B"%string)) as [->|HB];
      [rewrite lookup_insert_eq; reflexivity|rewrite lookup_insert_ne by congruence].
    destruct (decide (c = "Candidate C"%string)) as [->|HC];
      [rewrite lookup_insert_eq; reflexivity|rewrite lookup_insert_ne by congruence].
    rewrite lookup_empty, bool_decide_eq_false_2; [reflexivity|].
    unfold CANDIDATES. rewrite !elem_of_cons, elem_of_nil. tauto. }
  rewrite Hmap, !tallies_sum_insert.
  - unfold tallies_sum. rewrite map_fold_empty. lia.
  - apply lookup_empty.
  - rewrite lookup_insert_ne by discriminate. apply lookup_empty.
  - rewrite !lookup_insert_ne by discriminate. apply lookup_empty.
Qed.

Lemma loaded_records_partition (records : list LoadedVote) :
  Z.of_nat (List.length records) =
  loaded_votes_for "Candidate A" records + loaded_votes_for "Candidate B" records
  + loaded_votes_for "Candidate C" records + loaded_foreign_votes records.
Proof.
  induction records as [|v records IH].
  - reflexivity.
  - rewrite !loaded_votes_for_cons.
    assert (Hforeign : loaded_foreign_votes (v :: records)
                       = (if listed v then 0 else 1) + loaded_foreign_votes records).
    { unfold loaded_foreign_votes. cbn [List.filter].
      destruct (listed v); cbn [negb List.length]; lia. }
    assert (Hone : (if chooses "Candidate A" v then 1 else 0)
                   + (if chooses "Candidate B" v then 1 else 0)
                   + (if chooses "Candidate C" v then 1 else 0)
                   + (if listed v then 0 else 1) = 1).
    { unfold chooses, listed. destruct (l_candidate v) as [s|d|d|]; try reflexivity.
      destruct (decide (s ∈ CANDIDATES)) as [Hin|Hout].
      - rewrite (bool_decide_eq_true_2 _ Hin).
        unfold CANDIDATES in Hin. rewrite !elem_of_cons, elem_of_nil in Hin.
        destruct Hin as [E|[E|[E|[]]]]; rewrite E; reflexivity.
      - rewrite (bool_decide_eq_false_2 _ Hout).
        unfold CANDIDATES in Hout. rewrite !elem_of_cons, elem_of_nil in Hout.
        destruct (String.eqb_spec s "Candidate A"); [tauto|].
        destruct (String.eqb_spec s "Candidate B"); [tauto|].
        destruct (String.eqb_spec s "Candidate C"); [tauto|].
        reflexivity. }
    rewrite Hforeign. cbn [List.length]. lia.
Qed.

Lemma loaded_total_votes_length (blocks : list LoadedBlock) : forall acc,
  foldl (fun acc b => acc + Z.of_nat (List.length (l_votes b))) acc blocks
  = acc + Z.of_nat (List.length (flat_map l_votes blocks)).
Proof.
  induction blocks as [|b blocks IH]; intros acc; cbn [foldl flat_map].
  - cbn. lia.
  - rewrite IH, List.length_app. lia.
Qed.

Lemma loaded_foreign_votes_pos (records : list LoadedVote) (v : LoadedVote) :
  In v records -> listed v = false -> 0 < loaded_foreign_votes records.
Proof.
  intros Hin Hout. unfold loaded_foreign_votes.
  assert (Hf : In v (List.filter (fun v => negb (listed v)) records)).
  { apply List.filter_In. split; [exact Hin|]. now rewrite Hout. }
  destruct (List.filter _ records); [destruct Hf|]. cbn [List.length]. lia.
Qed.

End Loaded.




(** * Further properties of the code *)

(** ** Hexadecimal and base64 transport *)

Lemma byte_of_to_Z (b : byte) : byte_of_Z (byte_to_Z b) = b.
Proof.
  unfold byte_of_Z, byte_to_Z. rewrite N2Z.id, Byte.of_to_N. reflexivity.
Qed.

(** Two hexadecimal digits, as [hex] writes them, are read back as the byte. *)
Lemma fromhex_pair (b : byte) (rest : string) :
  Codec.fromhex
    (String (Sha256.hex_digit (byte_to_Z b / 16))
       (String (Sha256.hex_digit (byte_to_Z b mod 16)) rest))
  = option_map (cons b) (Codec.fromhex rest).
Proof.
  destruct b; cbn [Codec.fromhex]; destruct (Codec.fromhex rest); reflexivity.
Qed.

Lemma fromhex_hex (bs : bytes) : Codec.fromhex (Sha256.hex bs) = Some bs.
Proof.
  unfold Sha256.hex. induction bs as [|b bs IH].
  - reflexivity.
  - cbn [flat_map app string_of_list_ascii]. rewrite fromhex_pair, IH. reflexivity.
Qed.

(** X1.  [hex_to_token(token_to_hex(token)) == token] for every byte string. *)
Theorem token_hex_roundtrip (token : bytes) :
  BlindSignature.hex_to_token (BlindSignature.token_to_hex token) = Some token.
Proof. apply fromhex_hex. Qed.

Lemma list_ind3 {A : Type} (P : list A -> Prop) :
  P [] -> (forall a, P [a]) -> (forall a b, P [a; b]) ->
  (forall a b c l, P l -> P (a :: b :: c :: l)) ->
  forall l, P l.
Proof.
  intros H0 H1 H2 H3 l.
  assert (H : P l /\ (forall a, P (a :: l)) /\ (forall a b, P (a :: b :: l))).
  { induction l as [|x l (IH0 & IH1 & IH2)].
    - repeat split; auto.
    - repeat split; auto. }
  apply H.
Qed.

(** The characters of the alphabet: ASCII, not the pad, and read back as
    the value they stand for. *)
Lemma b64_char_facts (v : Z) :
  0 <= v < 64 ->
  Codec.b64_val (Codec.b64_char v) = Some v /\
  (PyStr.code (Codec.b64_char v) =? 61) = false /\
  (PyStr.code (Codec.b64_char v) <? 128) = true.
Proof.
  intros Hv.
  assert (Hall : forallb
            (fun k => let c := Codec.b64_char (Z.of_nat k) in
                      match Codec.b64_val c with
                      | Some w => w =? Z.of_nat k
                      | None => false
                      end
                      && negb (PyStr.code c =? 61) && (PyStr.code c <? 128))
            (seq 0 64) = true) by (vm_compute; reflexivity).
  rewrite forallb_forall in Hall.
  specialize (Hall (Z.to_nat v)). rewrite Z2Nat.id in Hall by lia.
  assert (Hin : In (Z.to_nat v) (seq 0 64)) by (apply in_seq; lia).
  specialize (Hall Hin). cbv zeta in Hall.
  apply andb_true_iff in Hall as [Hall Hascii].
  apply andb_true_iff in Hall as [Hval Hpad].
  destruct (Codec.b64_val (Codec.b64_char v)) as [w|]; [|discriminate].
  apply Z.eqb_eq in Hval. subst w.
  apply negb_true_iff in Hpad. auto.
Qed.

(** One digit of the alphabet moves the decoder one position on. *)
Lemma a2b_base64_digit (v : Z) (rest : string) (quad left pads : Z) :
  0 <= v < 64 ->
  Codec.a2b_base64 (String (Codec.b64_char v) rest) quad left pads =
  if quad =? 0 then Codec.a2b_base64 rest 1 v 0
  else if quad =? 1 then
    option_map (cons (byte_of_Z (left * 4 + v / 16))) (Codec.a2b_base64 rest 2 (v mod 16) 0)
  else if quad =? 2 then
    option_map (cons (byte_of_Z (left * 16 + v / 4))) (Codec.a2b_base64 rest 3 (v mod 4) 0)
  else
    option_map (cons (byte_of_Z (left * 64 + v))) (Codec.a2b_base64 rest 0 0 0).
Proof.
  intros Hv. destruct (b64_char_facts v Hv) as (Hval & Hpad & _).
  cbn [Codec.a2b_base64]. rewrite Hpad, Hval. reflexivity.
Qed.

Lemma a2b_base64_b64encode (bs : bytes) :
  Codec.a2b_base64 (Codec.b64encode bs) 0 0 0 = Some bs.
Proof.
  induction bs as [|b0|b0 b1|b0 b1 b2 rest IH] using list_ind3.
  - reflexivity.
  - cbn [Codec.b64encode]. pose proof (byte_to_Z_range b0) as H0.
    set (x := byte_to_Z b0) in *.
    rewrite !a2b_base64_digit by (Z.to_euclidean_division_equations; lia).
    cbn -[Z.mul Z.div Z.modulo Z.add byte_of_Z].
    replace (x / 4 * 4 + x mod 4 * 16 / 16) with x
      by (Z.to_euclidean_division_equations; lia).
    subst x. now rewrite byte_of_to_Z.
  - cbn [Codec.b64encode].
    pose proof (byte_to_Z_range b0) as H0. pose proof (byte_to_Z_range b1) as H1.
    set (x := byte_to_Z b0) in *. set (y := byte_to_Z b1) in *.
    rewrite !a2b_base64_digit by (Z.to_euclidean_division_equations; lia).
    cbn -[Z.mul Z.div Z.modulo Z.add byte_of_Z].
    replace (x / 4 * 4 + (x mod 4 * 16 + y / 16) / 16) with x
      by (Z.to_euclidean_division_equations; lia).
    replace ((x mod 4 * 16 + y / 16) mod 16 * 16 + y mod 16 * 4 / 4) with y
      by (Z.to_euclidean_division_equations; lia).
    subst x y. now rewrite !byte_of_to_Z.
  - cbn [Codec.b64encode].
    pose proof (byte_to_Z_range b0) as H0. pose proof (byte_to_Z_range b1) as H1.
    pose proof (byte_to_Z_range b2) as H2.
    set (x := byte_to_Z b0) in *. set (y := byte_to_Z b1) in *.
    set (z := byte_to_Z b2) in *.
    rewrite !a2b_base64_digit by (Z.to_euclidean_division_equations; lia).
    cbn -[Z.mul Z.div Z.modulo Z.add byte_of_Z Codec.a2b_base64 Codec.b64encode].
    rewrite IH. cbn [option_map].
    replace (x / 4 * 4 + (x mod 4 * 16 + y / 16) / 16) with x
      by (Z.to_euclidean_division_equations; lia).
    replace ((x mod 4 * 16 + y / 16) mod 16 * 16 + (y mod 16 * 4 + z / 64) / 4) with y
      by (Z.to_euclidean_division_equations; lia).
    replace ((y mod 16 * 4 + z / 64) mod 4 * 64 + z mod 64) with z
      by (Z.to_euclidean_division_equations; lia).
    subst x y z. now rewrite !byte_of_to_Z.
Qed.

Lemma b64encode_ascii (bs : bytes) :
  PyStr.all (fun c => PyStr.code c <? 128) (Codec.b64encode bs) = true.
Proof.
  induction bs as [|b0|b0 b1|b0 b1 b2 rest IH] using list_ind3;
    cbn [Codec.b64encode PyStr.all].
  - reflexivity.
  - pose proof (byte_to_Z_range b0).
    rewrite !(fun v H => proj2 (proj2 (b64_char_facts v H)))
      by (Z.to_euclidean_division_equations; lia).
    reflexivity.
  - pose proof (byte_to_Z_range b0). pose proof (byte_to_Z_range b1).
    rewrite !(fun v H => proj2 (proj2 (b64_char_facts v H)))
      by (Z.to_euclidean_division_equations; lia).
    reflexivity.
  - pose proof (byte_to_Z_range b0). pose proof (byte_to_Z_range b1).
    pose proof (byte_to_Z_range b2).
    rewrite !(fun v H => proj2 (proj2 (b64_char_facts v H)))
      by (Z.to_euclidean_division_equations; lia).
    exact IH.
Qed.

(** [base64.b64decode(base64.b64encode(bs)) == bs] *)
Lemma b64decode_b64encode (bs : bytes) :
  Codec.b64decode (Codec.b64encode bs) = Some bs.
Proof.
  unfold Codec.b64decode. rewrite b64encode_ascii. apply a2b_base64_b64encode.
Qed.

Lemma b64_to_int_int_to_b64 (n : Z) :
  0 <= n -> BlindSignature.b64_to_int (BlindSignature.int_to_b64 n) = Some n.
Proof.
  intros Hn. unfold BlindSignature.b64_to_int, BlindSignature.int_to_b64.
  rewrite b64decode_b64encode. cbn [option_map].
  now rewrite int_bytes_roundtrip.
Qed.

(** X2.  [b64_to_int(int_to_b64(n)) == n] for every [n >= 0]. *)
Theorem int_b64_roundtrip (n : Z) :
  0 <= n -> BlindSignature.b64_to_int (BlindSignature.int_to_b64 n) = Some n.
Proof. apply b64_to_int_int_to_b64. Qed.

Lemma int_b64_roundtrip_witness :
  BlindSignature.b64_to_int (BlindSignature.int_to_b64 (2 ^ 2047 + 12345678))
  = Some (2 ^ 2047 + 12345678).
Proof.
  apply (int_b64_roundtrip (2 ^ 2047 + 12345678)). vm_compute. discriminate.
Defined.

(** X3.  A credential with a signature [>= 0] survives
    [serialize_credential] followed by [deserialize_credential]. *)
Theorem credential_roundtrip (token : bytes) (signature_int : Z) :
  0 <= signature_int ->
  Transport.deserialize_credential (Transport.serialize_credential token signature_int)
  = Some (token, signature_int).
Proof.
  intros Hs. unfold Transport.deserialize_credential, Transport.serialize_credential.
  rewrite lookup_insert_eq. unfold BlindSignature.hex_to_token, BlindSignature.token_to_hex.
  rewrite fromhex_hex.
  rewrite lookup_insert_ne by discriminate.
  rewrite lookup_insert_eq, b64_to_int_int_to_b64 by exact Hs.
  reflexivity.
Qed.

Lemma credential_roundtrip_witness :
  Transport.deserialize_credential
    (Transport.serialize_credential Examples.demo_token 2061)
  = Some (Examples.demo_token, 2061).
Proof.
  apply (credential_roundtrip Examples.demo_token 2061). vm_compute. discriminate.
Defined.

(** ** The shape of a token hash *)

Lemma length_int_to_bytes (len : nat) : forall x, List.length (int_to_bytes len x) = len.
Proof.
  induction len as [|len IH]; intros x; cbn [int_to_bytes].
  - reflexivity.
  - rewrite List.length_app, IH. cbn. lia.
Qed.

Lemma compress_chain_length (blocks : list (list Z)) : forall h,
  List.length h = 8%nat ->
  List.length (fold_left Sha256.compress blocks h) = 8%nat.
Proof.
  induction blocks as [|b blocks IH]; intros h Hh; cbn [fold_left].
  - exact Hh.
  - apply IH. reflexivity.
Qed.

Lemma digest_length (msg : bytes) : List.length (Sha256.digest msg) = 32%nat.
Proof.
  unfold Sha256.digest. cbv zeta.
  set (h := fold_left Sha256.compress _ Sha256.H0).
  assert (Hh : List.length h = 8%nat) by (apply compress_chain_length; reflexivity).
  clearbody h.
  do 9 (destruct h as [|? h]; try discriminate Hh).
  cbn [flat_map]. rewrite !List.length_app, !length_int_to_bytes. reflexivity.
Qed.

Lemma hex_pair_shape (b : byte) (rest : string) :
  PyStr.all Transport.is_lower_hex
    (String (Sha256.hex_digit (byte_to_Z b / 16))
       (String (Sha256.hex_digit (byte_to_Z b mod 16)) rest))
  = PyStr.all Transport.is_lower_hex rest.
Proof. destruct b; reflexivity. Qed.

Lemma hex_shape (bs : bytes) :
  String.length (Sha256.hex bs) = (2 * List.length bs)%nat /\
  PyStr.all Transport.is_lower_hex (Sha256.hex bs) = true.
Proof.
  unfold Sha256.hex. induction bs as [|b bs [IHl IHc]].
  - split; reflexivity.
  - cbn [flat_map app string_of_list_ascii]. split.
    + cbn [String.length List.length]. rewrite IHl. lia.
    + rewrite hex_pair_shape. exact IHc.
Qed.

(** X4.  [token_hash] always yields 64 characters, all of them lowercase
    hexadecimal digits, and [hex_to_token] reads them back as the 32 bytes
    of the digest. *)
Theorem token_hash_shape (token : bytes) :
  String.length (BlindSignature.token_hash token) = 64%nat /\
  PyStr.all Transport.is_lower_hex (BlindSignature.token_hash token) = true /\
  BlindSignature.hex_to_token (BlindSignature.token_hash token)
    = Some (Sha256.digest token).
Proof.
  unfold BlindSignature.token_hash, Sha256.hexdigest.
  destruct (hex_shape (Sha256.digest token)) as [Hl Hc].
  rewrite digest_length in Hl.
  repeat apply conj; [exact Hl|exact Hc|apply fromhex_hex].
Qed.

(** ** What the issuer's signature is *)

Section Signature.
Import BlindSignature.

Lemma draw_blinding_factor_range (n : Z) (draws : list bytes) (r : Z) :
  0 < n -> draw_blinding_factor n draws = Some r -> 1 < r < n.
Proof.
  intros Hn. induction draws as [|d0 rest IH]; cbn [draw_blinding_factor].
  - discriminate.
  - destruct (Z.ltb_spec 1 (int_from_bytes d0 mod n)) as [Hlt|Hge]; cbn [andb].
    + destruct (negb _); [|exact IH].
      intros [= <-]. pose proof (Z.mod_pos_bound (int_from_bytes d0) n Hn). lia.
    + exact IH.
Qed.

Variables (priv : PrivateKey) (pub : PublicKey).
Hypothesis Hpair : rsa_keypair priv pub.

Let n := pub_n pub.
Let e := pub_e pub.
Let d := priv_d priv.

Lemma key_facts :
  1 < n /\ 0 < e /\ 0 < d /\ priv_n priv = n /\
  (forall x, (x ^ (e * d)) mod n = x mod n).
Proof.
  pose proof (pub_modulus_gt_1 priv pub Hpair) as Hn1.
  destruct (pub_is_publickey priv pub Hpair) as [Hn He].
  destruct Hpair as [Hwf _].
  repeat apply conj.
  - exact Hn1.
  - subst e. rewrite He. destruct Hwf as (_ & _ & _ & _ & H & _). exact H.
  - subst d. destruct Hwf as (_ & _ & _ & _ & _ & H & _). exact H.
  - subst n. now rewrite Hn.
  - intros x. subst n e d. rewrite Hn, He. now apply rsa_correct.
Qed.

(** The signature of a blinded value is the signature of the value, times
    the blinding factor. *)
Lemma blind_signature_value (m r : Z) :
  pow_mod ((m * pow_mod r e n) mod n) d n = (m ^ d * r) mod n.
Proof.
  destruct key_facts as (Hn1 & He0 & Hd0 & _ & Hrsa).
  unfold pow_mod.
  rewrite Z.mod_pow_l, Z.pow_mul_l.
  rewrite <- Z.mul_mod_idemp_r by lia.
  rewrite Z.mod_pow_l, <- Z.pow_mul_r, Hrsa by lia.
  now rewrite Z.mul_mod_idemp_r by lia.
Qed.

Lemma blind_token_value (token blinded : bytes) (draws : list bytes) (r : Z) :
  blind_token token pub draws = Some (blinded, r) ->
  1 < r < n /\
  int_from_bytes blinded = (hash_to_int token n * pow_mod r e n) mod n.
Proof.
  destruct key_facts as (Hn1 & _). unfold blind_token. fold n e.
  destruct (draw_blinding_factor n draws) as [r0|] eqn:Hdraw; [|discriminate].
  intros [= <- <-]. split.
  - apply (draw_blinding_factor_range n draws); [lia|exact Hdraw].
  - apply int_bytes_roundtrip. apply Z.mod_pos_bound. lia.
Qed.

Lemma unblind_value (token blinded : bytes) (draws : list bytes) (r : Z) :
  blind_token token pub draws = Some (blinded, r) ->
  Z.gcd r n = 1 ->
  unblind_signature (blind_sign blinded priv) r pub
  = Some (pow_mod (hash_to_int token n) d n).
Proof.
  intros Hblind Hr.
  destruct key_facts as (Hn1 & He0 & Hd0 & Hn & Hrsa).
  destruct (blind_token_value _ _ _ _ Hblind) as [Hrange Hval].
  unfold unblind_signature, mod_inverse, blind_sign. fold n. rewrite Hn. fold d.
  rewrite Hr, Hval, blind_signature_value. cbn [Z.eqb Pos.eqb]. f_equal.
  assert (Hinv : (Z.invmod r n * r) mod n = 1) by (apply Z.invmod_coprime; [lia|exact Hr]).
  unfold pow_mod.
  rewrite Z.mul_mod_idemp_l, <- Z.mul_assoc, <- Z.mul_mod_idemp_r by lia.
  rewrite (Z.mul_comm r), Hinv, Z.mul_1_r. reflexivity.
Qed.

Lemma verify_value (token : bytes) (s : Z) :
  verify_signature token s pub = true <->
  s mod n = pow_mod (hash_to_int token n) d n.
Proof.
  destruct key_facts as (Hn1 & He0 & Hd0 & _ & Hrsa).
  unfold verify_signature, pow_mod. fold n e. rewrite Z.eqb_eq. split.
  - intros Hv. rewrite <- Hv, Z.mod_pow_l, <- Z.pow_mul_r by lia. now rewrite Hrsa.
  - intros Hs. rewrite <- Z.mod_pow_l, Hs, Z.mod_pow_l, <- Z.pow_mul_r by lia.
    rewrite (Z.mul_comm d e), Hrsa. apply Z.mod_small.
    unfold hash_to_int. apply Z.mod_pos_bound. lia.
Qed.

Lemma blind_sign_injective_on_factors (token b1 b2 : bytes) (draws1 draws2 : list bytes)
    (r1 r2 : Z) :
  Z.gcd (hash_to_int token n) n = 1 ->
  blind_token token pub draws1 = Some (b1, r1) ->
  blind_token token pub draws2 = Some (b2, r2) ->
  blind_sign b1 priv = blind_sign b2 priv ->
  r1 = r2.
Proof.
  intros Hm H1 H2 Hsig.
  destruct key_facts as (Hn1 & He0 & Hd0 & Hn & Hrsa).
  destruct (blind_token_value _ _ _ _ H1) as [Hr1 Hv1].
  destruct (blind_token_value _ _ _ _ H2) as [Hr2 Hv2].
  unfold blind_sign in Hsig. rewrite Hn in Hsig. fold d in Hsig.
  rewrite Hv1, Hv2, !blind_signature_value in Hsig.
  apply Z.cong_iff_0 in Hsig.
  replace (hash_to_int token n ^ d * r1 - hash_to_int token n ^ d * r2)
    with ((r1 - r2) * hash_to_int token n ^ d) in Hsig by ring.
  apply Z.cong_mul_cancel_r_coprime in Hsig; [|lia|apply Z.coprime_pow_l; [lia|exact Hm]].
  apply Z.cong_iff_0 in Hsig.
  rewrite !Z.mod_small in Hsig by lia. exact Hsig.
Qed.

End Signature.

(** X5.  Whatever coprime blinding factor was drawn, unblinding the issuer's
    signature of the blinded token gives [H(token)^d mod n], the signature
    the issuer would compute on the token itself. *)
Theorem unblinded_is_rsa_signature
    (priv : BlindSignature.PrivateKey) (pub : BlindSignature.PublicKey)
    (token blinded : bytes) (draws : list bytes) (r : Z) :
  BlindSignature.rsa_keypair priv pub ->
  BlindSignature.blind_token token pub draws = Some (blinded, r) ->
  Z.gcd r (BlindSignature.pub_n pub) = 1 ->
  BlindSignature.unblind_signature (BlindSignature.blind_sign blinded priv) r pub
  = Some (BlindSignature.pow_mod
            (BlindSignature.hash_to_int token (BlindSignature.pub_n pub))
            (BlindSignature.priv_d priv) (BlindSignature.pub_n pub)).
Proof. intros Hpair. apply (unblind_value priv pub Hpair). Qed.

Lemma unblinded_is_rsa_signature_witness :
  BlindSignature.unblind_signature
    (BlindSignature.blind_sign
       (int_to_bytes 2 1812) Examples.demo_priv) 1000 Examples.demo_pub
  = Some (BlindSignature.pow_mod
            (BlindSignature.hash_to_int Examples.demo_token
               (BlindSignature.pub_n Examples.demo_pub))
            (BlindSignature.priv_d Examples.demo_priv)
            (BlindSignature.pub_n Examples.demo_pub)).
Proof.
  apply (unblinded_is_rsa_signature Examples.demo_priv Examples.demo_pub
           Examples.demo_token (int_to_bytes 2 1812) Examples.draws_coprime 1000).
  - exact demo_keypair.
  - vm_compute. reflexivity.
  - vm_compute. reflexivity.
Defined.

(** X6.  Under an RSA keypair [verify_signature] accepts exactly the integers
    congruent to [H(token)^d] modulo [n]; so two accepted signatures in
    [[0, n)] are equal, and any other value in that range is refused. *)
Theorem verify_signature_iff
    (priv : BlindSignature.PrivateKey) (pub : BlindSignature.PublicKey)
    (token : bytes) (s : Z) :
  BlindSignature.rsa_keypair priv pub ->
  (BlindSignature.verify_signature token s pub = true <->
   s mod BlindSignature.pub_n pub
   = BlindSignature.pow_mod
       (BlindSignature.hash_to_int token (BlindSignature.pub_n pub))
       (BlindSignature.priv_d priv) (BlindSignature.pub_n pub)) /\
  (forall s',
     0 <= s < BlindSignature.pub_n pub -> 0 <= s' < BlindSignature.pub_n pub ->
     BlindSignature.verify_signature token s pub = true ->
     BlindSignature.verify_signature token s' pub = true ->
     s = s').
Proof.
  intros Hpair. split.
  - apply (verify_value priv pub Hpair).
  - intros s' Hs Hs' Hv Hv'.
    apply (verify_value priv pub Hpair) in Hv, Hv'.
    rewrite <- Hv' in Hv. now rewrite !Z.mod_small in Hv by assumption.
Qed.

Lemma verify_signature_iff_witness :
  (BlindSignature.verify_signature Examples.demo_token 2027 Examples.demo_pub = true <->
   2027 mod BlindSignature.pub_n Examples.demo_pub
   = BlindSignature.pow_mod
       (BlindSignature.hash_to_int Examples.demo_token
          (BlindSignature.pub_n Examples.demo_pub))
       (BlindSignature.priv_d Examples.demo_priv)
       (BlindSignature.pub_n Examples.demo_pub)) /\
  (forall s',
     0 <= 2027 < BlindSignature.pub_n Examples.demo_pub ->
     0 <= s' < BlindSignature.pub_n Examples.demo_pub ->
     BlindSignature.verify_signature Examples.demo_token 2027 Examples.demo_pub = true ->
     BlindSignature.verify_signature Examples.demo_token s' Examples.demo_pub = true ->
     2027 = s').
Proof.
  apply (verify_signature_iff Examples.demo_priv Examples.demo_pub Examples.demo_token 2027).
  exact demo_keypair.
Defined.

(** X7.  For a token whose hash is invertible modulo [n], two different
    blinding factors give different blinded messages and different blind
    signatures: what the issuer sees and returns changes with the factor. *)
Theorem distinct_factors_distinct_blindings
    (priv : BlindSignature.PrivateKey) (pub : BlindSignature.PublicKey)
    (token b1 b2 : bytes) (draws1 draws2 : list bytes) (r1 r2 : Z) :
  BlindSignature.rsa_keypair priv pub ->
  Z.gcd (BlindSignature.hash_to_int token (BlindSignature.pub_n pub))
        (BlindSignature.pub_n pub) = 1 ->
  BlindSignature.blind_token token pub draws1 = Some (b1, r1) ->
  BlindSignature.blind_token token pub draws2 = Some (b2, r2) ->
  r1 <> r2 ->
  b1 <> b2 /\ BlindSignature.blind_sign b1 priv <> BlindSignature.blind_sign b2 priv.
Proof.
  intros Hpair Hm H1 H2 Hne.
  assert (Hsig : BlindSignature.blind_sign b1 priv <> BlindSignature.blind_sign b2 priv).
  { intros Heq. apply Hne.
    exact (blind_sign_injective_on_factors priv pub Hpair token b1 b2 draws1 draws2
             r1 r2 Hm H1 H2 Heq). }
  split; [|exact Hsig]. intros ->. now apply Hsig.
Qed.

Lemma distinct_factors_distinct_blindings_witness :
  int_to_bytes 2 1812 <> int_to_bytes 2 679 /\
  BlindSignature.blind_sign (int_to_bytes 2 1812) Examples.demo_priv
  <> BlindSignature.blind_sign (int_to_bytes 2 679) Examples.demo_priv.
Proof.
  apply (distinct_factors_distinct_blindings Examples.demo_priv Examples.demo_pub
           Examples.demo_token (int_to_bytes 2 1812) (int_to_bytes 2 679)
           Examples.draws_coprime [Examples.urandom 7] 1000 7).
  - exact demo_keypair.
  - vm_compute. reflexivity.
  - vm_compute. reflexivity.
  - vm_compute. reflexivity.
  - discriminate.
Defined.

(** ** The registry store *)

Section RegistryStore.
Import BlindSignature Database VoterRegistry.

Lemma seed_eligible_voters_set (ids : list string) (db : Db) :
  eligible_voters (seed_eligible_voters ids db) = eligible_voters db ∪ list_to_set ids.
Proof.
  unfold seed_eligible_voters. cbn [eligible_voters].
  generalize (eligible_voters db) as s.
  induction ids as [|i ids IH]; intros s; cbn [foldl list_to_set].
  - set_solver.
  - rewrite IH. set_solver.
Qed.

(** Either nothing happens to the store, or the call succeeded for an
    eligible voter without a token and registered that voter. *)
Lemma issue_blind_token_cases (vid b now : string) (db : Db) :
  (exists err, issue_blind_token vid b now db = (db, IssueErr err)) \/
  (exists sig,
     issue_blind_token vid b now db = (register_voter vid now db, IssueOk sig) /\
     is_eligible vid db = true /\ has_token_issued vid db = false).
Proof.
  unfold issue_blind_token.
  destruct (is_eligible vid db); cbn [negb]; [|left; eauto].
  destruct (has_token_issued vid db); [left; eauto|].
  destruct (get_issuer_keys db) as [[priv pub]|]; [|left; eauto].
  destruct (Codec.b64decode b); [right; eauto|left; eauto].
Qed.

Lemma register_voter_row (vid now : string) (db : Db) (v : string) (row : VoterRow) :
  voters (register_voter vid now db) !! v = Some row ->
  voters db !! v = Some row \/ (v = vid /\ token_issued row = 1).
Proof.
  destruct (decide (v = vid)) as [->|Hne].
  - unfold register_voter.
    destruct (voters db !! vid) as [old|] eqn:E.
    + destruct (Z.eqb_spec (token_issued old) 0).
      * cbn [voters]. rewrite lookup_insert_eq. intros [= <-]. right. auto.
      * rewrite E. intros [= <-]. left. reflexivity.
    + cbn [voters]. rewrite lookup_insert_eq. intros [= <-]. right. auto.
  - rewrite register_voter_other by exact Hne. auto.
Qed.

(** Through the entry points of the registry module, a row of [voters]
    belongs to an eligible voter and has its flag at 1. *)
Lemma rows_invariant (history : list op) :
  forallb registry_level history = true ->
  forall v row,
    voters (run_ops history empty_db) !! v = Some row ->
    v ∈ eligible_voters (run_ops history empty_db) /\ token_issued row = 1.
Proof.
  induction history as [|o history IH] using rev_ind; intros Hall v row.
  - cbn. rewrite lookup_empty. discriminate.
  - rewrite forallb_app in Hall. apply andb_true_iff in Hall as [Hh Ho].
    cbn in Ho. rewrite andb_true_r in Ho. specialize (IH Hh).
    rewrite run_ops_snoc. set (db := run_ops history empty_db) in *.
    destruct o as [ids fresh now| |vid b now|vid| |ids|vid now|priv pub now];
      cbn [run_op]; try discriminate Ho; try apply IH.
    + destruct (bootstrap_store ids fresh now db) as (-> & _ & Hsub).
      intros Hrow. destruct (IH v row Hrow) as [Hel Hflag]. split; [|exact Hflag].
      now apply Hsub.
    + destruct (issue_blind_token_cases vid b now db)
        as [[err ->]|(sig & -> & Helig & _)]; cbn [fst]; [apply IH|].
      rewrite (proj2 (register_voter_frame vid now db)).
      intros Hrow. apply register_voter_row in Hrow as [Hrow|[-> Hflag]].
      * now apply IH.
      * split; [|exact Hflag]. now apply bool_decide_eq_true in Helig.
Qed.

End RegistryStore.

(** X8.  [issue_blind_token] either fails and leaves the store exactly as it
    was, or succeeds; it succeeds only for an eligible voter without a
    token, and then marks that voter and touches nothing else: the other
    rows, the issuer keys and the eligible set are unchanged. *)
Theorem issue_blind_token_effect (voter_id blinded_b64 now : string) (db : Database.Db) :
  (forall err,
     snd (VoterRegistry.issue_blind_token voter_id blinded_b64 now db)
       = VoterRegistry.IssueErr err ->
     fst (VoterRegistry.issue_blind_token voter_id blinded_b64 now db) = db) /\
  (forall sig,
     snd (VoterRegistry.issue_blind_token voter_id blinded_b64 now db)
       = VoterRegistry.IssueOk sig ->
     let db' := fst (VoterRegistry.issue_blind_token voter_id blinded_b64 now db) in
     Database.is_eligible voter_id db = true /\
     Database.has_token_issued voter_id db = false /\
     Database.has_token_issued voter_id db' = true /\
     (forall v, v <> voter_id -> Database.voters db' !! v = Database.voters db !! v) /\
     Database.issuer_keys db' = Database.issuer_keys db /\
     Database.eligible_voters db' = Database.eligible_voters db).
Proof.
  destruct (issue_blind_token_cases voter_id blinded_b64 now db)
    as [[err Herr]|(sig & Hok & Helig & Hfresh)].
  - rewrite Herr. cbn [fst snd]. split; [reflexivity|discriminate].
  - rewrite Hok. cbn [fst snd]. split; [discriminate|].
    intros _ _. cbv zeta. repeat apply conj; try assumption.
    + apply register_voter_issued.
    + intros v Hv. now apply register_voter_other.
    + apply register_voter_frame.
    + apply register_voter_frame.
Qed.

(** X9.  In every store reached from the empty database through the
    registry's entry points, each row of [voters] belongs to a voter of the
    eligible set and has [token_issued = 1]: no ineligible voter is ever
    registered. *)
Theorem registered_voters_are_eligible
    (history : list VoterRegistry.op) (v : string) (row : Database.VoterRow) :
  forallb VoterRegistry.registry_level history = true ->
  Database.voters (VoterRegistry.run_ops history Database.empty_db) !! v = Some row ->
  Database.is_eligible v (VoterRegistry.run_ops history Database.empty_db) = true /\
  Database.token_issued row = 1.
Proof.
  intros Hall Hrow. destruct (rows_invariant history Hall v row Hrow) as [Hel Hflag].
  split; [|exact Hflag]. unfold Database.is_eligible. now apply bool_decide_eq_true.
Qed.

Lemma registered_voters_are_eligible_witness :
  let history :=
    [VoterRegistry.OpBootstrap ["VOTER_001"; "VOTER_002"; "VOTER_003"]%string
       Examples.demo_priv Examples.clock0;
     VoterRegistry.OpIssue "VOTER_002" Examples.blinded_b64 Examples.clock1] in
  Database.is_eligible "VOTER_002" (VoterRegistry.run_ops history Database.empty_db) = true /\
  Database.token_issued
    (Database.mkVoterRow Examples.clock1 1 (Some Examples.clock1)) = 1.
Proof.
  apply (registered_voters_are_eligible
           [VoterRegistry.OpBootstrap ["VOTER_001"; "VOTER_002"; "VOTER_003"]%string
              Examples.demo_priv Examples.clock0;
            VoterRegistry.OpIssue "VOTER_002" Examples.blinded_b64 Examples.clock1]
           "VOTER_002"
           (Database.mkVoterRow Examples.clock1 1 (Some Examples.clock1))).
  - reflexivity.
  - vm_compute. reflexivity.
Defined.

(** X10.  [bootstrap] generates keys only when none are stored: a second
    [bootstrap], whatever key [RSA.generate] would draw for it, returns the
    public key of the first one and leaves the stored keys as they are, and
    [get_public_key] returns that key. *)
Theorem bootstrap_keeps_keys
    (ids1 ids2 : list string) (fresh1 fresh2 : BlindSignature.PrivateKey)
    (now1 now2 : string) (db : Database.Db) :
  let '(db1, pk1) := VoterRegistry.bootstrap ids1 fresh1 now1 db in
  let '(db2, pk2) := VoterRegistry.bootstrap ids2 fresh2 now2 db1 in
  pk2 = pk1 /\
  Database.issuer_keys db2 = Database.issuer_keys db1 /\
  VoterRegistry.get_public_key db1 = Some pk1 /\
  VoterRegistry.get_public_key db2 = Some pk1.
Proof.
  unfold VoterRegistry.bootstrap, VoterRegistry.get_public_key, Database.init_db,
    Database.get_issuer_keys, VoterRegistry.generate_keypair,
    Database.store_issuer_keys, Database.seed_eligible_voters.
  destruct (Database.issuer_keys db) as [row|] eqn:E;
    destruct ids1 as [|i1 ids1]; destruct ids2 as [|i2 ids2];
    cbn; rewrite ?E; cbn; repeat apply conj; reflexivity.
Qed.

(** X11.  After [seed_eligible_voters(ids)] a voter is eligible exactly when
    it was eligible before or is one of [ids]; seeding the same ids again
    changes nothing, and rows and keys are never touched. *)
Theorem seed_eligible_voters_membership (ids : list string) (v : string) (db : Database.Db) :
  Database.is_eligible v (Database.seed_eligible_voters ids db)
    = Database.is_eligible v db || bool_decide (v ∈ ids) /\
  Database.seed_eligible_voters ids (Database.seed_eligible_voters ids db)
    = Database.seed_eligible_voters ids db /\
  Database.voters (Database.seed_eligible_voters ids db) = Database.voters db /\
  Database.issuer_keys (Database.seed_eligible_voters ids db) = Database.issuer_keys db.
Proof.
  repeat apply conj; try reflexivity.
  - unfold Database.is_eligible. rewrite seed_eligible_voters_set.
    apply eq_true_iff_eq.
    rewrite orb_true_iff, !bool_decide_eq_true, elem_of_union, elem_of_list_to_set.
    reflexivity.
  - pose proof (seed_eligible_voters_set ids (Database.seed_eligible_voters ids db)) as H2.
    pose proof (seed_eligible_voters_set ids db) as H1.
    destruct (Database.seed_eligible_voters ids db) as [vs ks es] eqn:E1.
    destruct (Database.seed_eligible_voters ids (Database.mkDb vs ks es)) as [vs' ks' es'] eqn:E2.
    unfold Database.seed_eligible_voters in E1, E2.
    injection E1 as <- <- E1. injection E2 as <- <- E2.
    cbn [Database.eligible_voters] in H1, H2. f_equal.
    rewrite H2, H1. set_solver.
Qed.

(** X12.  [register_voter] never overwrites an issued token: registering a
    registered voter again, at any later time, leaves the store, and with it
    the time of issuance, exactly as the first registration left it. *)
Theorem register_voter_idempotent (voter_id now1 now2 : string) (db : Database.Db) :
  Database.register_voter voter_id now2 (Database.register_voter voter_id now1 db)
  = Database.register_voter voter_id now1 db.
Proof.
  pose proof (register_voter_issued voter_id now1 db) as Hissued.
  unfold Database.has_token_issued in Hissued.
  set (db1 := Database.register_voter voter_id now1 db) in *.
  unfold Database.register_voter at 1.
  destruct (Database.voters db1 !! voter_id) as [row|]; [|discriminate].
  apply negb_true_iff in Hissued. now rewrite Hissued.
Qed.

(** X13.  In every store reached through the registry's entry points,
    [voter_status] reports the eligibility of the voter as the eligible set
    has it, and reports it registered exactly when its token has been
    issued; an id that is neither seeded nor registered is reported with
    all three flags false. *)
Theorem voter_status_reachable (history : list VoterRegistry.op) (v : string) :
  forallb VoterRegistry.registry_level history = true ->
  let db := VoterRegistry.run_ops history Database.empty_db in
  let status := VoterRegistry.voter_status v db in
  Database.st_voter_id status = v /\
  Database.st_eligible status = Database.is_eligible v db /\
  Database.st_registered status = Database.has_token_issued v db /\
  Database.st_token_issued status = Database.has_token_issued v db.
Proof.
  intros Hall db status. subst status.
  pose proof (rows_invariant history Hall v) as Hrows.
  fold db in Hrows.
  unfold VoterRegistry.voter_status, Database.get_voter_status, Database.has_token_issued.
  destruct (Database.voters db !! v) as [row|] eqn:E; cbn.
  - destruct (Hrows row eq_refl) as [Hel Hflag].
    unfold Database.is_eligible. rewrite (bool_decide_eq_true_2 _ Hel), Hflag.
    repeat apply conj; reflexivity.
  - repeat apply conj; reflexivity.
Qed.

Lemma voter_status_reachable_witness :
  let history :=
    [VoterRegistry.OpBootstrap ["VOTER_001"; "VOTER_002"; "VOTER_003"]%string
       Examples.demo_priv Examples.clock0;
     VoterRegistry.OpIssue "VOTER_002" Examples.blinded_b64 Examples.clock1] in
  let db := VoterRegistry.run_ops history Database.empty_db in
  let status := VoterRegistry.voter_status "VOTER_002" db in
  Database.st_voter_id status = "VOTER_002"%string /\
  Database.st_eligible status = Database.is_eligible "VOTER_002" db /\
  Database.st_registered status = Database.has_token_issued "VOTER_002" db /\
  Database.st_token_issued status = Database.has_token_issued "VOTER_002" db.
Proof.
  apply (voter_status_reachable
           [VoterRegistry.OpBootstrap ["VOTER_001"; "VOTER_002"; "VOTER_003"]%string
              Examples.demo_priv Examples.clock0;
            VoterRegistry.OpIssue "VOTER_002" Examples.blinded_b64 Examples.clock1]
           "VOTER_002").
  reflexivity.
Defined.

(** X14.  Issuance and the protocol fit together: when the store holds an
    RSA keypair and an eligible voter without a token sends the base64 text
    of a message blinded with a factor coprime to [n], [issue_blind_token]
    succeeds, and the text it returns decodes to a blind signature whose
    unblinding is accepted by [verify_signature] for the voter's token. *)
Theorem issued_credential_verifies
    (db : Database.Db) (priv : BlindSignature.PrivateKey) (pub : BlindSignature.PublicKey)
    (voter_id now : string) (token blinded : bytes) (draws : list bytes) (r : Z) :
  Database.get_issuer_keys db = Some (priv, pub) ->
  BlindSignature.rsa_keypair priv pub ->
  Database.is_eligible voter_id db = true ->
  Database.has_token_issued voter_id db = false ->
  BlindSignature.blind_token token pub draws = Some (blinded, r) ->
  Z.gcd r (BlindSignature.pub_n pub) = 1 ->
  exists blind_sig_b64 blind_sig sig,
    VoterRegistry.issue_blind_token voter_id (Codec.b64encode blinded) now db
      = (Database.register_voter voter_id now db, VoterRegistry.IssueOk blind_sig_b64) /\
    BlindSignature.b64_to_int blind_sig_b64 = Some blind_sig /\
    BlindSignature.unblind_signature blind_sig r pub = Some sig /\
    BlindSignature.verify_signature token sig pub = true.
Proof.
  intros Hkeys Hpair Helig Hfresh Hblind Hr.
  destruct (key_facts priv pub Hpair) as (Hn1 & _ & _ & Hn & _).
  unfold VoterRegistry.issue_blind_token.
  rewrite Helig, Hfresh, Hkeys, b64decode_b64encode. cbn [negb].
  eexists _, (BlindSignature.blind_sign blinded priv), _.
  split; [reflexivity|]. split.
  - apply b64_to_int_int_to_b64. unfold BlindSignature.blind_sign, BlindSignature.pow_mod.
    rewrite Hn. apply Z.mod_pos_bound. lia.
  - split.
    + exact (unblind_value priv pub Hpair token blinded draws r Hblind Hr).
    + apply (verify_value priv pub Hpair). apply Z.mod_small.
      unfold BlindSignature.pow_mod. apply Z.mod_pos_bound. lia.
Qed.

Lemma issued_credential_verifies_witness :
  exists blind_sig_b64 blind_sig sig,
    VoterRegistry.issue_blind_token "VOTER_001"
      (Codec.b64encode (int_to_bytes 2 1812)) Examples.clock1 Examples.registry0
      = (Database.register_voter "VOTER_001" Examples.clock1 Examples.registry0,
         VoterRegistry.IssueOk blind_sig_b64) /\
    BlindSignature.b64_to_int blind_sig_b64 = Some blind_sig /\
    BlindSignature.unblind_signature blind_sig 1000 Examples.demo_pub = Some sig /\
    BlindSignature.verify_signature Examples.demo_token sig Examples.demo_pub = true.
Proof.
  apply (issued_credential_verifies Examples.registry0 Examples.demo_priv Examples.demo_pub
           "VOTER_001" Examples.clock1 Examples.demo_token (int_to_bytes 2 1812)
           Examples.draws_coprime 1000).
  - vm_compute. reflexivity.
  - exact demo_keypair.
  - vm_compute. reflexivity.
  - vm_compute. reflexivity.
  - vm_compute. reflexivity.
  - vm_compute. reflexivity.
Defined.

(** ** The ledger over a run of calls *)

Section LedgerRun.
Import Ledger LedgerSpec LedgerRuns.

Lemma to_from_dict (data : BlockDict) : to_dict (from_dict data) = data.
Proof. destruct data. reflexivity. Qed.

Lemma from_to_dict (b : Block) : from_dict (to_dict b) = b.
Proof. destruct b. reflexivity. Qed.

Lemma map_to_from_dict (data : list BlockDict) : map to_dict (map from_dict data) = data.
Proof.
  induction data as [|d data IH]; cbn [map]; [reflexivity|].
  now rewrite to_from_dict, IH.
Qed.

Lemma map_from_to_dict (blocks : list Block) : map from_dict (map to_dict blocks) = blocks.
Proof.
  induction blocks as [|b blocks IH]; cbn [map]; [reflexivity|].
  now rewrite from_to_dict, IH.
Qed.

(** The three ways a call of [cast_vote] ends. *)
Lemma cast_vote_cases (fuel : nat) (th c sig t_vote t_block : string)
    (bc bc' : Blockchain) (result : cast_result) :
  cast_vote fuel th c sig t_vote t_block bc = Some (bc', result) ->
  (exists err, result = Rejected err /\ bc' = bc) \/
  (result = RaisedIndexError /\ chain bc = [] /\
   c ∈ CANDIDATES /\ th ∉ spent_tokens bc /\
   bc' = mkBlockchain [] (pending_votes bc ++ [mkVote th c t_vote sig])
           (spent_tokens bc ∪ {[th]}) (chain_file bc)) \/
  (exists tip b,
     result = Accepted (hash b) (index b) /\
     last (chain bc) = Some tip /\
     c ∈ CANDIDATES /\ th ∉ spent_tokens bc /\
     bc' = save (mkBlockchain (chain bc ++ [b]) [] (spent_tokens bc ∪ {[th]})
                   (chain_file bc)) /\
     has_pow b = true /\ hash b = compute_hash b /\
     index b = Z.of_nat (List.length (chain bc)) /\
     votes b = [mkVote th c t_vote sig] /\ previous_hash b = hash tip).
Proof.
  unfold cast_vote.
  destruct (bool_decide (c ∈ CANDIDATES)) eqn:Hc; cbn [negb];
    [|intros [= <- <-]; left; eauto].
  destruct (bool_decide (th ∈ spent_tokens bc)) eqn:Hs;
    [intros [= <- <-]; left; eauto|].
  apply bool_decide_eq_true in Hc. apply bool_decide_eq_false in Hs.
  destruct (last (chain bc)) as [tip|] eqn:Htip.
  - destruct (proof_of_work _ _) as [b|] eqn:Hpow; [|discriminate].
    intros [= <- <-]. right. right.
    apply proof_of_work_sound in Hpow; [|reflexivity].
    destruct Hpow as (Hp & Hh & Hi & _ & Hv & Hprev).
    exists tip, b. repeat apply conj; auto.
  - intros [= <- <-]. right. left.
    apply last_None in Htip. rewrite Htip. repeat apply conj; auto.
Qed.

Lemma is_valid_chain_snoc (blocks : list Block) (tip b : Block) :
  last blocks = Some tip ->
  hash b = compute_hash b -> previous_hash b = hash tip ->
  is_valid_chain blocks = true ->
  is_valid_chain (blocks ++ [b]) = true.
Proof.
  intros Htip Hh Hprev Hvalid.
  rewrite is_valid_chain_linked in Hvalid |- *.
  intros i Hi. rewrite List.length_app in Hi. cbn [List.length] in Hi.
  destruct (decide (i < List.length blocks)%nat) as [Hlt|Hge].
  - intros current previous Hcur Hpre.
    rewrite lookup_app_l in Hcur by exact Hlt.
    rewrite lookup_app_l in Hpre by lia.
    apply (Hvalid i); [lia|exact Hcur|exact Hpre].
  - assert (i = List.length blocks) as -> by lia.
    intros current previous Hcur Hpre.
    rewrite lookup_app_r in Hcur by lia.
    replace (List.length blocks - List.length blocks)%nat with 0%nat in Hcur by lia.
    injection Hcur as <-.
    rewrite lookup_app_l in Hpre by lia.
    rewrite last_lookup in Htip.
    replace (Nat.pred (List.length blocks)) with (List.length blocks - 1)%nat in Htip by lia.
    rewrite Htip in Hpre. injection Hpre as <-.
    split; assumption.
Qed.

Lemma load_or_init_settled (file : ChainFile) (now : string) :
  (forall spent, file <> FileDoc [] spent) ->
  settled (load_or_init file now).
Proof.
  intros Hfile. unfold load_or_init.
  assert (Hgen : forall spent f, settled (init_genesis now spent f)).
  { intros spent f. repeat apply conj; try reflexivity. discriminate. }
  destruct file as [| |data spent]; try apply Hgen.
  destruct (is_valid _) eqn:Hvalid; cbn [negb]; [|apply Hgen].
  repeat apply conj; cbn [chain pending_votes spent_tokens chain_file].
  - destruct data; [now destruct (Hfile spent)|discriminate].
  - exact Hvalid.
  - reflexivity.
  - now rewrite map_to_from_dict.
Qed.

Lemma cast_vote_settled (fuel : nat) (th c sig t_vote t_block : string)
    (bc bc' : Blockchain) (result : cast_result) :
  settled bc ->
  cast_vote fuel th c sig t_vote t_block bc = Some (bc', result) ->
  settled bc' /\ result <> RaisedIndexError.
Proof.
  intros (Hne & Hvalid & Hpend & Hfile) Hcast.
  destruct (cast_vote_cases _ _ _ _ _ _ _ _ _ Hcast)
    as [(err & -> & ->)|[(_ & Hempty & _)|(tip & b & -> & Htip & _ & _ & -> & _ & Hh & _ & _ & Hprev)]].
  - split; [repeat apply conj; assumption|discriminate].
  - contradiction.
  - split; [|discriminate]. unfold settled, save, is_valid.
    cbn [chain pending_votes spent_tokens chain_file].
    repeat apply conj; try reflexivity.
    + destruct (chain bc); discriminate.
    + now apply (is_valid_chain_snoc _ tip).
Qed.

Lemma reaches_settled (start bc : Blockchain) :
  settled start -> reaches start bc -> settled bc.
Proof.
  intros Hstart Hreach. induction Hreach as [|bc fuel th c sig t1 t2 bc' r _ IH Hcast].
  - exact Hstart.
  - exact (proj1 (cast_vote_settled _ _ _ _ _ _ _ _ _ IH Hcast)).
Qed.

Lemma settled_reload (bc : Blockchain) (now : string) :
  settled bc -> load_or_init (chain_file bc) now = bc.
Proof.
  intros (_ & Hvalid & Hpend & Hfile).
  destruct bc as [ch pend spent file]. unfold is_valid in Hvalid.
  cbn [chain pending_votes spent_tokens chain_file] in *. subst pend file.
  unfold load_or_init, is_valid. cbv zeta. cbn [chain].
  rewrite map_from_to_dict, Hvalid. reflexivity.
Qed.

End LedgerRun.

Section GenesisRun.
Import Ledger LedgerSpec LedgerRuns.

Lemma records_snoc (blocks : list Block) (b : Block) :
  blocks <> [] ->
  flat_map votes (skipn 1 (blocks ++ [b])) = flat_map votes (skipn 1 blocks) ++ votes b.
Proof.
  destruct blocks as [|g rest]; [congruence|]. intros _. cbn [app skipn]. rewrite !skipn_O.
  rewrite flat_map_app. cbn [flat_map]. now rewrite app_nil_r.
Qed.

Lemma last_nonempty {A : Type} (l : list A) (x : A) : last l = Some x -> l <> [].
Proof. destruct l; [discriminate|discriminate]. Qed.

(** What holds of a ledger that started from a genesis block. *)
Lemma genesis_run_invariant (now : string) (spent0 : gset string) (file : ChainFile)
    (bc : Blockchain) :
  reaches (init_genesis now spent0 file) bc ->
  grown_from_genesis bc /\
  NoDup (recorded_tokens bc) /\
  spent_tokens bc = spent0 ∪ list_to_set (recorded_tokens bc) /\
  (forall t, t ∈ recorded_tokens bc -> t ∉ spent0) /\
  Forall (fun v => candidate v ∈ CANDIDATES) (vote_records bc) /\
  (List.length (vote_records bc) + 1 = List.length (chain bc))%nat.
Proof.
  intros Hreach.
  induction Hreach as [|bc fuel th c sig t1 t2 bc' r _ IH Hcast].
  - unfold grown_from_genesis, recorded_tokens, vote_records, init_genesis, save.
    cbn [chain spent_tokens skipn flat_map map].
    repeat apply conj.
    + intros i b Hb. apply list_lookup_singleton_Some in Hb as [-> <-]. reflexivity.
    + eexists. repeat apply conj; reflexivity.
    + intros i b Hi Hb. apply list_lookup_singleton_Some in Hb as [-> _]. lia.
    + constructor.
    + cbn [list_to_set]. now rewrite (right_id_L ∅ (∪)).
    + intros t Ht. inversion Ht.
    + constructor.
    + reflexivity.
  - destruct IH as ((Hidx & (g & Hg & Hgv & Hgp) & Hblocks) & Hnodup & Hspent & Hfresh0 & Hall & Hlen).
    destruct (cast_vote_cases _ _ _ _ _ _ _ _ _ Hcast)
      as [(err & -> & ->)|[(_ & Hempty & _)|(tip & b & -> & Htip & Hc & Hth & -> & Hp & Hh & Hi & Hv & Hprev)]].
    + unfold grown_from_genesis. repeat apply conj; try assumption.
      exists g. repeat apply conj; assumption.
    + rewrite Hempty in Hg. discriminate.
    + assert (Hne : chain bc <> []) by (eapply last_nonempty; eassumption).
      assert (Hrec : vote_records
                (save (mkBlockchain (chain bc ++ [b]) [] (spent_tokens bc ∪ {[th]})
                         (chain_file bc)))
              = vote_records bc ++ [mkVote th c t1 sig]).
      { unfold vote_records, save. cbn [chain]. rewrite records_snoc by exact Hne.
        now rewrite Hv. }
      unfold grown_from_genesis, recorded_tokens. rewrite Hrec.
      unfold save. cbn [chain spent_tokens].
      rewrite map_app. cbn [map token_hash].
      assert (Hnew : th ∉ recorded_tokens bc).
      { intros Hin. apply Hth. rewrite Hspent.
        apply elem_of_union_r, elem_of_list_to_set. exact Hin. }
      repeat apply conj.
      * intros i b0 Hb0. apply lookup_app_Some in Hb0 as [Hb0|[Hge Hb0]].
        -- now apply Hidx.
        -- apply list_lookup_singleton_Some in Hb0 as [Hz <-].
           rewrite Hi. f_equal. lia.
      * exists g. repeat apply conj; try assumption.
        now apply lookup_app_l_Some.
      * intros i b0 Hi1 Hb0. apply lookup_app_Some in Hb0 as [Hb0|[Hge Hb0]].
        -- now apply (Hblocks i).
        -- apply list_lookup_singleton_Some in Hb0 as [Hz <-].
           split; [exact Hp|]. eexists. split; [exact Hv|exact Hc].
      * apply NoDup_app. repeat apply conj.
        -- exact Hnodup.
        -- intros x Hx Hx'. apply list_elem_of_singleton in Hx'. subst x. now apply Hnew.
        -- apply NoDup_singleton.
      * rewrite Hspent, list_to_set_app_L. cbn [list_to_set].
        rewrite (right_id_L ∅ (∪)), (assoc_L (∪)). reflexivity.
      * intros t Ht. apply elem_of_app in Ht as [Ht|Ht]; [now apply Hfresh0|].
        apply list_elem_of_singleton in Ht. subst t.
        intros Hin. apply Hth. rewrite Hspent. apply elem_of_union_l. exact Hin.
      * apply Forall_app. split; [exact Hall|]. constructor; [exact Hc|constructor].
      * rewrite !List.length_app. cbn [List.length]. lia.
Qed.

End GenesisRun.

Section LedgerExtras.
Import Ledger LedgerSpec LedgerRuns.

Lemma ledger1_reached : reaches Examples.ledger0 Examples.ledger1.
Proof.
  refine (reaches_cast _ Examples.ledger0 2 "t1" "Candidate A" "s"
            Examples.vote_time Examples.block_time Examples.ledger1 _
            (reaches_start _) _).
  vm_compute. reflexivity.
Qed.

Lemma foreign_votes_none (records : list Vote) :
  Forall (fun v => candidate v ∈ CANDIDATES) records -> foreign_votes records = 0.
Proof.
  intros Hall. unfold foreign_votes.
  induction Hall as [|v records Hv _ IH]; [reflexivity|].
  cbn [List.filter]. rewrite (bool_decide_eq_true_2 _ Hv). exact IH.
Qed.

Lemma tallies_after_vote (records : list Vote) (v : Vote) (c : string) :
  votes_for c (records ++ [v]) =
  votes_for c records + (if String.eqb (candidate v) c then 1 else 0).
Proof.
  rewrite votes_for_app, votes_for_cons. change (votes_for c []) with 0.
  destruct (String.eqb (candidate v) c); lia.
Qed.

End LedgerExtras.

(** X15.  A ledger opened on anything but a document with an empty chain
    stays well formed through every call of [cast_vote]: the chain is never
    empty, [verify_chain] reports it valid, no vote stays pending, the chain
    file holds what [get_chain] and the spent-set hold in memory, and no
    call raises the [IndexError] of [self.chain[-1]]. *)
Theorem ledger_stays_settled
    (file : Ledger.ChainFile) (now : string) (bc : Ledger.Blockchain) :
  (forall spent, file <> Ledger.FileDoc [] spent) ->
  LedgerRuns.reaches (Ledger.load_or_init file now) bc ->
  Ledger.chain bc <> [] /\
  Ledger.valid (Ledger.verify_chain bc) = true /\
  Ledger.pending_votes bc = [] /\
  Ledger.chain_file bc = Ledger.FileDoc (Ledger.get_chain bc) (Ledger.spent_tokens bc) /\
  (forall fuel token_hash candidate signature_hex t_vote t_block bc' result,
     Ledger.cast_vote fuel token_hash candidate signature_hex t_vote t_block bc
       = Some (bc', result) ->
     result <> Ledger.RaisedIndexError).
Proof.
  intros Hfile Hreach.
  pose proof (reaches_settled _ _ (load_or_init_settled file now Hfile) Hreach) as Hs.
  pose proof Hs as (Hne & Hvalid & Hpend & Hdisk).
  repeat apply conj; try assumption.
  intros fuel th c sig t1 t2 bc' r Hcast.
  exact (proj2 (cast_vote_settled _ _ _ _ _ _ _ _ _ Hs Hcast)).
Qed.

Lemma ledger_stays_settled_witness :
  Ledger.chain Examples.ledger1 <> [] /\
  Ledger.valid (Ledger.verify_chain Examples.ledger1) = true /\
  Ledger.pending_votes Examples.ledger1 = [] /\
  Ledger.chain_file Examples.ledger1
    = Ledger.FileDoc (Ledger.get_chain Examples.ledger1)
        (Ledger.spent_tokens Examples.ledger1) /\
  (forall fuel token_hash candidate signature_hex t_vote t_block bc' result,
     Ledger.cast_vote fuel token_hash candidate signature_hex t_vote t_block
       Examples.ledger1 = Some (bc', result) ->
     result <> Ledger.RaisedIndexError).
Proof.
  apply (ledger_stays_settled Ledger.FileAbsent Examples.genesis_time Examples.ledger1).
  - discriminate.
  - exact ledger1_reached.
Defined.

(** X16.  What [_save] writes is what [_load_or_init] reads: a process
    restarted on the chain file of such a ledger, at any later time, holds
    the same chain and the same spent-set and creates no new genesis
    block. *)
Theorem ledger_restart_roundtrip
    (file : Ledger.ChainFile) (now now' : string) (bc : Ledger.Blockchain) :
  (forall spent, file <> Ledger.FileDoc [] spent) ->
  LedgerRuns.reaches (Ledger.load_or_init file now) bc ->
  Ledger.load_or_init (Ledger.chain_file bc) now' = bc.
Proof.
  intros Hfile Hreach. apply settled_reload.
  exact (reaches_settled _ _ (load_or_init_settled file now Hfile) Hreach).
Qed.

Lemma ledger_restart_roundtrip_witness :
  Ledger.load_or_init (Ledger.chain_file Examples.ledger1) Examples.block_time'
  = Examples.ledger1.
Proof.
  apply (ledger_restart_roundtrip Ledger.FileAbsent Examples.genesis_time
           Examples.block_time' Examples.ledger1).
  - discriminate.
  - exact ledger1_reached.
Defined.

(** X17.  A ledger that started from a fresh genesis block keeps the shape
    [cast_vote] gives it: block [i] carries index [i], block 0 is the
    genesis block with no votes and the all-zero previous hash, and every
    later block is mined and holds exactly one vote, for a listed
    candidate. *)
Theorem genesis_ledger_shape
    (now : string) (spent0 : gset string) (file : Ledger.ChainFile)
    (bc : Ledger.Blockchain) :
  LedgerRuns.reaches (Ledger.init_genesis now spent0 file) bc ->
  LedgerRuns.grown_from_genesis bc.
Proof.
  intros Hreach. exact (proj1 (genesis_run_invariant now spent0 file bc Hreach)).
Qed.

Lemma genesis_ledger_shape_witness : LedgerRuns.grown_from_genesis Examples.ledger1.
Proof.
  apply (genesis_ledger_shape Examples.genesis_time ∅ Ledger.FileAbsent Examples.ledger1).
  exact ledger1_reached.
Defined.

(** X18.  In a ledger that started from a fresh genesis block no token hash
    is recorded twice, a token is spent exactly when it was in the initial
    spent-set or is recorded on the chain, and no recorded token comes from
    the initial spent-set. *)
Theorem nullifiers_unique
    (now : string) (spent0 : gset string) (file : Ledger.ChainFile)
    (bc : Ledger.Blockchain) :
  LedgerRuns.reaches (Ledger.init_genesis now spent0 file) bc ->
  NoDup (LedgerRuns.recorded_tokens bc) /\
  (forall t, Ledger.is_token_spent t bc = true <->
             t ∈ spent0 \/ t ∈ LedgerRuns.recorded_tokens bc) /\
  (forall t, t ∈ LedgerRuns.recorded_tokens bc -> t ∉ spent0).
Proof.
  intros Hreach.
  destruct (genesis_run_invariant now spent0 file bc Hreach)
    as (_ & Hnodup & Hspent & Hfresh & _).
  repeat apply conj; try assumption.
  intros t. unfold Ledger.is_token_spent.
  rewrite bool_decide_eq_true, Hspent, elem_of_union, elem_of_list_to_set.
  reflexivity.
Qed.

Lemma nullifiers_unique_witness :
  NoDup (LedgerRuns.recorded_tokens Examples.ledger1) /\
  (forall t, Ledger.is_token_spent t Examples.ledger1 = true <->
             t ∈ (∅ : gset string) \/ t ∈ LedgerRuns.recorded_tokens Examples.ledger1) /\
  (forall t, t ∈ LedgerRuns.recorded_tokens Examples.ledger1 -> t ∉ (∅ : gset string)).
Proof.
  apply (nullifiers_unique Examples.genesis_time ∅ Ledger.FileAbsent Examples.ledger1).
  exact ledger1_reached.
Defined.

(** X19.  For a ledger that started from a fresh genesis block the numbers
    of [get_stats] and [get_tallies] agree: [total_votes] is
    [block_count - 1], the tallies add up to [total_votes], and
    [spent_tokens] is the size of the initial spent-set plus
    [total_votes]. *)
Theorem genesis_ledger_stats
    (now : string) (spent0 : gset string) (file : Ledger.ChainFile)
    (bc : Ledger.Blockchain) :
  LedgerRuns.reaches (Ledger.init_genesis now spent0 file) bc ->
  Ledger.total_votes (Ledger.get_stats bc) = Ledger.block_count (Ledger.get_stats bc) - 1 /\
  LedgerSpec.tallies_sum (Ledger.get_tallies bc) = Ledger.total_votes (Ledger.get_stats bc) /\
  Ledger.stats_spent_tokens (Ledger.get_stats bc)
    = Z.of_nat (size spent0) + Ledger.total_votes (Ledger.get_stats bc).
Proof.
  intros Hreach.
  destruct (genesis_run_invariant now spent0 file bc Hreach)
    as (_ & Hnodup & Hspent & Hfresh & Hall & Hlen).
  assert (Htotal : Ledger.total_votes (Ledger.get_stats bc)
                   = Z.of_nat (List.length (LedgerSpec.vote_records bc))).
  { unfold Ledger.get_stats. cbn [Ledger.total_votes].
    rewrite total_votes_length. unfold LedgerSpec.vote_records. lia. }
  rewrite Htotal. unfold Ledger.get_stats.
  cbn [Ledger.block_count Ledger.stats_spent_tokens].
  repeat apply conj.
  - lia.
  - rewrite tallies_sum_get_tallies, (records_partition (LedgerSpec.vote_records bc)).
    rewrite (foreign_votes_none _ Hall). lia.
  - rewrite Hspent, size_union.
    + rewrite size_list_to_set by exact Hnodup.
      unfold LedgerRuns.recorded_tokens. rewrite length_map. lia.
    + intros t Ht0 Ht. apply elem_of_list_to_set in Ht. exact (Hfresh t Ht Ht0).
Qed.

Lemma genesis_ledger_stats_witness :
  Ledger.total_votes (Ledger.get_stats Examples.ledger1)
    = Ledger.block_count (Ledger.get_stats Examples.ledger1) - 1 /\
  LedgerSpec.tallies_sum (Ledger.get_tallies Examples.ledger1)
    = Ledger.total_votes (Ledger.get_stats Examples.ledger1) /\
  Ledger.stats_spent_tokens (Ledger.get_stats Examples.ledger1)
    = Z.of_nat (size (∅ : gset string))
      + Ledger.total_votes (Ledger.get_stats Examples.ledger1).
Proof.
  apply (genesis_ledger_stats Examples.genesis_time ∅ Ledger.FileAbsent Examples.ledger1).
  exact ledger1_reached.
Defined.

Section Mining.
Import Ledger LedgerSpec.

Lemma at_nonce_step (b : Block) (x : Z) :
  at_nonce (mkBlock (index b) (timestamp b) (votes b) (previous_hash b) (nonce b + 1)
              (compute_hash_of (index b) (timestamp b) (votes b) (previous_hash b)
                 (nonce b + 1))) x
  = at_nonce b x.
Proof. reflexivity. Qed.

(** The loop of [_proof_of_work] stops at the first nonce that works. *)
Lemma proof_of_work_first (fuel : nat) : forall b b',
  hash b = compute_hash b ->
  proof_of_work fuel b = Some b' ->
  exists k,
    (k <= fuel)%nat /\ b' = at_nonce b (nonce b + Z.of_nat k) /\
    forall j, (j < k)%nat -> has_pow (at_nonce b (nonce b + Z.of_nat j)) = false.
Proof.
  induction fuel as [|fuel IH]; intros b b' Hh Hrun; cbn [proof_of_work] in Hrun;
    destruct (has_pow b) eqn:Hp; try discriminate.
  - injection Hrun as <-. exists 0%nat.
    rewrite Z.add_0_r, at_nonce_self by exact Hh.
    repeat apply conj; [lia|reflexivity|intros j Hj; lia].
  - injection Hrun as <-. exists 0%nat.
    rewrite Z.add_0_r, at_nonce_self by exact Hh.
    repeat apply conj; [lia|reflexivity|intros j Hj; lia].
  - apply IH in Hrun; [|reflexivity].
    destruct Hrun as (k & Hk & Hb' & Hmin). cbn [nonce] in Hb', Hmin.
    exists (S k). repeat apply conj.
    + lia.
    + rewrite Hb', at_nonce_step.
      now replace (nonce b + Z.of_nat (S k)) with (nonce b + 1 + Z.of_nat k) by lia.
    + intros [|j] Hj.
      * rewrite Z.add_0_r, at_nonce_self by exact Hh. exact Hp.
      * specialize (Hmin j ltac:(lia)). rewrite at_nonce_step in Hmin.
        now replace (nonce b + Z.of_nat (S j)) with (nonce b + 1 + Z.of_nat j) by lia.
Qed.

End Mining.

(** X20.  An accepted vote is counted once and only for its candidate: the
    tallies after the call are the tallies before it with the entry of the
    chosen candidate raised by one, their sum and [total_votes] grow by
    one, [block_count] grows by one, the token is spent afterwards and was
    not before, and [get_block] at the returned index gives the new block,
    whose hash is the returned [tx_hash] and whose only vote is this one. *)
Theorem accepted_vote_counts_once
    (fuel : nat) (token_hash candidate signature_hex t_vote t_block : string)
    (bc bc' : Ledger.Blockchain) (tx : string) (i : Z) :
  Ledger.cast_vote fuel token_hash candidate signature_hex t_vote t_block bc
    = Some (bc', Ledger.Accepted tx i) ->
  (exists k, Ledger.get_tallies bc !! candidate = Some k /\
             Ledger.get_tallies bc' = <[candidate := k + 1]> (Ledger.get_tallies bc)) /\
  LedgerSpec.tallies_sum (Ledger.get_tallies bc')
    = LedgerSpec.tallies_sum (Ledger.get_tallies bc) + 1 /\
  Ledger.total_votes (Ledger.get_stats bc') = Ledger.total_votes (Ledger.get_stats bc) + 1 /\
  Ledger.block_count (Ledger.get_stats bc') = Ledger.block_count (Ledger.get_stats bc) + 1 /\
  Ledger.is_token_spent token_hash bc = false /\
  Ledger.is_token_spent token_hash bc' = true /\
  (exists d, Ledger.get_block i bc' = Some d /\ Ledger.d_hash d = tx /\
             Ledger.d_index d = i /\
             Ledger.d_votes d
               = [Ledger.mkVote token_hash candidate t_vote signature_hex]).
Proof.
  intros Hcast.
  destruct (cast_vote_cases _ _ _ _ _ _ _ _ _ Hcast)
    as [(err & Hr & _)|[(Hr & _)|(tip & b & Hr & Htip & Hc & Hth & -> & Hp & Hh & Hi & Hv & Hprev)]];
    try discriminate Hr.
  injection Hr as -> ->.
  assert (Hne : Ledger.chain bc <> []) by (eapply last_nonempty; eassumption).
  set (v := Ledger.mkVote token_hash candidate t_vote signature_hex) in *.
  set (bc' := Ledger.save _) in *.
  assert (Hrec : LedgerSpec.vote_records bc' = LedgerSpec.vote_records bc ++ [v]).
  { unfold LedgerSpec.vote_records, bc', Ledger.save. cbn [Ledger.chain].
    rewrite records_snoc by exact Hne. now rewrite Hv. }
  assert (Hlookup : forall c, Ledger.get_tallies bc' !! c =
            if bool_decide (c ∈ Ledger.CANDIDATES)
            then Some (LedgerSpec.votes_for c (LedgerSpec.vote_records bc)
                       + (if String.eqb candidate c then 1 else 0))
            else None).
  { intros c. rewrite get_tallies_lookup, Hrec, tallies_after_vote. reflexivity. }
  repeat apply conj.
  - exists (LedgerSpec.votes_for candidate (LedgerSpec.vote_records bc)). split.
    + rewrite get_tallies_lookup. now rewrite (bool_decide_eq_true_2 _ Hc).
    + apply map_eq. intros c. rewrite Hlookup.
      destruct (String.eqb_spec candidate c) as [<-|Hne'].
      * rewrite lookup_insert_eq. now rewrite (bool_decide_eq_true_2 _ Hc).
      * rewrite lookup_insert_ne by exact Hne'. rewrite get_tallies_lookup.
        destruct (bool_decide (c ∈ Ledger.CANDIDATES)); [f_equal; lia|reflexivity].
  - rewrite !tallies_sum_get_tallies, Hrec, !tallies_after_vote.
    change (Ledger.candidate v) with candidate.
    unfold Ledger.CANDIDATES in Hc. rewrite !elem_of_cons, elem_of_nil in Hc.
    destruct Hc as [->|[->|[->|[]]]]; cbn; lia.
  - unfold Ledger.get_stats. cbn [Ledger.total_votes].
    rewrite !total_votes_length.
    fold (LedgerSpec.vote_records bc'). fold (LedgerSpec.vote_records bc).
    rewrite Hrec, List.length_app. cbn [List.length]. lia.
  - unfold Ledger.get_stats, bc', Ledger.save. cbn [Ledger.block_count Ledger.chain].
    rewrite List.length_app. cbn [List.length]. lia.
  - unfold Ledger.is_token_spent. now apply bool_decide_eq_false_2.
  - unfold Ledger.is_token_spent, bc', Ledger.save. cbn [Ledger.spent_tokens].
    apply bool_decide_eq_true_2, elem_of_union_r, elem_of_singleton. reflexivity.
  - exists (Ledger.to_dict b). unfold Ledger.get_block, bc', Ledger.save.
    cbn [Ledger.chain]. rewrite Hi, List.length_app, Nat2Z.id. cbn [List.length].
    replace ((0 <=? Z.of_nat (List.length (Ledger.chain bc)))
             && (Z.of_nat (List.length (Ledger.chain bc))
                 <? Z.of_nat (List.length (Ledger.chain bc) + 1)))
      with true by (symmetry; apply andb_true_iff; split; [apply Z.leb_le|apply Z.ltb_lt]; lia).
    rewrite lookup_app_r by lia.
    replace (List.length (Ledger.chain bc) - List.length (Ledger.chain bc))%nat
      with 0%nat by lia.
    cbn [lookup list_lookup option_map Ledger.to_dict Ledger.d_hash Ledger.d_index
         Ledger.d_votes].
    repeat apply conj; try reflexivity; assumption.
Qed.

Lemma accepted_vote_counts_once_witness :
  (exists k, Ledger.get_tallies Examples.ledger0 !! "Candidate A"%string = Some k /\
             Ledger.get_tallies Examples.ledger1
               = <["Candidate A"%string := k + 1]> (Ledger.get_tallies Examples.ledger0)) /\
  LedgerSpec.tallies_sum (Ledger.get_tallies Examples.ledger1)
    = LedgerSpec.tallies_sum (Ledger.get_tallies Examples.ledger0) + 1 /\
  Ledger.total_votes (Ledger.get_stats Examples.ledger1)
    = Ledger.total_votes (Ledger.get_stats Examples.ledger0) + 1 /\
  Ledger.block_count (Ledger.get_stats Examples.ledger1)
    = Ledger.block_count (Ledger.get_stats Examples.ledger0) + 1 /\
  Ledger.is_token_spent "t1" Examples.ledger0 = false /\
  Ledger.is_token_spent "t1" Examples.ledger1 = true /\
  (exists d, Ledger.get_block 1 Examples.ledger1 = Some d /\
             Ledger.d_hash d
               = from_option Ledger.hash EmptyString (last (Ledger.chain Examples.ledger1)) /\
             Ledger.d_index d = 1 /\
             Ledger.d_votes d = [Ledger.mkVote "t1" "Candidate A" Examples.vote_time "s"]).
Proof.
  apply (accepted_vote_counts_once 2 "t1" "Candidate A" "s" Examples.vote_time
           Examples.block_time Examples.ledger0 Examples.ledger1).
  vm_compute. reflexivity.
Defined.

Section MinedBlock.
Import Ledger LedgerSpec.

Lemma at_nonce_new_block (i : Z) (t : string) (vs : list Vote) (prev : string) (x0 x : Z) :
  at_nonce (new_block i t vs prev x0) x = new_block i t vs prev x.
Proof. reflexivity. Qed.

End MinedBlock.

(** X21.  [_proof_of_work], given a block as [Block(...)] builds it, returns
    as soon as the loop has turns enough to reach a nonce whose hash has the
    prefix, and what it returns is the block at the first such nonce counted
    up from the one it was given: only nonce and hash differ from the block
    passed in, the hash has [DIFFICULTY] leading zeros, and no smaller
    nonce would have done. *)
Theorem proof_of_work_least_nonce
    (fuel k : nat) (index : Z) (timestamp : string) (votes : list Ledger.Vote)
    (previous_hash : string) (nonce0 : Z) :
  Ledger.has_pow
    (Ledger.new_block index timestamp votes previous_hash (nonce0 + Z.of_nat k)) = true ->
  (k <= fuel)%nat ->
  exists mined,
    Ledger.proof_of_work fuel (Ledger.new_block index timestamp votes previous_hash nonce0)
      = Some mined /\
    nonce0 <= Ledger.nonce mined <= nonce0 + Z.of_nat k /\
    mined = Ledger.new_block index timestamp votes previous_hash (Ledger.nonce mined) /\
    Ledger.has_pow mined = true /\
    forall x, nonce0 <= x < Ledger.nonce mined ->
              Ledger.has_pow (Ledger.new_block index timestamp votes previous_hash x) = false.
Proof.
  intros Hk Hfuel.
  set (b := Ledger.new_block index timestamp votes previous_hash nonce0).
  destruct (proof_of_work_total k fuel b Hfuel eq_refl Hk) as [mined Hrun].
  exists mined. split; [exact Hrun|].
  destruct (proof_of_work_first fuel b mined eq_refl Hrun) as (j & Hj & Hmined & Hmin).
  destruct (proof_of_work_sound fuel b mined eq_refl Hrun) as (Hp & _).
  change (Ledger.nonce b) with nonce0 in *. subst b.
  rewrite at_nonce_new_block in Hmined.
  assert (Hn : Ledger.nonce mined = nonce0 + Z.of_nat j) by (rewrite Hmined; reflexivity).
  assert (Hjk : (j <= k)%nat).
  { destruct (Nat.le_gt_cases j k) as [Hle|Hgt]; [exact Hle|].
    specialize (Hmin k Hgt). rewrite at_nonce_new_block in Hmin. congruence. }
  rewrite Hn. repeat apply conj; try lia.
  - exact Hmined.
  - exact Hp.
  - intros x Hx. specialize (Hmin (Z.to_nat (x - nonce0)) ltac:(lia)).
    rewrite at_nonce_new_block in Hmin.
    now replace (nonce0 + Z.of_nat (Z.to_nat (x - nonce0))) with x in Hmin by lia.
Qed.

Lemma proof_of_work_least_nonce_witness :
  exists mined,
    Ledger.proof_of_work 5
      (Ledger.new_block 1 Examples.block_time
         [Ledger.mkVote "t1" "Candidate A" Examples.vote_time "s"]
         (Ledger.hash (Ledger.new_block 0 Examples.genesis_time [] Ledger.zero_hash 0)) 0)
      = Some mined /\
    0 <= Ledger.nonce mined <= 0 + Z.of_nat 2 /\
    mined = Ledger.new_block 1 Examples.block_time
              [Ledger.mkVote "t1" "Candidate A" Examples.vote_time "s"]
              (Ledger.hash (Ledger.new_block 0 Examples.genesis_time [] Ledger.zero_hash 0))
              (Ledger.nonce mined) /\
    Ledger.has_pow mined = true /\
    forall x, 0 <= x < Ledger.nonce mined ->
              Ledger.has_pow
                (Ledger.new_block 1 Examples.block_time
                   [Ledger.mkVote "t1" "Candidate A" Examples.vote_time "s"]
                   (Ledger.hash
                      (Ledger.new_block 0 Examples.genesis_time [] Ledger.zero_hash 0))
                   x) = false.
Proof.
  apply (proof_of_work_least_nonce 5 2 1 Examples.block_time
           [Ledger.mkVote "t1" "Candidate A" Examples.vote_time "s"]
           (Ledger.hash (Ledger.new_block 0 Examples.genesis_time [] Ledger.zero_hash 0)) 0).
  - vm_compute. reflexivity.
  - lia.
Defined.

(** X22.  A stored chain that fails [_is_valid] is thrown away but its
    spent-set is not: the ledger restarts from a fresh genesis block, with
    all tallies at zero and the chain file rewritten, and still holds the
    stored spent-set, so every token of that set is refused as a double
    vote although the chain records no vote. *)
Theorem invalid_chain_keeps_spent
    (data : list Ledger.BlockDict) (spent : gset string) (now : string) :
  Ledger.is_valid_chain (map Ledger.from_dict data) = false ->
  let bc := Ledger.load_or_init (Ledger.FileDoc data spent) now in
  Ledger.chain bc = [Ledger.new_block 0 now [] Ledger.zero_hash 0] /\
  Ledger.spent_tokens bc = spent /\
  Ledger.chain_file bc = Ledger.FileDoc (Ledger.get_chain bc) spent /\
  Ledger.total_votes (Ledger.get_stats bc) = 0 /\
  (forall c, c ∈ Ledger.CANDIDATES -> Ledger.get_tallies bc !! c = Some 0) /\
  (forall t fuel c sig t_vote t_block,
     t ∈ spent -> c ∈ Ledger.CANDIDATES ->
     Ledger.cast_vote fuel t c sig t_vote t_block bc
       = Some (bc, Ledger.Rejected Ledger.DoubleVote)).
Proof.
  intros Hinvalid bc. subst bc. unfold Ledger.load_or_init, Ledger.is_valid.
  cbv zeta. cbn [Ledger.chain]. rewrite Hinvalid. cbn [negb].
  unfold Ledger.init_genesis, Ledger.save. cbv zeta.
  cbn [Ledger.chain Ledger.spent_tokens Ledger.chain_file Ledger.pending_votes].
  repeat apply conj; try reflexivity.
  - intros c Hc. rewrite get_tallies_lookup, (bool_decide_eq_true_2 _ Hc). reflexivity.
  - intros t fuel c sig t_vote t_block Ht Hc. unfold Ledger.cast_vote.
    cbn [Ledger.spent_tokens].
    now rewrite (bool_decide_eq_true_2 _ Hc), (bool_decide_eq_true_2 _ Ht).
Qed.

Lemma invalid_chain_keeps_spent_witness :
  let data :=
    [Ledger.to_dict (Ledger.new_block 0 Examples.genesis_time [] Ledger.zero_hash 0);
     Ledger.to_dict (Ledger.new_block 1 Examples.block_time [Examples.foreign_vote]
                       Ledger.zero_hash 0)] in
  let spent : gset string := {["t9"%string]} in
  let bc := Ledger.load_or_init (Ledger.FileDoc data spent) Examples.block_time' in
  Ledger.chain bc = [Ledger.new_block 0 Examples.block_time' [] Ledger.zero_hash 0] /\
  Ledger.spent_tokens bc = spent /\
  Ledger.chain_file bc = Ledger.FileDoc (Ledger.get_chain bc) spent /\
  Ledger.total_votes (Ledger.get_stats bc) = 0 /\
  (forall c, c ∈ Ledger.CANDIDATES -> Ledger.get_tallies bc !! c = Some 0) /\
  (forall t fuel c sig t_vote t_block,
     t ∈ spent -> c ∈ Ledger.CANDIDATES ->
     Ledger.cast_vote fuel t c sig t_vote t_block bc
       = Some (bc, Ledger.Rejected Ledger.DoubleVote)).
Proof.
  intros data spent.
  apply (invalid_chain_keeps_spent data spent Examples.block_time').
  vm_compute. reflexivity.
Defined.

(** X23.  A chain file whose chain is the empty list loads as it is,
    [verify_chain] calls it valid, and the first vote with a fresh token and
    a listed candidate then raises the [IndexError] of [self.chain[-1]]:
    by then the token is in the spent-set and the vote is pending, nothing
    was appended or saved, and every later vote with that token is refused
    as a double vote. *)
Theorem empty_chain_burns_token
    (spent : gset string) (now : string) (fuel : nat)
    (token_hash candidate signature_hex t_vote t_block : string) :
  candidate ∈ Ledger.CANDIDATES ->
  token_hash ∉ spent ->
  let bc := Ledger.load_or_init (Ledger.FileDoc [] spent) now in
  Ledger.chain bc = [] /\
  Ledger.valid (Ledger.verify_chain bc) = true /\
  exists bc',
    Ledger.cast_vote fuel token_hash candidate signature_hex t_vote t_block bc
      = Some (bc', Ledger.RaisedIndexError) /\
    Ledger.chain bc' = [] /\
    Ledger.pending_votes bc'
      = [Ledger.mkVote token_hash candidate t_vote signature_hex] /\
    Ledger.is_token_spent token_hash bc' = true /\
    Ledger.chain_file bc' = Ledger.FileDoc [] spent /\
    (forall fuel' candidate' signature_hex' t_vote' t_block',
       candidate' ∈ Ledger.CANDIDATES ->
       Ledger.cast_vote fuel' token_hash candidate' signature_hex' t_vote' t_block' bc'
         = Some (bc', Ledger.Rejected Ledger.DoubleVote)).
Proof.
  intros Hc Hfresh bc. subst bc.
  change (Ledger.load_or_init (Ledger.FileDoc [] spent) now)
    with (Ledger.mkBlockchain [] [] spent (Ledger.FileDoc [] spent)).
  repeat apply conj; try reflexivity.
  eexists. unfold Ledger.cast_vote at 1.
  cbn [Ledger.chain Ledger.spent_tokens Ledger.pending_votes Ledger.chain_file last app].
  rewrite (bool_decide_eq_true_2 _ Hc), (bool_decide_eq_false_2 _ Hfresh). cbn [negb].
  repeat apply conj; try reflexivity.
  - unfold Ledger.is_token_spent. cbn [Ledger.spent_tokens].
    apply bool_decide_eq_true_2, elem_of_union_r, elem_of_singleton. reflexivity.
  - intros fuel' c' sig' t1' t2' Hc'. unfold Ledger.cast_vote.
    cbn [Ledger.spent_tokens]. rewrite (bool_decide_eq_true_2 _ Hc'). cbn [negb].
    rewrite bool_decide_eq_true_2; [reflexivity|].
    apply elem_of_union_r, elem_of_singleton. reflexivity.
Qed.

Lemma empty_chain_burns_token_witness :
  let bc := Ledger.load_or_init (Ledger.FileDoc [] ∅) Examples.genesis_time in
  Ledger.chain bc = [] /\
  Ledger.valid (Ledger.verify_chain bc) = true /\
  exists bc',
    Ledger.cast_vote 0 "t1" "Candidate A" "s" Examples.vote_time Examples.block_time bc
      = Some (bc', Ledger.RaisedIndexError) /\
    Ledger.chain bc' = [] /\
    Ledger.pending_votes bc' = [Ledger.mkVote "t1" "Candidate A" Examples.vote_time "s"] /\
    Ledger.is_token_spent "t1" bc' = true /\
    Ledger.chain_file bc' = Ledger.FileDoc [] ∅ /\
    (forall fuel' candidate' signature_hex' t_vote' t_block',
       candidate' ∈ Ledger.CANDIDATES ->
       Ledger.cast_vote fuel' "t1" candidate' signature_hex' t_vote' t_block' bc'
         = Some (bc', Ledger.Rejected Ledger.DoubleVote)).
Proof.
  apply (empty_chain_burns_token ∅ Examples.genesis_time 0 "t1" "Candidate A" "s"
           Examples.vote_time Examples.block_time).
  - unfold Ledger.CANDIDATES. rewrite elem_of_cons. left. reflexivity.
  - apply not_elem_of_empty.
Defined.

(** ** The two handlers *)

Section Handlers.
Import BlindSignature Database VoterRegistry Ledger Api.

Lemma api_vote_cases (fuel : nat) (token_hex signature_b64 candidate t_vote t_block : string)
    (db : Db) (bc bc' : Blockchain) (body : vote_body) (code : Z) :
  api_vote fuel token_hex signature_b64 candidate t_vote t_block db bc
    = Some (bc', (body, code)) ->
  (bc' = bc /\ (code = 400 \/ code = 403) /\
   forall result, body <> VoteResult result) \/
  (exists token sig pk result,
     hex_to_token (PyStr.strip token_hex) = Some token /\
     b64_to_int (PyStr.strip signature_b64) = Some sig /\
     get_public_key db = Some pk /\
     verify_signature token sig pk = true /\
     PyStr.strip candidate ∈ CANDIDATES /\
     cast_vote fuel (BlindSignature.token_hash token) (PyStr.strip candidate)
       (PyStr.prefix 64 (PyStr.strip signature_b64)) t_vote t_block bc
       = Some (bc', result) /\
     match result with
     | Accepted _ _ => body = VoteResult result /\ code = 200
     | Rejected _ => body = VoteResult result /\ code = 400
     | RaisedIndexError => body = VoteServerError /\ code = 500
     end).
Proof.
  unfold api_vote. cbv zeta.
  destruct (is_empty _ || is_empty _ || is_empty _);
    [intros [= <- <- <-]; left; repeat apply conj; auto; discriminate|].
  destruct (bool_decide (PyStr.strip candidate ∈ CANDIDATES)) eqn:Hc; cbn [negb];
    [|intros [= <- <- <-]; left; repeat apply conj; auto; discriminate].
  apply bool_decide_eq_true in Hc.
  unfold parse_credential.
  destruct (hex_to_token (PyStr.strip token_hex)) as [token|] eqn:Htoken;
    [|intros [= <- <- <-]; left; repeat apply conj; auto; discriminate].
  destruct (b64_to_int (PyStr.strip signature_b64)) as [sig|] eqn:Hsig;
    [|intros [= <- <- <-]; left; repeat apply conj; auto; discriminate].
  destruct (get_public_key db) as [pk|] eqn:Hpk;
    [|intros [= <- <- <-]; left; repeat apply conj; auto; discriminate].
  destruct (verify_signature token sig pk) eqn:Hverify; cbn [negb];
    [|intros [= <- <- <-]; left; repeat apply conj; auto; discriminate].
  destruct (cast_vote _ _ _ _ _ _ _) as [[bc1 result]|] eqn:Hcast; [|discriminate].
  intros Hres. right. exists token, sig, pk, result.
  destruct result as [tx i|err|]; injection Hres as <- <- <-;
    repeat apply conj; auto.
Qed.

Lemma strip_no_space (s : string) :
  PyStr.all (fun c => negb (PyStr.isspace c)) s = true -> PyStr.strip s = s.
Proof.
  intros Hall. unfold PyStr.strip.
  assert (Hl : PyStr.lstrip s = s).
  { destruct s as [|c rest]; [reflexivity|]. cbn [PyStr.all] in Hall.
    apply andb_true_iff in Hall as [Hc _]. apply negb_true_iff in Hc.
    cbn [PyStr.lstrip]. now rewrite Hc. }
  rewrite Hl. clear Hl.
  induction s as [|c rest IH]; [reflexivity|].
  cbn [PyStr.all] in Hall. apply andb_true_iff in Hall as [Hc Hrest].
  apply negb_true_iff in Hc.
  cbn [PyStr.rstrip]. rewrite (IH Hrest).
  destruct rest; [now rewrite Hc|reflexivity].
Qed.

Lemma all_impl (p q : ascii -> bool) (s : string) :
  (forall c, p c = true -> q c = true) ->
  PyStr.all p s = true -> PyStr.all q s = true.
Proof.
  intros Hpq. induction s as [|c rest IH]; [reflexivity|].
  cbn [PyStr.all]. rewrite !andb_true_iff. intros [Hc Hrest]. auto.
Qed.

Lemma lower_hex_no_space (c : ascii) :
  Transport.is_lower_hex c = true -> negb (PyStr.isspace c) = true.
Proof.
  unfold Transport.is_lower_hex, PyStr.isspace, PyStr.in_range.
  intros H. apply negb_true_iff.
  apply orb_true_iff in H.
  rewrite !orb_false_iff, !andb_false_iff, !Z.leb_gt, !Z.eqb_neq.
  rewrite !andb_true_iff, !Z.leb_le in H. lia.
Qed.

Lemma strip_token_to_hex (token : bytes) :
  PyStr.strip (token_to_hex token) = token_to_hex token.
Proof.
  apply strip_no_space. apply (all_impl Transport.is_lower_hex).
  - exact lower_hex_no_space.
  - apply hex_shape.
Qed.

Lemma b64_char_no_space (v : Z) :
  0 <= v < 64 -> negb (PyStr.isspace (Codec.b64_char v)) = true.
Proof.
  intros Hv.
  assert (Hall : forallb (fun k => negb (PyStr.isspace (Codec.b64_char (Z.of_nat k))))
                   (seq 0 64) = true) by (vm_compute; reflexivity).
  rewrite forallb_forall in Hall.
  specialize (Hall (Z.to_nat v)). rewrite Z2Nat.id in Hall by lia.
  apply Hall, in_seq. lia.
Qed.

Lemma b64encode_no_space (bs : bytes) :
  PyStr.all (fun c => negb (PyStr.isspace c)) (Codec.b64encode bs) = true.
Proof.
  induction bs as [|b0|b0 b1|b0 b1 b2 rest IH] using list_ind3;
    cbn [Codec.b64encode PyStr.all].
  - reflexivity.
  - pose proof (byte_to_Z_range b0).
    rewrite !b64_char_no_space by (Z.to_euclidean_division_equations; lia).
    reflexivity.
  - pose proof (byte_to_Z_range b0). pose proof (byte_to_Z_range b1).
    rewrite !b64_char_no_space by (Z.to_euclidean_division_equations; lia).
    reflexivity.
  - pose proof (byte_to_Z_range b0). pose proof (byte_to_Z_range b1).
    pose proof (byte_to_Z_range b2).
    rewrite !b64_char_no_space by (Z.to_euclidean_division_equations; lia).
    exact IH.
Qed.

Lemma strip_int_to_b64 (n : Z) : PyStr.strip (int_to_b64 n) = int_to_b64 n.
Proof. apply strip_no_space, b64encode_no_space. Qed.

Lemma strip_candidate (c : string) : c ∈ CANDIDATES -> PyStr.strip c = c.
Proof.
  unfold CANDIDATES. rewrite !elem_of_cons, elem_of_nil.
  intros [->|[->|[->|[]]]]; reflexivity.
Qed.

Lemma candidate_not_empty (c : string) : c ∈ CANDIDATES -> is_empty c = false.
Proof.
  unfold CANDIDATES. rewrite !elem_of_cons, elem_of_nil.
  intros [->|[->|[->|[]]]]; reflexivity.
Qed.

Lemma token_to_hex_not_empty (token : bytes) :
  token <> [] -> is_empty (token_to_hex token) = false.
Proof.
  destruct token as [|b rest]; [congruence|]. intros _.
  unfold token_to_hex, Sha256.hex. cbn [flat_map app string_of_list_ascii]. reflexivity.
Qed.

Lemma b64encode_not_empty (bs : bytes) :
  bs <> [] -> is_empty (Codec.b64encode bs) = false.
Proof.
  destruct bs as [|b0 [|b1 [|b2 rest]]]; [congruence|reflexivity..].
Qed.

Lemma byte_length_pos (n : Z) : 0 < n -> (0 < byte_length n)%nat.
Proof.
  intros Hn. unfold byte_length, bit_length.
  pose proof (Z.log2_nonneg n).
  destruct (n =? 0) eqn:E; [apply Z.eqb_eq in E; lia|].
  Z.to_euclidean_division_equations. lia.
Qed.

End Handlers.

(** X24.  [/api/vote] answers 200 only for a vote it has checked: the
    stripped fields decode to a token and a signature that
    [verify_signature] accepts under the issuer's public key, the candidate
    is listed, the hash of the token was not spent before and is spent
    afterwards, and the body is the acceptance of the [cast_vote] call made
    with that hash and the first 64 characters of the signature text. *)
Theorem api_vote_ok_means_verified
    (fuel : nat) (token_hex signature_b64 candidate t_vote t_block : string)
    (db : Database.Db) (bc bc' : Ledger.Blockchain) (body : Api.vote_body) :
  Api.api_vote fuel token_hex signature_b64 candidate t_vote t_block db bc
    = Some (bc', (body, 200)) ->
  exists token sig pk tx i,
    BlindSignature.hex_to_token (PyStr.strip token_hex) = Some token /\
    BlindSignature.b64_to_int (PyStr.strip signature_b64) = Some sig /\
    VoterRegistry.get_public_key db = Some pk /\
    BlindSignature.verify_signature token sig pk = true /\
    PyStr.strip candidate ∈ Ledger.CANDIDATES /\
    Ledger.is_token_spent (BlindSignature.token_hash token) bc = false /\
    Ledger.is_token_spent (BlindSignature.token_hash token) bc' = true /\
    body = Api.VoteResult (Ledger.Accepted tx i) /\
    Ledger.cast_vote fuel (BlindSignature.token_hash token) (PyStr.strip candidate)
      (PyStr.prefix 64 (PyStr.strip signature_b64)) t_vote t_block bc
      = Some (bc', Ledger.Accepted tx i).
Proof.
  intros Hvote.
  destruct (api_vote_cases _ _ _ _ _ _ _ _ _ _ _ Hvote)
    as [(_ & [Hcode|Hcode] & _)|(token & sig & pk & result & Ht & Hs & Hpk & Hv & Hc & Hcast & Hres)];
    try discriminate Hcode.
  destruct result as [tx i|err|]; destruct Hres as [Hbody Hcode]; try discriminate Hcode.
  exists token, sig, pk, tx, i.
  destruct (cast_vote_cases _ _ _ _ _ _ _ _ _ Hcast)
    as [(err & Hr & _)|[(Hr & _)|(tip & b & _ & _ & _ & Hfresh & Hbc' & _)]];
    try discriminate Hr.
  repeat apply conj; try assumption.
  - unfold Ledger.is_token_spent. now apply bool_decide_eq_false_2.
  - rewrite Hbc'. unfold Ledger.is_token_spent, Ledger.save. cbn [Ledger.spent_tokens].
    apply bool_decide_eq_true_2, elem_of_union_r, elem_of_singleton. reflexivity.
Qed.

Section Requests.
Import Database VoterRegistry Ledger Api Request.

Lemma api_vote_request_cases (fuel : nat) (body : json_body) (t_vote t_block : string)
    (db : Db) (bc bc' : Blockchain) (reply : vote_body) (code : Z) :
  api_vote_request fuel body t_vote t_block db bc = Some (bc', (reply, code)) ->
  (request_data body = None /\ bc' = bc /\ reply = VoteServerError /\ code = 500) \/
  (exists data,
     request_data body = Some data /\
     api_vote fuel (str_field data "token_hex") (str_field data "signature_b64")
       (str_field data "candidate") t_vote t_block db bc = Some (bc', (reply, code))).
Proof.
  unfold api_vote_request. destruct (request_data body) as [data|].
  - intros Hvote. right. eauto.
  - intros [= <- <- <-]. left. auto.
Qed.

End Requests.

(** X25.  [/api/vote] answers with 200, 400, 403 or 500.  With 400 or 403
    the ledger is exactly as before.  It answers 500, from an exception
    nothing catches, in two cases only: the JSON body is a value other than
    an object that is not falsy, so that [data.get] raises and the ledger
    is untouched; or the chain is empty and [cast_vote] raises
    [IndexError]. *)
Theorem api_vote_failure_leaves_ledger
    (fuel : nat) (body : Request.json_body) (t_vote t_block : string)
    (db : Database.Db) (bc bc' : Ledger.Blockchain) (reply : Api.vote_body) (code : Z) :
  Request.api_vote_request fuel body t_vote t_block db bc = Some (bc', (reply, code)) ->
  (code = 200 \/ code = 400 \/ code = 403 \/ code = 500) /\
  (code = 400 \/ code = 403 -> bc' = bc) /\
  (code = 500 ->
   (Request.request_data body = None /\ bc' = bc) \/
   (is_Some (Request.request_data body) /\ Ledger.chain bc = [])) /\
  (Request.request_data body = None -> code = 500 /\ bc' = bc).
Proof.
  intros Hvote.
  destruct (api_vote_request_cases _ _ _ _ _ _ _ _ _ Hvote)
    as [(Hdata & -> & -> & ->)|(data & Hdata & Hcall)].
  - repeat apply conj; [tauto|reflexivity|intros _; left; auto|auto].
  - assert (Hnone : Request.request_data body = None -> code = 500 /\ bc' = bc)
      by (rewrite Hdata; discriminate).
    assert (Hsome : is_Some (Request.request_data body)) by (rewrite Hdata; eauto).
    destruct (api_vote_cases _ _ _ _ _ _ _ _ _ _ _ Hcall)
      as [(Hbc & Hcode & _)|(token & sig & pk & result & _ & _ & _ & _ & _ & Hcast & Hres)].
    + repeat apply conj; [tauto|auto| |exact Hnone].
      intros ->. destruct Hcode; discriminate.
    + destruct (cast_vote_cases _ _ _ _ _ _ _ _ _ Hcast)
        as [(err & -> & Hbc)|[(-> & Hempty & _)|(tip & b & -> & _)]];
        destruct Hres as [_ ->].
      * repeat apply conj; [tauto|auto|discriminate|exact Hnone].
      * repeat apply conj; [tauto|intros [H|H]; discriminate H|auto|exact Hnone].
      * repeat apply conj; [tauto|intros [H|H]; discriminate H|discriminate|exact Hnone].
Qed.

Lemma api_vote_failure_leaves_ledger_witness :
  (500 = 200 \/ 500 = 400 \/ 500 = 403 \/ 500 = 500) /\
  (500 = 400 \/ 500 = 403 -> Examples.ledger0 = Examples.ledger0) /\
  (500 = 500 ->
   (Request.request_data Request.BodyTruthy = None /\ Examples.ledger0 = Examples.ledger0) \/
   (is_Some (Request.request_data Request.BodyTruthy) /\
    Ledger.chain Examples.ledger0 = [])) /\
  (Request.request_data Request.BodyTruthy = None ->
   500 = 500 /\ Examples.ledger0 = Examples.ledger0).
Proof.
  apply (api_vote_failure_leaves_ledger 2 Request.BodyTruthy Examples.vote_time
           Ballots.ballot_time Examples.registry0 Examples.ledger0 Examples.ledger0
           Api.VoteServerError 500).
  reflexivity.
Defined.

Lemma api_vote_ok_means_verified_witness :
  exists token sig pk tx i,
    BlindSignature.hex_to_token
      (PyStr.strip (BlindSignature.token_to_hex Examples.demo_token)) = Some token /\
    BlindSignature.b64_to_int
      (PyStr.strip (BlindSignature.int_to_b64 Ballots.genuine_sig)) = Some sig /\
    VoterRegistry.get_public_key Examples.registry0 = Some pk /\
    BlindSignature.verify_signature token sig pk = true /\
    PyStr.strip "Candidate A" ∈ Ledger.CANDIDATES /\
    Ledger.is_token_spent (BlindSignature.token_hash token) Examples.ledger0 = false /\
    Ledger.is_token_spent (BlindSignature.token_hash token) Ballots.ledger_ballot = true /\
    Ballots.ballot_body = Api.VoteResult (Ledger.Accepted tx i) /\
    Ledger.cast_vote 2 (BlindSignature.token_hash token) (PyStr.strip "Candidate A")
      (PyStr.prefix 64 (PyStr.strip (BlindSignature.int_to_b64 Ballots.genuine_sig)))
      Examples.vote_time Ballots.ballot_time Examples.ledger0
      = Some (Ballots.ledger_ballot, Ledger.Accepted tx i).
Proof.
  apply (api_vote_ok_means_verified 2 (BlindSignature.token_to_hex Examples.demo_token)
           (BlindSignature.int_to_b64 Ballots.genuine_sig) "Candidate A"
           Examples.vote_time Ballots.ballot_time Examples.registry0 Examples.ledger0
           Ballots.ledger_ballot Ballots.ballot_body).
  vm_compute. reflexivity.
Defined.

(** X26.  [/api/register] has three outcomes.  A JSON body that is neither
    an object nor falsy makes [data.get] raise: the answer is 500 and the
    store is untouched.  Otherwise it answers 400 and leaves the store
    untouched, or answers 200 with a blind signature; the latter only for a
    stripped [voter_id] made of alphanumeric characters and underscores
    that is eligible and had no token, and then the store is the old one
    with that voter registered. *)
Theorem api_register_effect (body : Request.json_body) (now : string) (db : Database.Db) :
  let response := Request.api_register_request body now db in
  (Request.request_data body = None /\
   response = (db, (None, 500))) \/
  (exists data reply,
     Request.request_data body = Some data /\
     response = (db, (Some reply, 400)) /\
     forall sig, reply <> Api.RegisterResult (VoterRegistry.IssueOk sig)) \/
  (exists data sig,
     Request.request_data body = Some data /\
     let voter_id := PyStr.strip (Request.str_field data "voter_id") in
     response = (Database.register_voter voter_id now db,
                 (Some (Api.RegisterResult (VoterRegistry.IssueOk sig)), 200)) /\
     PyStr.all Api.voter_id_char voter_id = true /\
     Database.is_eligible voter_id db = true /\
     Database.has_token_issued voter_id db = false /\
     Database.has_token_issued voter_id (fst response) = true).
Proof.
  cbv zeta. unfold Request.api_register_request.
  destruct (Request.request_data body) as [data|]; [|left; auto].
  right. unfold Api.api_register. cbv zeta.
  destruct (Api.is_empty _ || Api.is_empty _);
    [left; eexists _, _; repeat apply conj; try reflexivity; discriminate|].
  destruct (PyStr.all Api.voter_id_char (PyStr.strip (Request.str_field data "voter_id")))
    eqn:Hchars; cbn [negb];
    [|left; eexists _, _; repeat apply conj; try reflexivity; discriminate].
  destruct (issue_blind_token_cases (PyStr.strip (Request.str_field data "voter_id"))
              (PyStr.strip (Request.str_field data "blinded_token_b64")) now db)
    as [[err ->]|(sig & -> & Helig & Hfresh)]; cbn [VoterRegistry.success fst snd].
  - left. eexists _, _. repeat apply conj; try reflexivity. discriminate.
  - right. exists data, sig. repeat apply conj; try assumption; try reflexivity.
    apply register_voter_issued.
Qed.



Section AppendOnly.
Import Ledger LedgerSpec LedgerRuns.

Lemma reaches_extends (start bc : Blockchain) :
  reaches start bc ->
  (exists suffix, chain bc = chain start ++ suffix) /\
  spent_tokens start ⊆ spent_tokens bc.
Proof.
  intros Hreach. induction Hreach as [|bc fuel th c sig t1 t2 bc' r _ IH Hcast].
  - split; [exists []; now rewrite app_nil_r|reflexivity].
  - destruct IH as [[suffix Hsuffix] Hspent].
    destruct (cast_vote_cases _ _ _ _ _ _ _ _ _ Hcast)
      as [(err & _ & ->)|[(_ & Hempty & _ & _ & ->)|(tip & b & _ & _ & _ & _ & -> & _)]].
    + split; [eauto|exact Hspent].
    + cbn [chain spent_tokens]. split.
      * exists suffix. now rewrite <- Hempty.
      * intros t Ht. apply elem_of_union_l. now apply Hspent.
    + unfold save. cbn [chain spent_tokens]. split.
      * exists (suffix ++ [b]). now rewrite Hsuffix, app_assoc.
      * intros t Ht. apply elem_of_union_l. now apply Hspent.
Qed.

Lemma genesis_swap_linked (g g' : Block) (rest : list Block) (i : nat) :
  hash g' = hash g -> (1 <= i)%nat -> linked (g :: rest) i -> linked (g' :: rest) i.
Proof.
  intros Hhash Hi Hl current previous Hcur Hpre.
  destruct i as [|[|i]]; [lia| |].
  - cbn in Hcur, Hpre. injection Hpre as <-. rewrite Hhash.
    apply (Hl current g); [exact Hcur|reflexivity].
  - apply (Hl current previous); [exact Hcur|exact Hpre].
Qed.

End AppendOnly.

(** X28.  The ledger only grows: whatever calls of [cast_vote] follow, the
    chain keeps the blocks it had as a prefix, so [get_block] returns for
    every old index what it returned before, and a token that was spent
    stays spent. *)
Theorem ledger_append_only (start bc : Ledger.Blockchain) :
  LedgerRuns.reaches start bc ->
  (forall i d, Ledger.get_block i start = Some d -> Ledger.get_block i bc = Some d) /\
  (forall t, Ledger.is_token_spent t start = true -> Ledger.is_token_spent t bc = true) /\
  Ledger.block_count (Ledger.get_stats start) <= Ledger.block_count (Ledger.get_stats bc).
Proof.
  intros Hreach. destruct (reaches_extends start bc Hreach) as [[suffix Hsuffix] Hspent].
  repeat apply conj.
  - intros i d. unfold Ledger.get_block. rewrite Hsuffix, List.length_app.
    destruct (0 <=? i) eqn:H0; cbn [andb]; [|discriminate].
    destruct (i <? Z.of_nat (List.length (Ledger.chain start))) eqn:H1; [|discriminate].
    apply Z.leb_le in H0. apply Z.ltb_lt in H1.
    replace (i <? Z.of_nat (List.length (Ledger.chain start) + List.length suffix))
      with true by (symmetry; apply Z.ltb_lt; lia).
    rewrite lookup_app_l by lia. trivial.
  - intros t. unfold Ledger.is_token_spent. rewrite !bool_decide_eq_true. apply Hspent.
  - unfold Ledger.get_stats. cbn [Ledger.block_count].
    rewrite Hsuffix, List.length_app. lia.
Qed.

Lemma ledger_append_only_witness :
  (forall i d, Ledger.get_block i Examples.ledger0 = Some d ->
               Ledger.get_block i Examples.ledger1 = Some d) /\
  (forall t, Ledger.is_token_spent t Examples.ledger0 = true ->
             Ledger.is_token_spent t Examples.ledger1 = true) /\
  Ledger.block_count (Ledger.get_stats Examples.ledger0)
    <= Ledger.block_count (Ledger.get_stats Examples.ledger1).
Proof.
  apply (ledger_append_only Examples.ledger0 Examples.ledger1).
  exact ledger1_reached.
Defined.

(** X29.  Neither the audit nor the count looks inside block 0: replacing
    the first block by any block that carries the same [hash] field, votes
    included, changes neither the verdict of [verify_chain] nor the tallies
    nor [total_votes]. *)
Theorem genesis_block_unchecked
    (g g' : Ledger.Block) (rest : list Ledger.Block) (pending : list Ledger.Vote)
    (spent : gset string) (file : Ledger.ChainFile) :
  Ledger.hash g' = Ledger.hash g ->
  let bc := Ledger.mkBlockchain (g :: rest) pending spent file in
  let bc' := Ledger.mkBlockchain (g' :: rest) pending spent file in
  Ledger.valid (Ledger.verify_chain bc') = Ledger.valid (Ledger.verify_chain bc) /\
  Ledger.get_tallies bc' = Ledger.get_tallies bc /\
  Ledger.total_votes (Ledger.get_stats bc') = Ledger.total_votes (Ledger.get_stats bc).
Proof.
  intros Hhash bc bc'. subst bc bc'. repeat apply conj; try reflexivity.
  unfold Ledger.verify_chain, Ledger.is_valid. cbn [Ledger.valid Ledger.chain].
  apply eq_true_iff_eq. rewrite !is_valid_chain_linked. cbn [List.length].
  split; intros Hall i Hi.
  - apply (genesis_swap_linked g' g); [now symmetry|lia|]. now apply Hall.
  - apply (genesis_swap_linked g g'); [exact Hhash|lia|]. now apply Hall.
Qed.

Lemma genesis_block_unchecked_witness :
  let g := Ledger.new_block 0 Examples.genesis_time [] Ledger.zero_hash 0 in
  let g' := Ledger.mkBlock 0 Examples.genesis_time [Examples.foreign_vote]
              Ledger.zero_hash 7 (Ledger.hash g) in
  let bc := Ledger.mkBlockchain [g] [] ∅ Ledger.FileAbsent in
  let bc' := Ledger.mkBlockchain [g'] [] ∅ Ledger.FileAbsent in
  Ledger.valid (Ledger.verify_chain bc') = Ledger.valid (Ledger.verify_chain bc) /\
  Ledger.get_tallies bc' = Ledger.get_tallies bc /\
  Ledger.total_votes (Ledger.get_stats bc') = Ledger.total_votes (Ledger.get_stats bc).
Proof.
  intros g g'.
  apply (genesis_block_unchecked g g' [] [] ∅ Ledger.FileAbsent).
  reflexivity.
Defined.

(** X30.  [get_voter_status] does not consult the eligible list for a voter
    that has a row: right after [register_voter] the status says eligible,
    registered and token issued, whether or not the voter is in
    [eligible_voters], which [register_voter] does not change. *)
Theorem status_of_registered_row (voter_id now : string) (db : Database.Db) :
  let db' := Database.register_voter voter_id now db in
  let status := Database.get_voter_status voter_id db' in
  Database.st_eligible status = true /\
  Database.st_registered status = true /\
  Database.st_token_issued status = true /\
  Database.is_eligible voter_id db' = Database.is_eligible voter_id db.
Proof.
  cbv zeta.
  pose proof (register_voter_issued voter_id now db) as Hissued.
  unfold Database.has_token_issued in Hissued.
  unfold Database.get_voter_status.
  destruct (Database.voters (Database.register_voter voter_id now db) !! voter_id)
    as [row|]; [|discriminate].
  cbn [Database.st_eligible Database.st_registered Database.st_token_issued].
  repeat apply conj; try reflexivity; try assumption.
  unfold Database.is_eligible.
  now rewrite (proj2 (register_voter_frame voter_id now db)).
Qed.
